(** * The Baby-Plonk prover core of snarkjs: polynomials and prover steps

    A shallow embedding of [src/polynomial/polynomial.js] (class
    [Polynomial]) and of the steps of [babyPlonkProve] that the statements
    below are about, with the statements proved over it; and of
    [writeBin] of [src/wtns_utils.js].

    Conventions of the embedding.
    - A field element is a value of a type [F] that carries the operations
      the code calls on its [Fr] object ([Fr.add], [Fr.mul], ...).  The
      code is written against that interface, and so is the embedding.
    - A buffer ([BigBuffer], [Uint8Array]) of [k * n8] bytes is the list of
      its [k] field elements; the byte offset [i * n8] is the index [i].
      Indices are integers, as JavaScript numbers are: an access outside
      the buffer is the fault [OutOfBounds].
    - A method that mutates [this] returns the new [this]; a [throw] is a
      value [Err e].
    - Every polynomial works over the one ambient field.  A constructor call
      that passes no domain size leaves [domainSize] unset ([None]).
    - The constructor of the class takes [(coefficients, domainSize, Fr,
      logger)] and stores them by position.  The record
      [Polynomial.Polynomial] is an object whose [Fr] is the field object,
      and the methods of the class are embedded on it.  A call
      [new Polynomial(coefficients, Fr, logger)] leaves the field object in
      the place of the domain size and the logger in the place of [Fr]:
      [Polynomial.object] tells such an object from one that has its field
      object, and a method called on it throws.
    - A name that the prover uses and does not import is not defined; the
      code throws where it evaluates the name.  A property that no code
      assigns is [undefined].
    - Where the code reads single bytes ([readUInt32], [writeBin]) a buffer
      is the list of its bytes. *)

From Stdlib Require Import ZArith List Lia Bool String Ring.
From Stdlib Require Import Zmod DecimalString.
From Stdlib.Strings Require Byte.
Import ListNotations.
#[local] Open Scope Z_scope.

(** ** Errors and results *)

Inductive error : Type :=
| OutOfBounds        (* a read or write outside a buffer, or of an undefined value *)
| AddGreaterSize     (* "Add a greater size polynomial is not allowed" *)
| SplitParts         (* "Polynomials can't be split in ... parts" *)
| BlindingLength     (* "Blinding factors length must be ..." *)
| CopyConstraints    (* "Copy constraints does not match" *)
| NoDomainSize       (* divZh on a polynomial built without a domain size *)
| NotDefined         (* ReferenceError: a name that is not defined *)
| NoFieldObject      (* a method of Polynomial on an object whose Fr is not
                        the field object *)
| UndefinedValue     (* TypeError: a property or a method of undefined *)
| EmptyScalar.       (* SyntaxError: Scalar.fromRprLE of an empty slice *)

Inductive result (A : Type) : Type :=
| Ok (a : A)
| Err (e : error).
Arguments Ok {A} a.
Arguments Err {A} e.

Definition bind {A B : Type} (c : result A) (k : A -> result B) : result B :=
  match c with
  | Ok a => k a
  | Err e => Err e
  end.

Notation "x <- c ;; k" := (bind c (fun x => k))
  (at level 61, c at next level, right associativity).

(** ** Loops *)

(** [for (let i = i0; i < i0 + k; i++) body] *)
Fixpoint for_up {St : Type} (k : nat) (i : Z) (body : Z -> St -> result St) (s : St)
  : result St :=
  match k with
  | O => Ok s
  | S k' => s' <- body i s ;; for_up k' (i + 1) body s'
  end.

(** [for (let i = lo; i < hi; i++) body] *)
Definition for_range {St : Type} (lo hi : Z) (body : Z -> St -> result St) (s : St)
  : result St :=
  for_up (Z.to_nat (hi - lo)) lo body s.

(** [for (let i = k - 1; i >= 0; i--) body] *)
Fixpoint for_down_from {St : Type} (k : nat) (body : Z -> St -> result St) (s : St)
  : result St :=
  match k with
  | O => Ok s
  | S k' => s' <- body (Z.of_nat k') s ;; for_down_from k' body s'
  end.

(** [for (let i = hi; i >= 0; i--) body] *)
Definition for_down {St : Type} (hi : Z) (body : Z -> St -> result St) (s : St)
  : result St :=
  for_down_from (Z.to_nat (hi + 1)) body s.

(** ** The field interface [Fr] *)

Module Fr.

(** The operations of the curve's scalar field object that the code
    calls.  [toMontgomery] and [toObject] are the element-wise actions of
    [batchToMontgomery] and of [Fr.toObject] / [Scalar.fromRprLE]. *)
Class Ops (F : Type) : Type := {
  zero : F;
  one : F;
  add : F -> F -> F;
  sub : F -> F -> F;
  neg : F -> F;
  mul : F -> F -> F;
  inv : F -> F;
  eq : F -> F -> bool;
  toMontgomery : F -> F;
  toObject : F -> Z
}.

Definition square {F : Type} `{Ops F} (x : F) : F := mul x x.
Definition isZero {F : Type} `{Ops F} (x : F) : bool := eq x zero.
Definition div {F : Type} `{Ops F} (x y : F) : F := mul x (inv y).

(** What the statements assume of the field: it is a commutative ring,
    [eq] decides equality, and [inv] inverts whatever has an inverse (in
    a field: every element but zero). *)
Class Laws (F : Type) `{Ops F} : Prop := {
  ring : ring_theory zero one add mul sub neg (@Logic.eq F);
  eq_true : forall x y : F, eq x y = true <-> x = y;
  one_neq_zero : one <> zero :> F;
  inv_unit : forall x y : F, mul x y = one -> mul x (inv x) = one
}.

End Fr.

(** ** Buffers *)

Section Buffers.
Context {F : Type} `{Fr.Ops F}.

Definition byteLength (b : list F) : Z := Z.of_nat (List.length b).

(** [new BigBuffer(n * n8)]: [n] zero elements. *)
Definition BigBuffer (n : Z) : list F := repeat Fr.zero (Z.to_nat n).

(** [b.slice(i * n8, i * n8 + n8)], read as one field element. *)
Definition buf_get (b : list F) (i : Z) : result F :=
  if i <? 0 then Err OutOfBounds
  else match nth_error b (Z.to_nat i) with
       | Some x => Ok x
       | None => Err OutOfBounds
       end.

(** [b.set(v, i * n8)] for one field element [v]. *)
Definition buf_set (b : list F) (v : F) (i : Z) : result (list F) :=
  if (0 <=? i) && (i <? byteLength b)
  then Ok (firstn (Z.to_nat i) b ++ v :: skipn (S (Z.to_nat i)) b)
  else Err OutOfBounds.

(** [b.slice(fr * n8, to * n8)]: the range is clamped to the buffer. *)
Definition buf_slice (b : list F) (fr to : Z) : list F :=
  firstn (Z.to_nat (to - fr)) (skipn (Z.to_nat fr) b).

(** [b.set(src, off * n8)] for a buffer [src]. *)
Definition buf_copy (b src : list F) (off : Z) : result (list F) :=
  if (0 <=? off) && (off + byteLength src <=? byteLength b)
  then Ok (firstn (Z.to_nat off) b ++ src
           ++ skipn (Z.to_nat off + List.length src) b)
  else Err OutOfBounds.

(** [arr[i]] of a JavaScript array; [undefined] is a fault when used. *)
Definition arr_get {A : Type} (arr : list A) (i : Z) : result A :=
  if i <? 0 then Err OutOfBounds
  else match nth_error arr (Z.to_nat i) with
       | Some x => Ok x
       | None => Err OutOfBounds
       end.

End Buffers.

(** ** class Polynomial *)

Module Polynomial.
Section Methods.
Context {F : Type} `{Fr.Ops F}.

Record Polynomial : Type := mk {
  coeff : list F;
  domainSize : option Z
}.

(** [get length()] *)
Definition length (this : Polynomial) : Z := byteLength (coeff this).

(** The loop of [degree()]: [for (i = k; i > 0; i--)], returning the first
    index whose coefficient is not zero, and 0 when there is none. *)
Fixpoint degree_scan (k : nat) (c : list F) : Z :=
  match k with
  | O => 0
  | S k' =>
      if negb (Fr.eq Fr.zero (nth k c Fr.zero)) then Z.of_nat k
      else degree_scan k' c
  end.

Definition degree_of (c : list F) : Z :=
  degree_scan (Z.to_nat (byteLength c - 1)) c.

Definition degree (this : Polynomial) : Z := degree_of (coeff this).

(** [getCoef(index)] *)
Definition getCoef (this : Polynomial) (index : Z) : result F :=
  if degree this <? index then Ok Fr.zero else buf_get (coeff this) index.

(** [evaluate(point)]: Horner, from the top coefficient down. *)
Definition evaluate (this : Polynomial) (point : F) : F :=
  fold_right (fun currentCoefficient res =>
                Fr.add currentCoefficient (Fr.mul res point))
             Fr.zero (coeff this).

(** [blindCoefficients(blindingFactors)] *)
Definition blindCoefficients (this : Polynomial) (blindingFactors : list F)
  : result Polynomial :=
  let blindedCoefficients :=
    BigBuffer (length this + byteLength blindingFactors) in
  blindedCoefficients <- buf_copy blindedCoefficients (coeff this) 0 ;;
  blindedCoefficients <-
    for_range 0 (byteLength blindingFactors)
      (fun i blinded =>
         bi <- arr_get blindingFactors i ;;
         hi <- buf_get blinded (length this + i) ;;
         blinded <- buf_set blinded (Fr.add hi bi) (length this + i) ;;
         lo <- buf_get blinded i ;;
         buf_set blinded (Fr.sub lo bi) i)
      blindedCoefficients ;;
  Ok (mk blindedCoefficients (domainSize this)).

(** [add(polynomial, blindingValue)] *)
Definition add (this polynomial : Polynomial) (blindingValue : option F)
  : result Polynomial :=
  if length this <? degree polynomial + 1 then Err AddGreaterSize
  else
    let thisDegree := degree this in
    let polyDegree := degree polynomial in
    c <- for_range 0 (length this)
           (fun i c =>
              a <- (if i <=? thisDegree then buf_get c i else Ok Fr.zero) ;;
              b <- (if i <=? polyDegree then buf_get (coeff polynomial) i
                    else Ok Fr.zero) ;;
              let b := match blindingValue with
                       | Some v => Fr.mul b v
                       | None => b
                       end in
              buf_set c (Fr.add a b) i)
           (coeff this) ;;
    Ok (mk c (domainSize this)).

(** [sub(polynomial, blindingValue)].  [this.degree()] is called in every
    iteration, on the coefficients as they are by then. *)
Definition sub (this polynomial : Polynomial) (blindingValue : option F)
  : result Polynomial :=
  if length this <? length polynomial then Err AddGreaterSize
  else
    c <- for_range 0 (length this)
           (fun i c =>
              a <- (if i <? degree_of c then buf_get c i else Ok Fr.zero) ;;
              b <- (if i <? degree polynomial
                    then buf_get (coeff polynomial) i else Ok Fr.zero) ;;
              let b := match blindingValue with
                       | Some v => Fr.mul b v
                       | None => b
                       end in
              buf_set c (Fr.sub a b) i)
           (coeff this) ;;
    Ok (mk c (domainSize this)).

(** [mulScalar(value)] *)
Definition mulScalar (this : Polynomial) (value : F) : result Polynomial :=
  c <- for_range 0 (length this)
         (fun i c =>
            x <- buf_get c i ;;
            buf_set c (Fr.mul x value) i)
         (coeff this) ;;
  Ok (mk c (domainSize this)).

(** [addScalar(value)] *)
Definition addScalar (this : Polynomial) (value : F) : result Polynomial :=
  currentValue <- (if 0 =? length this then Ok Fr.zero
                   else buf_get (coeff this) 0) ;;
  c <- buf_set (coeff this) (Fr.add currentValue value) 0 ;;
  Ok (mk c (domainSize this)).

(** [subScalar(value)] *)
Definition subScalar (this : Polynomial) (value : F) : result Polynomial :=
  currentValue <- (if 0 =? length this then Ok Fr.zero
                   else buf_get (coeff this) 0) ;;
  c <- buf_set (coeff this) (Fr.sub currentValue value) 0 ;;
  Ok (mk c (domainSize this)).

(** [divByXValue(value)]: divide by [X - value].  The comparison of the
    remainder is made, and its [throw] is commented out in the source. *)
Definition divByXValue (this : Polynomial) (value : F) : result Polynomial :=
  let coefs := BigBuffer (length this) in
  coefs <- buf_set coefs Fr.zero (length this - 1) ;;
  top <- buf_get (coeff this) (length this - 1) ;;
  coefs <- buf_set coefs top (length this - 2) ;;
  coefs <- for_down (length this - 3)
             (fun i coefs =>
                c <- buf_get (coeff this) (i + 1) ;;
                q <- buf_get coefs (i + 1) ;;
                buf_set coefs (Fr.add c (Fr.mul value q)) i)
             coefs ;;
  c0 <- buf_get (coeff this) 0 ;;
  q0 <- buf_get coefs 0 ;;
  _ <- (if negb (Fr.eq c0 (Fr.mul (Fr.neg value) q0))
        then Ok tt  (* the throw of 'Polynomial does not divide' is disabled *)
        else Ok tt) ;;
  Ok (mk coefs (domainSize this)).

(** [divZh()]: divide by [X^domainSize - 1].  The result is built by
    [new Polynomial(coefs, this.Fr)], which passes no domain size. *)
Definition divZh (this : Polynomial) : result Polynomial :=
  match domainSize this with
  | None => Err NoDomainSize
  | Some n =>
      let coefs := BigBuffer (n * 4) in
      coefs <- for_range 0 n
                 (fun i coefs =>
                    c <- buf_get (coeff this) i ;;
                    buf_set coefs (Fr.neg c) i)
                 coefs ;;
      coefs <- for_range n (n * 4)
                 (fun i coefs =>
                    q <- buf_get coefs (i - n) ;;
                    c <- buf_get (coeff this) i ;;
                    let a := Fr.sub q c in
                    coefs <- buf_set coefs a i ;;
                    (if n * 3 - 4 <? i
                     then if negb (Fr.isZero a)
                          then Ok coefs  (* the throw is disabled *)
                          else Ok coefs
                     else Ok coefs))
                 coefs ;;
      Ok (mk coefs None)
  end.

(** [truncate()] *)
Definition truncate (this : Polynomial) : Polynomial :=
  let deg := degree this in
  if deg + 1 <? byteLength (coeff this)
  then mk (buf_slice (coeff this) 0 (deg + 1)) (domainSize this)
  else this.

(** An object of the class, by what its constructor call left in [Fr].
    [new Polynomial(coefficients, domainSize, Fr, logger)] gives an object
    that has its field object: the record above.  [new
    Polynomial(coefficients, Fr, logger)] gives an object whose
    [domainSize] is the field object and whose [Fr] is the logger: it has
    its coefficients, and no field object. *)
Inductive object : Type :=
| with_Fr (this : Polynomial)
| without_Fr (coefficients : list F).

(** [new Polynomial(coefficients, Fr, logger)] *)
Definition new_Fr_logger (coefficients : list F) : object :=
  without_Fr coefficients.

(** A method called on an object.  Every method reads [this.length] or
    calls [this.degree()] before it changes anything, and [get length()]
    divides by [this.Fr.n8].  Where [Fr] is the logger that is a TypeError
    (no logger was given: [undefined.n8]) or the error "Polynomial
    coefficients buffer has incorrect size" (the quotient is not a
    number). *)
Definition call {A : Type} (this : object) (method : Polynomial -> result A)
  : result A :=
  match this with
  | with_Fr p => method p
  | without_Fr _ => Err NoFieldObject
  end.

(** A method that changes [this], called on an object. *)
Definition update (this : object) (method : Polynomial -> result Polynomial)
  : result object :=
  call this (fun p => r <- method p ;; Ok (with_Fr r)).

(** [polynomial.coef]: the constructor stores the coefficients under
    [coeff] and nothing assigns [coef], so the property is [undefined] on
    every object. *)
Definition coef_property (polynomial : object) : option (list F) := None.

(** The methods as the prover calls them, on objects.  [add] calls
    [polynomial.degree()] before it reads [this.length]. *)
Definition object_evaluate (this : object) (point : F) : result F :=
  call this (fun p => Ok (evaluate p point)).

Definition object_getCoef (this : object) (index : Z) : result F :=
  call this (fun p => getCoef p index).

Definition object_blindCoefficients (this : object)
    (blindingFactors : list F) : result object :=
  update this (fun p => blindCoefficients p blindingFactors).

Definition object_add (this polynomial : object) (blindingValue : option F)
  : result object :=
  call polynomial (fun q => update this (fun p => add p q blindingValue)).

Definition object_mulScalar (this : object) (value : F) : result object :=
  update this (fun p => mulScalar p value).

Definition object_subScalar (this : object) (value : F) : result object :=
  update this (fun p => subScalar p value).

Definition object_divByXValue (this : object) (value : F) : result object :=
  update this (fun p => divByXValue p value).

(** [Math.ceil(a / b)] for integers [a] and [b > 0]. *)
Definition ceil_div (a b : Z) : Z := - ((- a) / b).

(** One turn of the loop of [split]: the chunk of index [i].  The chunk is
    built by [new Polynomial(new BigBuffer(byteLength), this.Fr,
    this.logger)], its buffer is filled through [res[i].coeff], and the
    last chunk is then told to [truncate()]. *)
Definition split_chunk (this : Polynomial) (numPols chunkLength : Z)
    (blindingFactors : list F) (i : Z) : result object :=
  let isLast := (numPols - 1 =? i) in
  let byteLength :=
    if isLast then length this - (numPols - 1) * chunkLength
    else chunkLength + 1 in
  let fr := i * chunkLength in
  let to := if isLast then length this else (i + 1) * chunkLength in
  c <- buf_copy (BigBuffer byteLength) (buf_slice (coeff this) fr to) 0 ;;
  (* Add a blinding factor as higher degree *)
  c <- (if negb isLast
        then b <- arr_get blindingFactors i ;; buf_set c b chunkLength
        else Ok c) ;;
  (* Sub blinding factor to the lowest degree *)
  c <- (if negb (0 =? i)
        then c0 <- buf_get c 0 ;;
             b <- arr_get blindingFactors (i - 1) ;;
             buf_set c (Fr.sub c0 b) 0
        else Ok c) ;;
  let res_i := new_Fr_logger c in
  if isLast then update res_i (fun p => Ok (truncate p)) else Ok res_i.

(** [split(numPols, degPols, blindingFactors)].  [res[i]] is the element
    of index [i] of the returned list: the chunks, then the one-coefficient
    zero polynomials that fill the list up to [numPols]. *)
Definition split (this : Polynomial) (numPols degPols : Z)
    (blindingFactors : list F) : result (list object) :=
  if numPols <? 1 then Err SplitParts
  else if 1 =? numPols then Ok [with_Fr this]
  else if negb (0 =? byteLength blindingFactors)
          && (byteLength blindingFactors <? numPols - 1)
  then Err BlindingLength
  else
    let chunkLength := degPols + 1 in
    let numRealPols := ceil_div (degree this + 1) chunkLength in
    let fill :=
      if numRealPols <? numPols
      then repeat (new_Fr_logger (BigBuffer 1))
                  (Z.to_nat (numPols - numRealPols))
      else [] in
    let numPols := Z.min numPols numRealPols in
    res <- for_range 0 numPols
             (fun i res =>
                c <- split_chunk this numPols chunkLength blindingFactors i ;;
                Ok (res ++ [c]))
             [] ;;
    Ok (res ++ fill).

End Methods.
End Polynomial.

Arguments Polynomial.Polynomial F : clear implicits.
Arguments Polynomial.object F : clear implicits.

(** ** class Proof *)

Module Proof.
Section Methods.
Context {F G1 : Type}.

(** Modelled from the spec: [proof.js] is not among the sources.  A proof
    is a map of named group commitments and a map of named scalar
    evaluations, which accumulates across the rounds; a JavaScript object
    keeps its keys in the order of their first assignment. *)
Record Proof : Type := mk {
  polynomials : list (string * G1);
  evaluations : list (string * F)
}.

Definition new : Proof := mk [] [].

(** [obj[key] = v] *)
Fixpoint assign {A : Type} (key : string) (v : A) (obj : list (string * A))
  : list (string * A) :=
  match obj with
  | [] => [(key, v)]
  | (k, x) :: obj' =>
      if String.eqb k key then (k, v) :: obj'
      else (k, x) :: assign key v obj'
  end.

(** [obj[key]] *)
Fixpoint lookup {A : Type} (key : string) (obj : list (string * A))
  : result A :=
  match obj with
  | [] => Err OutOfBounds
  | (k, x) :: obj' => if String.eqb k key then Ok x else lookup key obj'
  end.

Definition addPolynomial (key : string) (polynomial : G1) (this : Proof)
  : Proof :=
  mk (assign key polynomial (polynomials this)) (evaluations this).

Definition getPolynomial (this : Proof) (key : string) : result G1 :=
  lookup key (polynomials this).

Definition addEvaluation (key : string) (evaluation : F) (this : Proof)
  : Proof :=
  mk (polynomials this) (assign key evaluation (evaluations this)).

Definition getEvaluation (this : Proof) (key : string) : result F :=
  lookup key (evaluations this).

End Methods.
End Proof.

Arguments Proof.Proof F G1 : clear implicits.

(** ** The prover [babyPlonkProve] *)

(** The header of the proving key, as [zkeyUtils.readHeader] returns it. *)
Record ZKey (F : Type) : Type := {
  nVars : Z;
  nPublic : Z;
  nAdditions : Z;
  nConstraints : Z;
  domainSize : Z;
  power : Z;
  cirPower : Z;
  k1 : F;
  curve_name : string
}.
Arguments nVars {F} _.
Arguments nPublic {F} _.
Arguments nAdditions {F} _.
Arguments nConstraints {F} _.
Arguments domainSize {F} _.
Arguments power {F} _.
Arguments cirPower {F} _.
Arguments k1 {F} _.
Arguments curve_name {F} _.

(** The object the prover returns, after [stringifyBigInts]: the
    evaluations and the public signals are decimal strings. *)
Record ProverOutput (G1 : Type) : Type := {
  out_polynomials : list (string * G1);
  out_evaluations : list (string * string);
  out_protocol : string;
  out_curve : string;
  out_publicSignals : list string
}.
Arguments out_polynomials {G1} _.
Arguments out_evaluations {G1} _.
Arguments out_protocol {G1} _.
Arguments out_curve {G1} _.
Arguments out_publicSignals {G1} _.

(** The decimal string of a non-negative integer ([BigInt.toString()]). *)
Definition decimal (z : Z) : string :=
  NilZero.string_of_uint (N.to_uint (Z.to_N z)).

(** The sections of the proving key that the prover names: the
    identifiers it imports from [./babyplonk.js]. *)
Inductive zkey_section : Type :=
| BP_A_MAP_ZKEY_SECTION
| BP_ADDITIONS_ZKEY_SECTION
| BP_K_ZKEY_SECTION
| BP_LAGRANGE_ZKEY_SECTION
| BP_PTAU_ZKEY_SECTION
| BP_Q_ZKEY_SECTION
| BP_SIGMA_ZKEY_SECTION.

(** Two names that the prover uses are neither declared in the module nor
    among its imports: to evaluate one of them throws a ReferenceError. *)
Definition BP_B_MAP_ZKEY_SECTION : result zkey_section := Err NotDefined.
Definition BP_Q2_ZKEY_SECTION : result zkey_section := Err NotDefined.

(** A property or a method of a value that may be [undefined]. *)
Definition defined {A : Type} (x : option A) : result A :=
  match x with
  | Some a => Ok a
  | None => Err UndefinedValue
  end.

Section Prover.
Context {F : Type} `{Fr.Ops F} {G1 : Type}.

(** The collaborators that are libraries of their own. *)
(** [Fr.ifft] and [Fr.batchInverse] *)
Variable ifft : list F -> list F.
Variable batchInverse : list F -> list F.
(** [Evaluations.fromPolynomial]: the extended evaluations, or a throw *)
Variable Evaluations_fromPolynomial : Polynomial.object F -> result (list F).
(** [G1.toAffine(await G1.multiExpAffine(PTauN, bm, logger, name))] on the
    coefficients [bm]: the commitment over the powers of tau *)
Variable multiExpAffine : list F -> G1.
(** [Fr.w[k]]: the root of unity of order [2^k]; [Fr.e(n)]: the field
    element of an integer *)
Variable w : Z -> F.
Variable Fr_e : Z -> F.
(** [Fr.mul(x)] with the second operand missing: outside the interface of
    the field, so whatever the library does there. *)
Variable mul_undefined : F -> result F.
(** [binFileUtils.readSection(fdZKey, zkeySections, id)]: the section as
    its 32-bit integers (see [readUInt32] below), or as its field
    elements; a throw when the file has no such section. *)
Variable readSection_ids : zkey_section -> result (list Z).
Variable readSection_Fr : zkey_section -> result (list F).
(** [fdZKey.readToBuffer(buffer, 0, sDomain, position)] at a position
    counted in field elements from the start of a section; the buffer may
    be [undefined], and what the file does then is the library's. *)
Variable readToBuffer : option (list F) -> zkey_section -> Z -> result unit.
(** [sFr = curve.Fr.n8]: the number of bytes of a field element *)
Variable sFr : Z.

Variable zkey : ZKey F.
Variable buffWitness : list F.
Variable buffInternalWitness : list F.

Definition batchToMontgomery (b : list F) : list F := map Fr.toMontgomery b.

(** [Polynomial.fromBuffer(buffer, Fr, logger)]: it returns
    [new Polynomial(coefficients, Fr, logger)]. *)
Definition fromBuffer (buffer : list F) : Polynomial.object F :=
  Polynomial.new_Fr_logger (ifft buffer).

(** [multiExponentiation(polynomial, name)]: it reads [polynomial.coef]. *)
Definition multiExponentiation (polynomial : Polynomial.object F)
  : result G1 :=
  coef <- defined (Polynomial.coef_property polynomial) ;;
  Ok (multiExpAffine coef).

(** [getWitness(idx)] *)
Definition getWitness (idx : Z) : result F :=
  let diff := nVars zkey - nAdditions zkey in
  if idx <? diff then buf_get buffWitness idx
  else if idx <? nVars zkey then buf_get buffInternalWitness (idx - diff)
  else Ok Fr.zero.

(** [buildABEvaluationsBuffer()].  [aMapBuff] and [bMapBuff] are the
    sections of 32-bit signal ids, [kBuff] the section of constants. *)
Definition buildABEvaluationsBuffer : result (list F * list F) :=
  let A := BigBuffer (domainSize zkey) in
  let B := BigBuffer (domainSize zkey) in
  aMapBuff <- readSection_ids BP_A_MAP_ZKEY_SECTION ;;
  section <- BP_B_MAP_ZKEY_SECTION ;;
  bMapBuff <- readSection_ids section ;;
  kBuff <- readSection_Fr BP_K_ZKEY_SECTION ;;
  AB <- for_range 0 (nConstraints zkey)
          (fun i (AB : list F * list F) =>
             let (A, B) := AB in
             (* Compute A value from signal id *)
             signalIdA <- arr_get aMapBuff i ;;
             a <- getWitness signalIdA ;;
             A <- buf_set A a i ;;
             (* Compute B value from signal id *)
             signalIdB <- arr_get bMapBuff i ;;
             b <- getWitness signalIdB ;;
             let b := if negb (i mod 2 =? 0) then Fr.neg b else b in
             k <- buf_get kBuff i ;;
             let b := Fr.add b k in
             b' <- getWitness signalIdB ;;
             B <- buf_set B b' i ;;
             Ok (A, B))
          (A, B) ;;
  Ok (batchToMontgomery (fst AB), batchToMontgomery (snd AB)).

(** Round 2, step 2: the buffer [buffers.Z] of the permutation polynomial,
    from the challenges [beta] and [gamma] and the evaluations. *)
Definition round2_Z (evalA evalB sigma : list F) (beta gamma : F)
  : result (list F) :=
  let n := domainSize zkey in
  numArr <- buf_set (BigBuffer n) Fr.one 0 ;;
  denArr <- buf_set (BigBuffer n) Fr.one 0 ;;
  st <- for_range 0 n
          (fun i (st : list F * list F * F) =>
             let '(numArr, denArr, w_i) := st in
             a <- buf_get evalA i ;;
             let num1 := Fr.add a (Fr.mul beta w_i) in
             let num1 := Fr.add num1 gamma in
             b <- buf_get evalB i ;;
             let num2 := Fr.add b (Fr.mul (k1 zkey) (Fr.mul beta w_i)) in
             let num2 := Fr.add num2 gamma in
             let num := Fr.mul num1 num2 in
             s1 <- buf_get sigma (i * 4) ;;
             let den1 := Fr.add a (Fr.mul s1 beta) in
             let den1 := Fr.add den1 gamma in
             s2 <- buf_get sigma ((n + i) * 4) ;;
             let den2 := Fr.add b (Fr.mul s2 beta) in
             let den2 := Fr.add den2 gamma in
             let den := Fr.mul den1 den2 in
             x <- buf_get numArr i ;;
             numArr <- buf_set numArr (Fr.mul x num) ((i + 1) mod n) ;;
             y <- buf_get denArr i ;;
             denArr <- buf_set denArr (Fr.mul y den) ((i + 1) mod n) ;;
             Ok (numArr, denArr, Fr.mul w_i (w (power zkey))))
          (numArr, denArr, Fr.one) ;;
  let '(numArr, denArr, _) := st in
  let denArr := batchInverse denArr in
  numArr <- for_range 0 n
              (fun i numArr =>
                 x <- buf_get numArr i ;;
                 y <- buf_get denArr i ;;
                 buf_set numArr (Fr.mul x y) i)
              numArr ;;
  z0 <- buf_get numArr 0 ;;
  if negb (Fr.eq z0 Fr.one) then Err CopyConstraints else Ok numArr.

(** Round 2 from step 2 on: the polynomial Z, its extended evaluations
    and the proof with the commitment to the blinded Z. *)
Definition round2 (evalA evalB sigma : list F) (beta gamma : F)
    (b5 b6 b7 : F) (proof : Proof.Proof F G1)
  : result (Polynomial.object F * list F * Proof.Proof F G1) :=
  buffers_Z <- round2_Z evalA evalB sigma beta gamma ;;
  let polynomials_Z := fromBuffer buffers_Z in
  evaluations_Z <- Evaluations_fromPolynomial polynomials_Z ;;
  polynomials_Z <-
    Polynomial.object_blindCoefficients polynomials_Z [b5; b6; b7] ;;
  commitment <- multiExponentiation polynomials_Z ;;
  Ok (polynomials_Z, evaluations_Z,
      Proof.addPolynomial "Z" commitment proof).

(** The proof object at the end of round 3: rounds 1 to 3 add the
    commitments A and B, then Z, then TL and TH, and no evaluation. *)
Definition proof_after_round3 (cA cB cZ cTL cTH : G1) : Proof.Proof F G1 :=
  Proof.addPolynomial "TH" cTH
    (Proof.addPolynomial "TL" cTL
       (Proof.addPolynomial "Z" cZ
          (Proof.addPolynomial "B" cB
             (Proof.addPolynomial "A" cA Proof.new)))).

(** What rounds 4 and 5 find in [polynomials] when they start:
    [polynomials.A], [.B], [.S1], [.Z], [.T], [.splitT[0]] and
    [.splitT[1]], each an object of either kind. *)
Record Polynomials : Type := {
  pol_A : Polynomial.object F;
  pol_B : Polynomial.object F;
  pol_S1 : Polynomial.object F;
  pol_Z : Polynomial.object F;
  pol_T : Polynomial.object F;
  pol_splitT0 : Polynomial.object F;
  pol_splitT1 : Polynomial.object F
}.

(** [round4()], step 2, at the evaluation challenge [xi]. *)
Definition round4 (xi : F) (polynomials : Polynomials)
    (proof : Proof.Proof F G1) : result (Proof.Proof F G1) :=
  a <- Polynomial.object_evaluate (pol_A polynomials) xi ;;
  let proof := Proof.addEvaluation "a" a proof in
  b <- Polynomial.object_evaluate (pol_B polynomials) xi ;;
  let proof := Proof.addEvaluation "b" b proof in
  s1 <- Polynomial.object_evaluate (pol_S1 polynomials) xi ;;
  let proof := Proof.addEvaluation "s1" s1 proof in
  t <- Polynomial.object_evaluate (pol_T polynomials) xi ;;
  let proof := Proof.addEvaluation "t" t proof in
  let xiw := Fr.mul xi (w (power zkey)) in
  aw <- Polynomial.object_evaluate (pol_A polynomials) xiw ;;
  let proof := Proof.addEvaluation "aw" aw proof in
  bw <- Polynomial.object_evaluate (pol_B polynomials) xiw ;;
  let proof := Proof.addEvaluation "bw" bw proof in
  zw <- Polynomial.object_evaluate (pol_Z polynomials) xiw ;;
  Ok (Proof.addEvaluation "zw" zw proof).

(** Round 5: [challenges.xiN], by [power] squarings of [xi]. *)
Definition round5_xiN (xi : F) : F :=
  Nat.iter (Z.to_nat (power zkey)) Fr.square xi.

(** Round 5, step 2: the buffer [coefficientsR] of the linearisation
    polynomial, from the challenges, the evaluations of round 4 in the
    proof, and the objects Z, Q1, Q2 and S2.  [getCoef] is handed the byte
    offsets [i_sFr] and [i_sFrw], and [coefficientsR.set(coefficient,
    i_sFr)] writes the element [i].  [proof.evaluations.zw] is read as
    [getEvaluation("zw")] reads it. *)
Definition round5_R (alpha beta gamma xi : F)
    (polynomials_Z Q1 Q2 S2 : Polynomial.object F)
    (proof : Proof.Proof F G1) : result (list F) :=
  let n := domainSize zkey in
  let xiN := round5_xiN xi in
  (* precompute evaluation.a * evaluation.b to use inside the loop *)
  a_ <- Proof.getEvaluation proof "a" ;;
  b_ <- Proof.getEvaluation proof "b" ;;
  let coefAB := Fr.mul a_ b_ in
  (* precompute evaluation.a * evaluation.a' to use inside the loop *)
  a_ <- Proof.getEvaluation proof "a" ;;
  aw_ <- Proof.getEvaluation proof "aw" ;;
  let coefAAw := Fr.mul a_ aw_ in
  (* precompute constant coefficient of z(x) to use inside the loop *)
  let betaxi := Fr.mul beta xi in
  part10 <- Proof.getEvaluation proof "a" ;;
  let part10 := Fr.add part10 betaxi in
  let part10 := Fr.add part10 gamma in
  part11 <- Proof.getEvaluation proof "b" ;;
  let part11 := Fr.add part11 (Fr.mul betaxi (k1 zkey)) in
  let part11 := Fr.add part11 gamma in
  let part1 := Fr.mul (Fr.mul part10 part11) alpha in
  let evalL1 :=
    Fr.div (Fr.sub xiN Fr.one) (Fr.mul (Fr.sub xi Fr.one) (Fr_e n)) in
  let part2 := Fr.mul evalL1 (Fr.square alpha) in
  let coefZ := Fr.add part1 part2 in
  (* precompute constant coefficient S2 to use inside the loop *)
  coefS2 <- Proof.getEvaluation proof "a" ;;
  s1_ <- Proof.getEvaluation proof "s1" ;;
  let coefS2 := Fr.add coefS2 (Fr.mul beta s1_) in
  let coefS2 := Fr.add coefS2 gamma in
  let coefS2 := Fr.mul coefS2 beta in
  zw_ <- Proof.getEvaluation proof "zw" ;;
  let coefS2 := Fr.mul coefS2 zw_ in
  let coefS2 := Fr.mul coefS2 alpha in
  for_range 0 (n + 3)
    (fun i coefficientsR =>
       let i_sFr := i * sFr in
       let i_sFrw := Z.rem (i + n + 4) n * sFr in
       z <- Polynomial.object_getCoef polynomials_Z i_sFr ;;
       let coefficient := Fr.mul coefZ z in
       coefficient <-
         (if i <? n
          then
            coefficient <-
              (if Z.rem i 2 =? 0
               then
                 a_ <- Proof.getEvaluation proof "a" ;;
                 q1 <- Polynomial.object_getCoef Q1 i_sFr ;;
                 let coefficient := Fr.add coefficient (Fr.mul a_ q1) in
                 b_ <- Proof.getEvaluation proof "b" ;;
                 q2 <- Polynomial.object_getCoef Q2 i_sFr ;;
                 let coefficient := Fr.add coefficient (Fr.mul b_ q2) in
                 q1w <- Polynomial.object_getCoef Q1 i_sFrw ;;
                 let coefficient :=
                   Fr.add coefficient (Fr.mul coefAB q1w) in
                 q2w <- Polynomial.object_getCoef Q2 i_sFrw ;;
                 Ok (Fr.add coefficient (Fr.mul coefAAw q2w))
               else Ok coefficient) ;;
            s2 <- Polynomial.object_getCoef S2 i_sFr ;;
            Ok (Fr.sub coefficient (Fr.mul coefS2 s2))
          else Ok coefficient) ;;
       buf_set coefficientsR coefficient i)
    (BigBuffer (n + 3)).

(** Round 5 from the evaluation of R to the last [subScalar] of step 3.1:
    [eval_r], and the object [Wxi] as the calls of [add] and [subScalar]
    leave it.  [R] is [polynomials.R], [v0] is [challenges.v[0]]. *)
Definition round5_Wxi_sum (xi v0 : F) (R : Polynomial.object F)
    (polynomials : Polynomials) (proof : Proof.Proof F G1)
  : result (F * Polynomial.object F) :=
  let v1 := Fr.mul v0 v0 in
  let v2 := Fr.mul v1 v0 in
  let v3 := Fr.mul v2 v0 in
  let xiN := round5_xiN xi in
  eval_r <- Polynomial.object_evaluate R xi ;;
  let xinAdd2 := Fr.mul (Fr.mul (Fr.mul xiN xi) xi) xi in
  splitT1 <- Polynomial.object_mulScalar (pol_splitT1 polynomials) xinAdd2 ;;
  let Wxi := Polynomial.new_Fr_logger (BigBuffer (domainSize zkey)) in
  Wxi <- Polynomial.object_add Wxi (pol_splitT0 polynomials) None ;;
  Wxi <- Polynomial.object_add Wxi splitT1 None ;;
  Wxi <- Polynomial.object_add Wxi R (Some v0) ;;
  Wxi <- Polynomial.object_add Wxi (pol_A polynomials) (Some v1) ;;
  Wxi <- Polynomial.object_add Wxi (pol_B polynomials) (Some v2) ;;
  Wxi <- Polynomial.object_add Wxi (pol_S1 polynomials) (Some v3) ;;
  evaluation_t <- Polynomial.object_evaluate (pol_T polynomials) xi ;;
  Wxi <- Polynomial.object_subScalar Wxi evaluation_t ;;
  Wxi <- Polynomial.object_subScalar Wxi (Fr.mul eval_r v0) ;;
  a_ <- Proof.getEvaluation proof "a" ;;
  Wxi <- Polynomial.object_subScalar Wxi (Fr.mul a_ v1) ;;
  b_ <- Proof.getEvaluation proof "b" ;;
  Wxi <- Polynomial.object_subScalar Wxi (Fr.mul b_ v2) ;;
  s1_ <- Proof.getEvaluation proof "s1" ;;
  last <- mul_undefined s1_ ;;
  Wxi <- Polynomial.object_subScalar Wxi last ;;
  Ok (eval_r, Wxi).

(** Round 5, step 3.1: [eval_r] and [Wxi]. *)
Definition round5_Wxi (xi v0 : F) (R : Polynomial.object F)
    (polynomials : Polynomials) (proof : Proof.Proof F G1)
  : result (F * Polynomial.object F) :=
  sum <- round5_Wxi_sum xi v0 R polynomials proof ;;
  let (eval_r, Wxi) := sum in
  Wxi <- Polynomial.object_divByXValue Wxi xi ;;
  Ok (eval_r, Wxi).

(** Round 5, step 3.2: [Wxiw], from a copy of [polynomials.Z.coef].
    [vp0] is [challenges.vp[0]]. *)
Definition round5_Wxiw (xi vp0 : F) (polynomials : Polynomials)
    (proof : Proof.Proof F G1) : result (Polynomial.object F) :=
  let vp1 := Fr.mul vp0 vp0 in
  coef <- defined (Polynomial.coef_property (pol_Z polynomials)) ;;
  let Wxiw := Polynomial.new_Fr_logger coef in
  Wxiw <- Polynomial.object_add Wxiw (pol_A polynomials) (Some vp0) ;;
  Wxiw <- Polynomial.object_add Wxiw (pol_B polynomials) (Some vp1) ;;
  zw_ <- Proof.getEvaluation proof "zw" ;;
  Wxiw <- Polynomial.object_subScalar Wxiw zw_ ;;
  aw_ <- Proof.getEvaluation proof "aw" ;;
  Wxiw <- Polynomial.object_subScalar Wxiw (Fr.mul aw_ vp0) ;;
  bw_ <- Proof.getEvaluation proof "bw" ;;
  Wxiw <- Polynomial.object_subScalar Wxiw (Fr.mul bw_ vp1) ;;
  Polynomial.object_divByXValue Wxiw (Fr.mul xi (w (cirPower zkey))).

(** [round5()] from step 2 on, at the challenges of the transcript: the
    polynomials Q1, Q2 and S2 of the key, the linearisation polynomial,
    the opening polynomials, the evaluation r and the commitments. *)
Definition round5 (alpha beta gamma xi v0 vp0 : F)
    (polynomials : Polynomials) (proof : Proof.Proof F G1)
  : result (Proof.Proof F G1) :=
  let n := domainSize zkey in
  (* Get polynomials q1. q2 and sigma2 from zkey file *)
  let Q1 := Polynomial.new_Fr_logger (BigBuffer n) in
  _ <- readToBuffer (Polynomial.coef_property Q1) BP_Q_ZKEY_SECTION 0 ;;
  let Q2 := Polynomial.new_Fr_logger (BigBuffer n) in
  section <- BP_Q2_ZKEY_SECTION ;;
  _ <- readToBuffer (Polynomial.coef_property Q2) section 0 ;;
  let S2 := Polynomial.new_Fr_logger (BigBuffer n) in
  _ <- readToBuffer (Polynomial.coef_property S2) BP_SIGMA_ZKEY_SECTION
         (5 * n) ;;
  coefficientsR <-
    round5_R alpha beta gamma xi (pol_Z polynomials) Q1 Q2 S2 proof ;;
  let R := Polynomial.new_Fr_logger coefficientsR in
  opening <- round5_Wxi xi v0 R polynomials proof ;;
  let (eval_r, Wxi) := opening in
  Wxiw <- round5_Wxiw xi vp0 polynomials proof ;;
  let proof := Proof.addEvaluation "r" eval_r proof in
  commitment <- multiExponentiation Wxi ;;
  let proof := Proof.addPolynomial "Wxi" commitment proof in
  commitment <- multiExponentiation Wxiw ;;
  Ok (Proof.addPolynomial "Wxiw" commitment proof).

(** [Scalar.fromRprLE(pub)] of a slice of the witness buffer: the integer
    of the element, and a SyntaxError on the empty slice that [slice]
    returns past the end of the buffer. *)
Definition Scalar_fromRprLE (pub : list F) : result Z :=
  match pub with
  | x :: _ => Ok (Fr.toObject x)
  | [] => Err EmptyScalar
  end.

(** The loop that collects [publicSignals]. *)
Definition publicSignals : result (list Z) :=
  for_range 1 (nPublic zkey + 1)
    (fun i signals =>
       let pub := buf_slice buffWitness i (i + 1) in
       signal <- Scalar_fromRprLE pub ;;
       Ok (signals ++ [signal]))
    [].

(** [babyPlonkProve] from round 4 on: rounds 4 and 5 and the object that
    is returned, from the proof and the polynomials that rounds 1 to 3
    leave.  [proof.toObjectProof()] is modelled from the spec (see
    [Proof.Proof]): it exports every commitment and every evaluation. *)
Definition babyPlonkProve_from_round4 (alpha beta gamma xi v0 vp0 : F)
    (polynomials : Polynomials) (proof : Proof.Proof F G1)
  : result (ProverOutput G1) :=
  proof <- round4 xi polynomials proof ;;
  proof <- round5 alpha beta gamma xi v0 vp0 polynomials proof ;;
  signals <- publicSignals ;;
  Ok {| out_polynomials := Proof.polynomials proof;
        out_evaluations :=
          map (fun kv => (fst kv, decimal (Fr.toObject (snd kv))))
              (Proof.evaluations proof);
        out_protocol := "baby_plonk";
        out_curve := curve_name zkey;
        out_publicSignals := map decimal signals |}.

End Prover.

(** ** The scalar field of BN254 *)

Definition bn128_r : Z :=
  21888242871839275222246405745257275088548364400416034343698204186575808495617.

(** The field object of the curve, on the values that the bytes of a buffer
    stand for: the change between the standard and the Montgomery form is
    the identity on values. *)
#[export] Instance Fr_bn128 : Fr.Ops (Zmod bn128_r) := {|
  Fr.zero := Zmod.zero;
  Fr.one := Zmod.one;
  Fr.add := Zmod.add;
  Fr.sub := Zmod.sub;
  Fr.neg := Zmod.opp;
  Fr.mul := Zmod.mul;
  Fr.inv := Zmod.inv;
  Fr.eq := Zmod.eqb;
  Fr.toMontgomery := fun x => x;
  Fr.toObject := Zmod.to_Z
|}.

(** The element of the field that an integer stands for. *)
Definition fr (z : Z) : Zmod bn128_r := Zmod.of_Z bn128_r z.

(** [Fr.w[k]] for BN254: 5 is not a square, and [r - 1 = 2^28 * t]. *)
Definition bn128_w (k : Z) : Zmod bn128_r :=
  Zmod.pow (fr 5) ((bn128_r - 1) / 2 ^ k).

(** The polynomial over BN254 with the coefficients [l], lowest first. *)
Definition poly (l : list Z) : Polynomial.Polynomial (Zmod bn128_r) :=
  Polynomial.mk (map fr l) None.

(** *** Inputs on which the statements are run *)

(** A proving key of domain size 2 over BN254. *)
Definition example_zkey : ZKey (Zmod bn128_r) := {|
  nVars := 3;
  nPublic := 1;
  nAdditions := 0;
  nConstraints := 2;
  domainSize := 2;
  power := 1;
  cirPower := 1;
  k1 := fr 2;
  curve_name := "bn128"
|}.

(** A witness for it: the unused entry 0, then the wires 1 and 2. *)
Definition example_witness : list (Zmod bn128_r) := map fr [0; 5; 7].

(** The sections of the key that [buildABEvaluationsBuffer] reads: both
    maps send the row 0 to the wire 1 and the row 1 to the wire 2, and the
    constants of the rows are 3 and 4. *)
Definition example_map : list Z := [1; 2].
Definition example_k : list (Zmod bn128_r) := map fr [3; 4].

(** The evaluations of the identity permutation on the domain of size 2,
    at the places where round 2 reads them: [sigma1[i] = w^i] and
    [sigma2[i] = k1 * w^i]. *)
Definition example_sigma : list (Zmod bn128_r) :=
  [fr 1; fr 0; fr 0; fr 0; bn128_w 1; fr 0; fr 0; fr 0;
   fr 2; fr 0; fr 0; fr 0; Zmod.mul (fr 2) (bn128_w 1); fr 0; fr 0; fr 0].

(** The same with the two values of sigma1 exchanged: a permutation that
    the wire values 5 and 7 do not satisfy. *)
Definition example_sigma_swapped : list (Zmod bn128_r) :=
  [bn128_w 1; fr 0; fr 0; fr 0; fr 1; fr 0; fr 0; fr 0;
   fr 2; fr 0; fr 0; fr 0; Zmod.mul (fr 2) (bn128_w 1); fr 0; fr 0; fr 0].

(** A commitment that stands for the multi-exponentiation: the integers of
    the coefficients it is given. *)
Definition formal_commitment (bm : list (Zmod bn128_r)) : list Z :=
  map Zmod.to_Z bm.

(** The object over BN254 that has its field object and the coefficients
    [l]. *)
Definition object_poly (l : list Z) : Polynomial.object (Zmod bn128_r) :=
  Polynomial.with_Fr (poly l).

(** Polynomials of a run on the domain of size 2 in which every blinding
    factor is zero, each taken with its field object: A and B on [n + 2]
    coefficients, Z on [n + 3], the quotient T on [4n], and its low and
    high parts. *)
Definition example_polynomials : @Polynomials (Zmod bn128_r) := {|
  pol_A := object_poly [1; 2; 0; 0];
  pol_B := object_poly [3; 4; 0; 0];
  pol_S1 := object_poly [5; 6];
  pol_Z := object_poly [7; 8; 0; 0; 0];
  pol_T := object_poly [1; 1; 0; 0; 1; 0; 0; 0];
  pol_splitT0 := object_poly [1; 1; 0; 0];
  pol_splitT1 := object_poly [0; 1]
|}.

(** The same polynomials as the constructor calls of the prover build
    them, [new Polynomial(coefficients, Fr, logger)]. *)
Definition example_polynomials_built : @Polynomials (Zmod bn128_r) := {|
  pol_A := Polynomial.new_Fr_logger (map fr [1; 2; 0; 0]);
  pol_B := Polynomial.new_Fr_logger (map fr [3; 4; 0; 0]);
  pol_S1 := Polynomial.new_Fr_logger (map fr [5; 6]);
  pol_Z := Polynomial.new_Fr_logger (map fr [7; 8; 0; 0; 0]);
  pol_T := Polynomial.new_Fr_logger (map fr [1; 1; 0; 0; 1; 0; 0; 0]);
  pol_splitT0 := Polynomial.new_Fr_logger (map fr [1; 1; 0; 0]);
  pol_splitT1 := Polynomial.new_Fr_logger (map fr [0; 1])
|}.

(** The sections of a key for [example_zkey]: both maps send the row 0 to
    the wire 1 and the row 1 to the wire 2, and the constants of the rows
    are 3 and 4. *)
Definition example_section_ids (id : zkey_section) : result (list Z) :=
  Ok example_map.
Definition example_section_Fr (id : zkey_section)
  : result (list (Zmod bn128_r)) :=
  Ok example_k.

(** A file that reads nothing into a buffer that is not there. *)
Definition example_readToBuffer (buffer : option (list (Zmod bn128_r)))
    (id : zkey_section) (position : Z) : result unit :=
  Ok tt.

(** A behaviour of [Fr.mul] on a missing operand: the operand it was
    given comes back. *)
Definition mul_keeps_operand (x : Zmod bn128_r) : result (Zmod bn128_r) :=
  Ok x.

(** ** The vocabulary of the statements *)

Section Vocabulary.
Context {F : Type} `{Fr.Ops F}.

(** The coefficient of [X^i] of a coefficient list: zero outside it. *)
Definition coef (c : list F) (i : Z) : F :=
  if i <? 0 then Fr.zero else nth (Z.to_nat i) c Fr.zero.

Fixpoint pow (x : F) (n : nat) : F :=
  match n with
  | O => Fr.one
  | S n' => Fr.mul x (pow x n')
  end.

(** The value of a coefficient list at a point, as [evaluate] computes it. *)
Definition value (c : list F) (x : F) : F :=
  Polynomial.evaluate (Polynomial.mk c None) x.

(** The optional scalar of [add] and [sub]. *)
Definition scaled (blindingValue : option F) (b : F) : F :=
  match blindingValue with
  | Some v => Fr.mul b v
  | None => b
  end.

Fixpoint zip_with (f : F -> F -> F) (p q : list F) : list F :=
  match p, q with
  | a :: p', b :: q' => f a b :: zip_with f p' q'
  | _, _ => []
  end.

(** The sum of two polynomials, of the length of the longer one. *)
Fixpoint padd (p q : list F) : list F :=
  match p, q with
  | [], _ => q
  | _, [] => p
  | a :: p', b :: q' => Fr.add a b :: padd p' q'
  end.

(** [X^n * p] *)
Definition shift (n : nat) (p : list F) : list F := repeat Fr.zero n ++ p.

(** [(X - zeta) * g], on [length g + 1] coefficients. *)
Definition mul_x_minus (zeta : F) (g : list F) : list F :=
  zip_with Fr.sub (Fr.zero :: g) (map (Fr.mul zeta) g ++ [Fr.zero]).

(** [(X^n - 1) * h], on [n + length h] coefficients. *)
Definition mul_zh (n : nat) (h : list F) : list F :=
  zip_with Fr.sub (shift n h) (h ++ repeat Fr.zero n).

(** The factors of the permutation argument of round 2 at the row [i]:
    [num_i = (A[i] + beta w^i + gamma)(B[i] + beta k1 w^i + gamma)] and
    [den_i = (A[i] + beta sigma1[i] + gamma)(B[i] + beta sigma2[i] + gamma)],
    with the values of sigma1 and sigma2 as round 2 reads them. *)
Definition num_at (kk1 omega : F) (evalA evalB : list F)
    (beta gamma : F) (i : nat) : F :=
  let w_i := pow omega i in
  Fr.mul
    (Fr.add (Fr.add (coef evalA (Z.of_nat i)) (Fr.mul beta w_i)) gamma)
    (Fr.add (Fr.add (coef evalB (Z.of_nat i))
               (Fr.mul (Fr.mul beta kk1) w_i)) gamma).

Definition den_at (n : Z) (evalA evalB sigma : list F)
    (beta gamma : F) (i : nat) : F :=
  Fr.mul
    (Fr.add (Fr.add (coef evalA (Z.of_nat i))
               (Fr.mul beta (coef sigma (Z.of_nat i * 4)))) gamma)
    (Fr.add (Fr.add (coef evalB (Z.of_nat i))
               (Fr.mul beta (coef sigma ((n + Z.of_nat i) * 4)))) gamma).

(** Each of [f 0], ..., [f (k - 1)] has its inverse: in a field, it is
    not zero. *)
Definition units_below (k : nat) (f : nat -> F) : Prop :=
  forall i, (i < k)%nat -> Fr.mul (f i) (Fr.inv (f i)) = Fr.one.

(** [Fr.batchInverse] inverts a buffer of elements that have inverses one
    by one. *)
Definition inverts_units (batchInverse : list F -> list F) : Prop :=
  forall b, (forall x, In x b -> Fr.mul x (Fr.inv x) = Fr.one) ->
            batchInverse b = map Fr.inv b.

(** [f 0 * f 1 * ... * f (k - 1)] *)
Fixpoint prod_upto (f : nat -> F) (k : nat) : F :=
  match k with
  | O => Fr.one
  | S k' => Fr.mul (prod_upto f k') (f k')
  end.

(** The accumulator of the permutation argument: [Z_0 = 1] and
    [Z_(i+1) = Z_i * num_i * den_i^(-1)]. *)
Fixpoint Z_acc (num den : nat -> F) (i : nat) : F :=
  match i with
  | O => Fr.one
  | S i' => Fr.mul (Fr.mul (Z_acc num den i') (num i')) (Fr.inv (den i'))
  end.

End Vocabulary.

(** ** More of [polynomial.js]: the static [to4T] *)

Section Statics.
Context {F : Type} `{Fr.Ops F}.

(** [Fr.ifft] and [Fr.fft] *)
Variables ifft fft : list F -> list F.

(** [static async to4T(buffer, domainSize, blindingFactors, Fr)]: the
    blinded coefficients and the evaluations on the domain of four times
    the size.  A missing [blindingFactors] is the empty list. *)
Definition to4T (buffer : list F) (domainSize : Z) (blindingFactors : list F)
  : result (list F * list F) :=
  let a := ifft buffer in
  a4 <- buf_copy (BigBuffer (domainSize * 4)) a 0 ;;
  a1 <- buf_copy (BigBuffer (domainSize + byteLength blindingFactors)) a 0 ;;
  a1 <- for_range 0 (byteLength blindingFactors)
          (fun i a1 =>
             bi <- arr_get blindingFactors i ;;
             hi <- buf_get a1 (domainSize + i) ;;
             a1 <- buf_set a1 (Fr.add hi bi) (domainSize + i) ;;
             lo <- buf_get a1 i ;;
             buf_set a1 (Fr.sub lo bi) i)
          a1 ;;
  let A4 := fft a4 in
  Ok (a1, A4).

End Statics.

(** ** More of the prover: the sections of the key and the additions *)

(** The integer of a byte. *)
Definition byte_value (x : Byte.byte) : Z := Z.of_N (Byte.to_N x).

(** The index that [Uint8Array.prototype.slice] makes of an argument: a
    negative one counts from the end, and all are clamped to the array. *)
Definition slice_index (len i : Z) : Z :=
  if i <? 0 then Z.max (len + i) 0 else Z.min i len.

(** [b.slice(start, end)] of a [Uint8Array] *)
Definition Uint8Array_slice (b : list Byte.byte) (start end_ : Z)
  : list Byte.byte :=
  let len := Z.of_nat (List.length b) in
  let k := slice_index len start in
  let final := slice_index len end_ in
  firstn (Z.to_nat (final - k)) (skipn (Z.to_nat k) b).

(** [new DataView(buff.buffer, buff.byteOffset, buff.byteLength)
     .getUint32(0, true)]: little-endian, and a [RangeError] on a view of
    fewer than four bytes. *)
Definition getUint32 (buff : list Byte.byte) : result Z :=
  match buff with
  | b0 :: b1 :: b2 :: b3 :: _ =>
      Ok (byte_value b0 + 2 ^ 8 * byte_value b1 + 2 ^ 16 * byte_value b2
          + 2 ^ 24 * byte_value b3)
  | _ => Err OutOfBounds
  end.

(** [readUInt32(b, o)] *)
Definition readUInt32 (b : list Byte.byte) (o : Z) : result Z :=
  let buff := Uint8Array_slice b o (o + 4) in
  getUint32 buff.

(** One record of the additions section: the two 32-bit signal ids and the
    two factors, as [calculateAdditions] cuts them out of the section. *)
Record Addition (F : Type) : Type := {
  signalId1 : Z;
  signalId2 : Z;
  factor1 : F;
  factor2 : F
}.
Arguments signalId1 {F} _.
Arguments signalId2 {F} _.
Arguments factor1 {F} _.
Arguments factor2 {F} _.

Section Additions.
Context {F : Type} `{Fr.Ops F}.

Variable zkey : ZKey F.
Variable buffWitness : list F.

(** [calculateAdditions()]: [buffInternalWitness] starts as
    [new BigBuffer(sFr * zkey.nAdditions)], and [getWitness] reads it as
    it is at each turn of the loop. *)
Definition calculateAdditions (additionsBuff : list (Addition F))
  : result (list F) :=
  for_range 0 (nAdditions zkey)
    (fun i buffInternalWitness =>
       ad <- arr_get additionsBuff i ;;
       (* Get witness value *)
       witness1 <- getWitness zkey buffWitness buffInternalWitness
                     (signalId1 ad) ;;
       witness2 <- getWitness zkey buffWitness buffInternalWitness
                     (signalId2 ad) ;;
       (* Calculate final result *)
       let result := Fr.add (Fr.mul (factor1 ad) witness1)
                            (Fr.mul (factor2 ad) witness2) in
       buf_set buffInternalWitness result i)
    (BigBuffer (nAdditions zkey)).

End Additions.

(** ** [wtns_utils.js]: the header of a witness file *)

(** The calls that [writeBin] makes on the file [fd], in their order. *)
Inductive fd_call : Type :=
| startWriteSection (idSection : Z)
| writeULE32 (v : Z)
| writeBigInt (n : Z) (n8 : Z)
| write (buff : list Byte.byte)
| endWriteSection.

(** How [writeBin] ends. *)
Inductive writeBin_end : Type :=
| Written
| InvalidWitnessLength.   (* "Invalid witness length" *)

Section WriteBin.

(** [Scalar.bitLength] *)
Variable bitLength : Z -> Z.

(** [(Math.floor((Scalar.bitLength(prime) - 1) / 64) + 1) * 8] *)
Definition writeBin_n8 (prime : Z) : Z :=
  ((bitLength prime - 1) / 64 + 1) * 8.

(** [a % b != 0] on integers: the remainder has the sign of [a], and it is
    [NaN] for [b = 0]. *)
Definition rem_not_zero (a b : Z) : bool :=
  if b =? 0 then true else negb (Z.rem a b =? 0).

(** [writeBin(fd, witnessBin, prime)]: the calls made on [fd], and the
    end. *)
Definition writeBin (witnessBin : list Byte.byte) (prime : Z)
  : list fd_call * writeBin_end :=
  let n8 := writeBin_n8 prime in
  let byteLength := Z.of_nat (List.length witnessBin) in
  let calls := [startWriteSection 1; writeULE32 n8; writeBigInt prime n8] in
  if rem_not_zero byteLength n8
  then (calls, InvalidWitnessLength)
  else (calls ++ [writeULE32 (byteLength / n8); endWriteSection;
                  startWriteSection 2; write witnessBin; endWriteSection],
        Written).

End WriteBin.

(** ** The vocabulary of the further statements *)

Section MoreVocabulary.
Context {F : Type} `{Fr.Ops F}.

(** [c_0 x^k + c_1 x^(k+1) + ...], term by term. *)
Fixpoint psum_from (c : list F) (x : F) (k : nat) : F :=
  match c with
  | [] => Fr.zero
  | a :: c' => Fr.add (Fr.mul a (pow x k)) (psum_from c' x (S k))
  end.

(** The sum [c_0 + c_1 x + c_2 x^2 + ...] of a coefficient list. *)
Definition psum (c : list F) (x : F) : F := psum_from c x 0.

(** What [getWitness] finds for the signal [idx] at the turn [i] of the
    loop of [calculateAdditions]: a value of the witness file, or the
    result of an addition of an earlier turn, or zero. *)
Definition witness_seen (zkey : ZKey F) (buffWitness internal : list F)
    (i idx : Z) : F :=
  let diff := nVars zkey - nAdditions zkey in
  if idx <? diff then coef buffWitness idx
  else if idx - diff <? i then coef internal (idx - diff)
  else Fr.zero.

End MoreVocabulary.

(** The byte of an integer, modulo 256. *)
Definition byte_of (z : Z) : Byte.byte :=
  match Byte.of_N (Z.to_N (z mod 256)) with
  | Some b => b
  | None => Byte.x00
  end.

(** The four bytes of a 32-bit integer, lowest first. *)
Definition u32_le (v : Z) : list Byte.byte :=
  [byte_of v; byte_of (v / 2 ^ 8); byte_of (v / 2 ^ 16); byte_of (v / 2 ^ 24)].

(** A section of 32-bit integers, as the bytes of the file. *)
Definition u32_section (ids : list Z) : list Byte.byte := flat_map u32_le ids.

(** *** Inputs on which the further statements are run *)

(** A proving key with three witness values and two additions, the
    signals 3 and 4. *)
Definition example_zkey_additions : ZKey (Zmod bn128_r) := {|
  nVars := 5;
  nPublic := 1;
  nAdditions := 2;
  nConstraints := 2;
  domainSize := 2;
  power := 1;
  cirPower := 1;
  k1 := fr 2;
  curve_name := "bn128"
|}.

(** Its section of additions: the signal 3 is [2 w1 + 3 w2], and the
    signal 4 is [w3 + w4], which names itself. *)
Definition example_additions : list (Addition (Zmod bn128_r)) :=
  [ {| signalId1 := 1; signalId2 := 2; factor1 := fr 2; factor2 := fr 3 |};
    {| signalId1 := 3; signalId2 := 4; factor1 := fr 1; factor2 := fr 1 |} ].

(** The number of binary digits of a positive integer, for
    [Scalar.bitLength]. *)
Definition digits (p : Z) : Z := Z.log2 p + 1.

(** * Properties *)

(** ** Results and loops *)

Lemma bind_Ok {A B : Type} (c : result A) (k : A -> result B) (a : A) :
  c = Ok a -> bind c k = k a.
Proof. intros ->. reflexivity. Qed.

(** An invariant carried up a counting loop whose body never fails on it. *)
Lemma for_up_invariant {St : Type} (I : Z -> St -> Prop)
    (body : Z -> St -> result St) (k : nat) (i0 : Z) (s0 : St) :
  I i0 s0 ->
  (forall i s, i0 <= i < i0 + Z.of_nat k -> I i s ->
               exists s', body i s = Ok s' /\ I (i + 1) s') ->
  exists s', for_up k i0 body s0 = Ok s' /\ I (i0 + Z.of_nat k) s'.
Proof.
  revert i0 s0. induction k as [|k IH]; intros i0 s0 H0 Hstep.
  - exists s0. simpl. rewrite Z.add_0_r. auto.
  - destruct (Hstep i0 s0) as (s1 & E1 & I1); [lia | assumption |].
    destruct (IH (i0 + 1) s1 I1) as (s' & E' & I').
    + intros i s Hi. apply Hstep. lia.
    + exists s'. split.
      * cbn [for_up]. rewrite E1. exact E'.
      * replace (i0 + Z.of_nat (S k)) with (i0 + 1 + Z.of_nat k) by lia.
        assumption.
Qed.

Lemma for_range_invariant {St : Type} (I : Z -> St -> Prop)
    (body : Z -> St -> result St) (lo hi : Z) (s0 : St) :
  lo <= hi ->
  I lo s0 ->
  (forall i s, lo <= i < hi -> I i s ->
               exists s', body i s = Ok s' /\ I (i + 1) s') ->
  exists s', for_range lo hi body s0 = Ok s' /\ I hi s'.
Proof.
  intros Hle H0 Hstep. unfold for_range.
  destruct (for_up_invariant I body (Z.to_nat (hi - lo)) lo s0 H0)
    as (s' & E & I').
  - intros i s Hi. apply Hstep. lia.
  - exists s'. split; [assumption |].
    replace hi with (lo + Z.of_nat (Z.to_nat (hi - lo))) at 1 by lia.
    assumption.
Qed.

(** The same down a counting loop: [I i] holds before the turn [i - 1]. *)
Lemma for_down_from_invariant {St : Type} (I : Z -> St -> Prop)
    (body : Z -> St -> result St) (k : nat) (s0 : St) :
  I (Z.of_nat k) s0 ->
  (forall i s, 0 <= i < Z.of_nat k -> I (i + 1) s ->
               exists s', body i s = Ok s' /\ I i s') ->
  exists s', for_down_from k body s0 = Ok s' /\ I 0 s'.
Proof.
  revert s0. induction k as [|k IH]; intros s0 H0 Hstep.
  - exists s0. simpl. auto.
  - destruct (Hstep (Z.of_nat k) s0) as (s1 & E1 & I1).
    + lia.
    + replace (Z.of_nat k + 1) with (Z.of_nat (S k)) by lia. assumption.
    + destruct (IH s1 I1) as (s' & E' & I').
      * intros i s Hi. apply Hstep. lia.
      * exists s'. split; [| assumption].
        cbn [for_down_from]. rewrite E1. exact E'.
Qed.

Lemma for_down_invariant {St : Type} (I : Z -> St -> Prop)
    (body : Z -> St -> result St) (hi : Z) (s0 : St) :
  -1 <= hi ->
  I (hi + 1) s0 ->
  (forall i s, 0 <= i <= hi -> I (i + 1) s ->
               exists s', body i s = Ok s' /\ I i s') ->
  exists s', for_down hi body s0 = Ok s' /\ I 0 s'.
Proof.
  intros Hhi H0 Hstep. unfold for_down.
  apply for_down_from_invariant.
  - replace (Z.of_nat (Z.to_nat (hi + 1))) with (hi + 1) by lia. assumption.
  - intros i s Hi. apply Hstep. lia.
Qed.

(** ** Buffers *)

(** Case analysis on every comparison of integers in the goal. *)
Ltac split_comparisons :=
  repeat match goal with
         | |- context [Z.eqb ?a ?b] => destruct (Z.eqb_spec a b)
         | |- context [Z.leb ?a ?b] => destruct (Z.leb_spec a b)
         | |- context [Z.ltb ?a ?b] => destruct (Z.ltb_spec a b)
         end;
  cbn [andb orb negb]; try lia.

(** Write equal indices of one buffer the same way. *)
Ltac same_index :=
  repeat match goal with
         | |- context [coef ?c ?a] =>
             match goal with
             | |- context [coef c ?b] =>
                 lazymatch a with context [b] => fail | _ => idtac end;
                 replace b with a by lia
             end
         end.

Section BufferFacts.
Context {F : Type} `{Fr.Ops F}.
Implicit Types (b c : list F) (i j : Z) (v : F).

Lemma byteLength_nonneg b : 0 <= byteLength b.
Proof. unfold byteLength. lia. Qed.

Lemma byteLength_app b c : byteLength (b ++ c) = byteLength b + byteLength c.
Proof. unfold byteLength. rewrite length_app. lia. Qed.

Lemma byteLength_repeat (x : F) (n : nat) :
  byteLength (repeat x n) = Z.of_nat n.
Proof. unfold byteLength. now rewrite repeat_length. Qed.

Lemma byteLength_BigBuffer (n : Z) : 0 <= n -> byteLength (BigBuffer n) = n.
Proof. intros Hn. unfold BigBuffer. rewrite byteLength_repeat. lia. Qed.

Lemma coef_outside b i : i < 0 \/ byteLength b <= i -> coef b i = Fr.zero.
Proof.
  unfold coef, byteLength. intros [Hi|Hi].
  - destruct (Z.ltb_spec i 0); [reflexivity | lia].
  - destruct (Z.ltb_spec i 0); [reflexivity |].
    apply nth_overflow. lia.
Qed.

Lemma coef_nat b (k : nat) : coef b (Z.of_nat k) = nth k b Fr.zero.
Proof.
  unfold coef. destruct (Z.ltb_spec (Z.of_nat k) 0); [lia |].
  now rewrite Nat2Z.id.
Qed.

Lemma coef_app_l b c i : i < byteLength b -> coef (b ++ c) i = coef b i.
Proof.
  unfold coef, byteLength. intros Hi.
  destruct (Z.ltb_spec i 0); [reflexivity |].
  apply app_nth1. lia.
Qed.

Lemma coef_app_r b c i :
  byteLength b <= i -> coef (b ++ c) i = coef c (i - byteLength b).
Proof.
  unfold coef, byteLength. intros Hi.
  destruct (Z.ltb_spec i 0); [lia |].
  destruct (Z.ltb_spec (i - Z.of_nat (List.length b)) 0); [lia |].
  rewrite app_nth2 by lia. f_equal. lia.
Qed.

Lemma coef_repeat_zero (n : nat) i : coef (repeat Fr.zero n) i = Fr.zero.
Proof.
  unfold coef. destruct (Z.ltb_spec i 0); [reflexivity |].
  destruct (Nat.lt_ge_cases (Z.to_nat i) n) as [Hlt|Hge].
  - now apply nth_repeat_lt.
  - apply nth_overflow. rewrite repeat_length. lia.
Qed.

Lemma coef_BigBuffer (n : Z) i : coef (BigBuffer n) i = Fr.zero.
Proof. apply coef_repeat_zero. Qed.

Lemma coef_cons_pos (x : F) b i : 0 < i -> coef (x :: b) i = coef b (i - 1).
Proof.
  unfold coef. intros Hi.
  destruct (Z.ltb_spec i 0); [lia |].
  destruct (Z.ltb_spec (i - 1) 0); [lia |].
  replace (Z.to_nat i) with (S (Z.to_nat (i - 1))) by lia. reflexivity.
Qed.

(** Two buffers of one length with the same coefficients are the same. *)
Lemma coef_ext b c :
  byteLength b = byteLength c ->
  (forall i, 0 <= i < byteLength b -> coef b i = coef c i) ->
  b = c.
Proof.
  unfold byteLength. intros Hlen Hco.
  apply nth_ext with (d := Fr.zero) (d' := Fr.zero); [lia |].
  intros k Hk. rewrite <- !coef_nat. apply Hco. lia.
Qed.

Lemma buf_get_ok b i :
  0 <= i < byteLength b -> buf_get b i = Ok (coef b i).
Proof.
  unfold buf_get, coef, byteLength. intros Hi.
  destruct (Z.ltb_spec i 0); [lia |].
  destruct (nth_error b (Z.to_nat i)) as [x|] eqn:E.
  - now rewrite (nth_error_nth _ _ _ E).
  - apply nth_error_None in E. lia.
Qed.

Lemma arr_get_ok b i :
  0 <= i < byteLength b -> arr_get b i = Ok (coef b i).
Proof. apply buf_get_ok. Qed.

Lemma length_update b (n : nat) v :
  (n < List.length b)%nat ->
  List.length (firstn n b ++ v :: skipn (S n) b) = List.length b.
Proof.
  intros Hn. rewrite length_app, length_cons, length_skipn.
  rewrite firstn_length_le by lia. lia.
Qed.

Lemma nth_update b (n k : nat) v :
  (n < List.length b)%nat ->
  nth k (firstn n b ++ v :: skipn (S n) b) Fr.zero
  = if (k =? n)%nat then v else nth k b Fr.zero.
Proof.
  intros Hn.
  assert (Hf : List.length (firstn n b) = n)
    by (apply firstn_length_le; lia).
  destruct (Nat.eqb_spec k n) as [->|Hne].
  - rewrite app_nth2 by lia. rewrite Hf, Nat.sub_diag. reflexivity.
  - destruct (Nat.lt_ge_cases k n) as [Hlt|Hge].
    + rewrite app_nth1 by lia. rewrite nth_firstn.
      destruct (Nat.ltb_spec k n); [reflexivity | lia].
    + rewrite app_nth2 by lia. rewrite Hf.
      replace (k - n)%nat with (S (k - n - 1)) by lia.
      cbn [nth]. rewrite nth_skipn. f_equal. lia.
Qed.

(** What a write of one element does. *)
Lemma buf_set_ok b v i :
  0 <= i < byteLength b ->
  exists b', buf_set b v i = Ok b' /\ byteLength b' = byteLength b
             /\ forall j, coef b' j = if j =? i then v else coef b j.
Proof.
  intros Hi. unfold buf_set.
  destruct (Z.leb_spec 0 i); [| lia].
  destruct (Z.ltb_spec i (byteLength b)); [| lia]. cbn [andb].
  eexists. split; [reflexivity |].
  assert (Hn : (Z.to_nat i < List.length b)%nat)
    by (unfold byteLength in *; lia).
  split.
  - unfold byteLength. now rewrite length_update.
  - intros j. unfold coef.
    destruct (Z.ltb_spec j 0) as [Hneg|Hpos].
    + destruct (Z.eqb_spec j i); [lia | reflexivity].
    + rewrite nth_update by assumption.
      destruct (Nat.eqb_spec (Z.to_nat j) (Z.to_nat i));
        destruct (Z.eqb_spec j i); try reflexivity; lia.
Qed.

Lemma buf_set_err b v i :
  i < 0 \/ byteLength b <= i -> buf_set b v i = Err OutOfBounds.
Proof.
  intros Hi. unfold buf_set.
  destruct (Z.leb_spec 0 i); destruct (Z.ltb_spec i (byteLength b));
    simpl; try reflexivity; lia.
Qed.

End BufferFacts.

(** ** Division by [X - zeta] *)

Section DivByXValue.
Context {F : Type} `{Fr.Laws F}.
Add Ring Fr_ring_div : Fr.ring.
Import Polynomial.
Implicit Types (p q : Polynomial F) (zeta : F).

(** The buffer that [divByXValue] leaves, by the recurrence of the loop.
    It holds for every polynomial of two coefficients or more. *)
Lemma divByXValue_recurrence p zeta :
  2 <= length p ->
  exists c,
    divByXValue p zeta = Ok (mk c (domainSize p))
    /\ byteLength c = length p
    /\ coef c (length p - 1) = Fr.zero
    /\ coef c (length p - 2) = coef (coeff p) (length p - 1)
    /\ forall i, 0 <= i < length p - 2 ->
         coef c i
         = Fr.add (coef (coeff p) (i + 1)) (Fr.mul zeta (coef c (i + 1))).
Proof.
  intros HL. unfold divByXValue, length in *.
  set (L := byteLength (coeff p)) in *.
  destruct (buf_set_ok (BigBuffer L) Fr.zero (L - 1))
    as (c1 & E1 & L1 & C1).
  { rewrite byteLength_BigBuffer; lia. }
  rewrite byteLength_BigBuffer in L1 by lia.
  rewrite E1. cbn [bind].
  rewrite (buf_get_ok (coeff p) (L - 1)) by lia. cbn [bind].
  destruct (buf_set_ok c1 (coef (coeff p) (L - 1)) (L - 2))
    as (c2 & E2 & L2 & C2); [lia |].
  rewrite E2. cbn [bind].
  pose (I := fun (i : Z) (s : list F) =>
    byteLength s = L
    /\ coef s (L - 1) = Fr.zero
    /\ coef s (L - 2) = coef (coeff p) (L - 1)
    /\ forall j, i <= j < L - 2 ->
         coef s j
         = Fr.add (coef (coeff p) (j + 1)) (Fr.mul zeta (coef s (j + 1)))).
  destruct (for_down_invariant I
    (fun i coefs =>
       c <- buf_get (coeff p) (i + 1) ;;
       q <- buf_get coefs (i + 1) ;;
       buf_set coefs (Fr.add c (Fr.mul zeta q)) i) (L - 3) c2)
    as (c3 & E3 & L3 & T3 & U3 & R3).
  - lia.
  - unfold I. refine (conj _ (conj _ (conj _ _))).
    + lia.
    + rewrite C2, C1.
      destruct (Z.eqb_spec (L - 1) (L - 2)); [lia |].
      now rewrite Z.eqb_refl.
    + rewrite C2. now rewrite Z.eqb_refl.
    + intros j Hj. lia.
  - intros i s Hi (Ls & Ts & Us & Rs).
    rewrite (buf_get_ok (coeff p) (i + 1)) by (fold L; lia). cbn [bind].
    rewrite (buf_get_ok s (i + 1)) by lia. cbn [bind].
    destruct (buf_set_ok s
      (Fr.add (coef (coeff p) (i + 1)) (Fr.mul zeta (coef s (i + 1)))) i)
      as (s' & Es & Ls' & Cs); [lia |].
    exists s'. split; [exact Es |].
    unfold I. refine (conj _ (conj _ (conj _ _))).
    + lia.
    + rewrite Cs. destruct (Z.eqb_spec (L - 1) i); [lia | exact Ts].
    + rewrite Cs. destruct (Z.eqb_spec (L - 2) i); [lia | exact Us].
    + intros j Hj. rewrite !Cs.
      destruct (Z.eqb_spec (j + 1) i); [lia |].
      destruct (Z.eqb_spec j i) as [->|Hne]; [reflexivity |].
      apply Rs. lia.
  - rewrite E3. cbn [bind].
    rewrite (buf_get_ok (coeff p) 0) by (fold L; lia). cbn [bind].
    rewrite (buf_get_ok c3 0) by lia. cbn [bind].
    exists c3. split.
    + now destruct (negb _).
    + refine (conj _ (conj _ (conj _ _))); assumption.
Qed.

Lemma skipn_nth_cons (c : list F) (k : nat) :
  (k < List.length c)%nat -> skipn k c = nth k c Fr.zero :: skipn (S k) c.
Proof.
  revert k. induction c as [|a c IH]; intros k Hk; cbn [List.length] in Hk.
  - lia.
  - destruct k as [|k]; [reflexivity |].
    cbn [skipn nth]. apply IH. lia.
Qed.

(** The coefficient [i] of the quotient is the Horner value of the
    coefficients above [i]. *)
Lemma quotient_is_horner p zeta (c : list F) :
  byteLength c = length p ->
  coef c (length p - 1) = Fr.zero ->
  (forall i, 0 <= i < length p - 1 ->
     coef c i = Fr.add (coef (coeff p) (i + 1)) (Fr.mul zeta (coef c (i + 1)))) ->
  forall k : nat, (k <= Z.to_nat (length p - 1))%nat ->
    coef c (length p - 1 - Z.of_nat k)
    = evaluate (mk (skipn (Z.to_nat (length p - Z.of_nat k)) (coeff p)) None)
               zeta.
Proof.
  intros Hlen Htop Hrec. unfold length in *.
  set (L := byteLength (coeff p)) in *.
  induction k as [|k IH]; intros Hk.
  - replace (L - 1 - Z.of_nat 0) with (L - 1) by lia.
    rewrite Htop. rewrite skipn_all2 by (unfold L, byteLength; lia).
    reflexivity.
  - rewrite Hrec by lia.
    specialize (IH ltac:(lia)).
    replace (L - 1 - Z.of_nat (S k) + 1) with (L - 1 - Z.of_nat k) by lia.
    rewrite IH.
    rewrite (skipn_nth_cons (coeff p) (Z.to_nat (L - Z.of_nat (S k))))
      by (unfold L, byteLength in *; lia).
    replace (S (Z.to_nat (L - Z.of_nat (S k))))
      with (Z.to_nat (L - Z.of_nat k)) by lia.
    unfold evaluate. cbn [coeff fold_right].
    unfold coef.
    destruct (Z.ltb_spec (L - 1 - Z.of_nat k) 0); [lia |].
    replace (Z.to_nat (L - 1 - Z.of_nat k))
      with (Z.to_nat (L - Z.of_nat (S k))) by lia.
    ring.
Qed.

Lemma evaluate_skipn_0 p zeta :
  evaluate (mk (skipn 0 (coeff p)) None) zeta = evaluate p zeta.
Proof. reflexivity. Qed.

(** C10.  [divByXValue(zeta)] is total on the polynomials of length at
    least 2: it raises nothing, divisible or not, and leaves the quotient
    of the synthetic division, given by its recurrence from the top
    coefficient down.  The polynomial it was given is
    [(X - zeta) * quotient + remainder] with the remainder [p(zeta)], of
    which nothing is kept. *)
Theorem divByXValue_total p zeta :
  2 <= length p ->
  exists q,
    divByXValue p zeta = Ok q
    /\ length q = length p
    /\ coef (coeff q) (length p - 1) = Fr.zero
    /\ (forall i, 0 <= i < length p - 1 ->
          coef (coeff q) i
          = Fr.add (coef (coeff p) (i + 1))
                   (Fr.mul zeta (coef (coeff q) (i + 1))))
    /\ (forall i,
          coef (coeff p) i
          = Fr.add (Fr.sub (coef (coeff q) (i - 1))
                           (Fr.mul zeta (coef (coeff q) i)))
                   (if i =? 0 then evaluate p zeta else Fr.zero)).
Proof.
  intros HL.
  destruct (divByXValue_recurrence p zeta HL)
    as (c & E & Lc & Tc & Uc & Rc).
  assert (Hrec : forall i, 0 <= i < length p - 1 ->
            coef c i
            = Fr.add (coef (coeff p) (i + 1)) (Fr.mul zeta (coef c (i + 1)))).
  { intros i Hi. destruct (Z.eq_dec i (length p - 2)) as [->|Hne].
    - replace (length p - 2 + 1) with (length p - 1) by lia.
      rewrite Uc, Tc. ring.
    - apply Rc. lia. }
  exists (mk c (domainSize p)). cbn [coeff].
  refine (conj E (conj Lc (conj Tc (conj Hrec _)))).
  intros i.
  destruct (Z.ltb_spec i 0) as [Hneg|Hpos].
  { rewrite !coef_outside by lia.
    destruct (Z.eqb_spec i 0); [lia | ring]. }
  destruct (Z.ltb_spec i (length p)) as [Hin|Hout].
  2:{ rewrite (coef_outside (coeff p)) by (unfold length in *; lia).
      rewrite (coef_outside c i) by lia.
      destruct (Z.eqb_spec i 0); [lia |].
      destruct (Z.eq_dec i (length p)) as [->|Hne].
      - rewrite Tc. ring.
      - rewrite (coef_outside c (i - 1)) by lia. ring. }
  destruct (Z.eqb_spec i 0) as [->|Hnz].
  - rewrite (coef_outside c (0 - 1)) by lia.
    pose proof (quotient_is_horner p zeta c Lc Tc Hrec
                  (Z.to_nat (length p - 1)) ltac:(lia)) as Hh.
    replace (length p - 1 - Z.of_nat (Z.to_nat (length p - 1))) with 0
      in Hh by lia.
    replace (Z.to_nat (length p - Z.of_nat (Z.to_nat (length p - 1))))
      with 1%nat in Hh by lia.
    rewrite <- (evaluate_skipn_0 p zeta).
    rewrite (skipn_nth_cons (coeff p) 0)
      by (unfold length, byteLength in *; lia).
    unfold evaluate at 1. cbn [coeff fold_right].
    unfold evaluate in Hh. cbn [coeff] in Hh. rewrite <- Hh.
    unfold coef at 1. cbn. ring.
  - rewrite (Hrec (i - 1)) by lia.
    replace (i - 1 + 1) with i by lia. ring.
Qed.

End DivByXValue.

(** ** Coefficients of the products the statements speak of *)

Section Products.
Context {F : Type} `{Fr.Laws F}.
Add Ring Fr_ring_products : Fr.ring.
Implicit Types (p q g h : list F) (i : Z).

Lemma length_zip_with (f : F -> F -> F) p q :
  List.length (zip_with f p q) = Nat.min (List.length p) (List.length q).
Proof.
  revert q. induction p as [|a p IH]; intros [|b q]; cbn; auto.
Qed.

Lemma nth_zip_with (f : F -> F -> F) p q (k : nat) :
  (k < List.length p)%nat -> (k < List.length q)%nat ->
  nth k (zip_with f p q) Fr.zero = f (nth k p Fr.zero) (nth k q Fr.zero).
Proof.
  revert q k. induction p as [|a p IH]; intros [|b q] k Hp Hq;
    cbn [List.length] in *; try lia.
  destruct k as [|k]; cbn [zip_with nth]; [reflexivity |].
  apply IH; lia.
Qed.

Lemma coef_zip_with (f : F -> F -> F) p q i :
  0 <= i < byteLength p -> 0 <= i < byteLength q ->
  coef (zip_with f p q) i = f (coef p i) (coef q i).
Proof.
  unfold coef, byteLength. intros Hp Hq.
  destruct (Z.ltb_spec i 0); [lia |].
  apply nth_zip_with; lia.
Qed.

Lemma coef_map (f : F -> F) p i :
  0 <= i < byteLength p -> coef (map f p) i = f (coef p i).
Proof.
  unfold coef, byteLength. intros Hi.
  destruct (Z.ltb_spec i 0); [lia |].
  rewrite nth_indep with (d' := f Fr.zero) by (rewrite length_map; lia).
  apply map_nth.
Qed.

Lemma coef_shift (n : nat) p i : coef (shift n p) i = coef p (i - Z.of_nat n).
Proof.
  unfold shift.
  destruct (Z.ltb_spec i (Z.of_nat n)) as [Hlt|Hge].
  - rewrite coef_app_l by (rewrite byteLength_repeat; lia).
    rewrite coef_repeat_zero. now rewrite coef_outside by lia.
  - rewrite coef_app_r by (rewrite byteLength_repeat; lia).
    now rewrite byteLength_repeat.
Qed.

Lemma byteLength_mul_x_minus (zeta : F) g :
  byteLength (mul_x_minus zeta g) = byteLength g + 1.
Proof.
  unfold mul_x_minus, byteLength. rewrite length_zip_with.
  cbn [List.length]. rewrite length_app, length_map. cbn [List.length]. lia.
Qed.

(** The coefficient of [X^i] in [(X - zeta) * g]. *)
Lemma coef_mul_x_minus (zeta : F) g i :
  coef (mul_x_minus zeta g) i
  = Fr.sub (coef g (i - 1)) (Fr.mul zeta (coef g i)).
Proof.
  destruct (Z.ltb_spec i 0) as [Hneg|Hpos].
  { rewrite !coef_outside by lia. ring. }
  destruct (Z.ltb_spec (byteLength g) i) as [Hout|Hin].
  { rewrite !coef_outside by (rewrite ?byteLength_mul_x_minus; lia). ring. }
  unfold mul_x_minus. rewrite coef_zip_with.
  - f_equal.
    + destruct (Z.eq_dec i 0) as [->|Hnz].
      * now rewrite (coef_outside g (0 - 1)) by lia.
      * now rewrite coef_cons_pos by lia.
    + destruct (Z.eq_dec i (byteLength g)) as [->|Hne].
      * rewrite coef_app_r by (unfold byteLength; rewrite length_map; lia).
        unfold byteLength at 2. rewrite length_map. fold (byteLength g).
        rewrite Z.sub_diag, (coef_outside g) by lia. cbn. ring.
      * rewrite coef_app_l by (unfold byteLength; rewrite length_map;
                               unfold byteLength in *; lia).
        apply coef_map. lia.
  - unfold byteLength in *. cbn [List.length]. lia.
  - unfold byteLength in *. rewrite length_app, length_map.
    cbn [List.length]. lia.
Qed.

Lemma byteLength_mul_zh (n : nat) h :
  byteLength (mul_zh n h) = Z.of_nat n + byteLength h.
Proof.
  unfold mul_zh, shift, byteLength. rewrite length_zip_with.
  rewrite !length_app, repeat_length. lia.
Qed.

(** The coefficient of [X^i] in [(X^n - 1) * h]. *)
Lemma coef_mul_zh (n : nat) h i :
  coef (mul_zh n h) i = Fr.sub (coef h (i - Z.of_nat n)) (coef h i).
Proof.
  destruct (Z.ltb_spec i 0) as [Hneg|Hpos].
  { rewrite !coef_outside by lia. ring. }
  destruct (Z.ltb_spec i (Z.of_nat n + byteLength h)) as [Hin|Hout].
  2:{ rewrite !coef_outside by (rewrite ?byteLength_mul_zh; lia). ring. }
  unfold mul_zh. rewrite coef_zip_with.
  - rewrite coef_shift. f_equal.
    destruct (Z.ltb_spec i (byteLength h)).
    + now rewrite coef_app_l by lia.
    + rewrite coef_app_r by lia. rewrite coef_repeat_zero.
      now rewrite coef_outside by lia.
  - unfold shift. rewrite byteLength_app, byteLength_repeat. lia.
  - rewrite byteLength_app, byteLength_repeat. lia.
Qed.

End Products.

Section DivByXValueExact.
Context {F : Type} `{Fr.Laws F}.
Add Ring Fr_ring_exact : Fr.ring.
Import Polynomial.

(** C6.  For every [g] of length at least 1 and every [zeta],
    [divByXValue(zeta)] on the product [(X - zeta) * g] leaves exactly the
    coefficients of [g], in a buffer of the length of the product, with
    zero in the top position. *)
Theorem divByXValue_exact (g : list F) (zeta : F) (d : option Z) :
  1 <= byteLength g ->
  let p := mk (mul_x_minus zeta g) d in
  exists q,
    divByXValue p zeta = Ok q
    /\ coeff q = g ++ [Fr.zero]
    /\ length q = length p
    /\ coef (coeff q) (length p - 1) = Fr.zero
    /\ forall i, coef (coeff q) i = coef g i.
Proof.
  intros Hg p.
  assert (HL : length p = byteLength g + 1)
    by (unfold length, p; cbn [coeff]; apply byteLength_mul_x_minus).
  destruct (divByXValue_total p zeta) as (q & E & Lq & Tq & Rq & _); [lia |].
  assert (Hq : forall k : nat, (k <= Z.to_nat (byteLength g))%nat ->
            coef (coeff q) (byteLength g - Z.of_nat k)
            = coef (g ++ [Fr.zero]) (byteLength g - Z.of_nat k)).
  { induction k as [|k IH]; intros Hk.
    - rewrite Z.sub_0_r. rewrite coef_app_r by lia.
      rewrite Z.sub_diag. cbn [coef nth Z.ltb Z.to_nat Z.compare].
      rewrite <- Tq. f_equal. lia.
    - rewrite Rq by lia.
      replace (byteLength g - Z.of_nat (S k) + 1)
        with (byteLength g - Z.of_nat k) by lia.
      rewrite IH by lia.
      unfold p at 1. cbn [coeff]. rewrite coef_mul_x_minus.
      replace (byteLength g - Z.of_nat k - 1)
        with (byteLength g - Z.of_nat (S k)) by lia.
      rewrite (coef_app_l g [Fr.zero] (byteLength g - Z.of_nat (S k))) by lia.
      destruct (Z.eq_dec (Z.of_nat k) 0) as [Hk0|Hk0].
      + rewrite Hk0, Z.sub_0_r. rewrite coef_app_r by lia.
        rewrite Z.sub_diag, (coef_outside g (byteLength g)) by lia.
        cbn. ring.
      + rewrite coef_app_l by lia. ring. }
  assert (Lq' : byteLength (coeff q) = byteLength g + 1)
    by (unfold length in *; lia).
  assert (Hc : coeff q = g ++ [Fr.zero]).
  { apply coef_ext.
    - rewrite byteLength_app, Lq'. reflexivity.
    - intros i Hi. rewrite Lq' in Hi.
      specialize (Hq (Z.to_nat (byteLength g - i)) ltac:(lia)).
      replace (byteLength g - Z.of_nat (Z.to_nat (byteLength g - i)))
        with i in Hq by lia.
      exact Hq. }
  exists q. refine (conj E (conj Hc (conj Lq (conj Tq _)))).
  intros i. rewrite Hc.
  destruct (Z.ltb_spec i (byteLength g)).
  - now rewrite coef_app_l by lia.
  - rewrite (coef_outside g) by lia.
    destruct (Z.eq_dec i (byteLength g)) as [->|Hne].
    + rewrite coef_app_r by lia. now rewrite Z.sub_diag.
    + apply coef_outside. rewrite byteLength_app. cbn. lia.
Qed.

End DivByXValueExact.

(** ** Division by [Z_H = X^n - 1] *)

Section DivZh.
Context {F : Type} `{Fr.Laws F}.
Add Ring Fr_ring_divzh : Fr.ring.
Import Polynomial.

(** The buffer that [divZh] builds, by the recurrences of its two loops. *)
Lemma divZh_recurrence (p : Polynomial F) (n : Z) :
  domainSize p = Some n ->
  0 <= n ->
  n * 4 <= length p ->
  exists c,
    divZh p = Ok (mk c None)
    /\ byteLength c = n * 4
    /\ (forall i, 0 <= i < n -> coef c i = Fr.neg (coef (coeff p) i))
    /\ (forall i, n <= i < n * 4 ->
          coef c i = Fr.sub (coef c (i - n)) (coef (coeff p) i)).
Proof.
  intros Hd Hn HL. unfold divZh. rewrite Hd. unfold length in HL.
  pose (I := fun (i : Z) (s : list F) =>
    byteLength s = n * 4
    /\ forall j, 0 <= j < i -> coef s j = Fr.neg (coef (coeff p) j)).
  destruct (for_range_invariant I
    (fun i coefs =>
       c <- buf_get (coeff p) i ;; buf_set coefs (Fr.neg c) i)
    0 n (BigBuffer (n * 4))) as (c1 & E1 & L1 & N1).
  - lia.
  - split; [apply byteLength_BigBuffer; lia | intros; lia].
  - intros i s Hi (Ls & Ns).
    rewrite (buf_get_ok (coeff p) i) by lia. cbn [bind].
    destruct (buf_set_ok s (Fr.neg (coef (coeff p) i)) i)
      as (s' & Es & Ls' & Cs); [lia |].
    exists s'. split; [exact Es |]. split; [lia |].
    intros j Hj. rewrite Cs.
    destruct (Z.eqb_spec j i) as [->|Hne]; [reflexivity |].
    apply Ns. lia.
  - rewrite (bind_Ok _ _ _ E1).
    pose (J := fun (i : Z) (s : list F) =>
      byteLength s = n * 4
      /\ (forall j, 0 <= j < n -> coef s j = Fr.neg (coef (coeff p) j))
      /\ forall j, n <= j < i ->
           coef s j = Fr.sub (coef s (j - n)) (coef (coeff p) j)).
    destruct (for_range_invariant J
      (fun i coefs =>
         q <- buf_get coefs (i - n) ;;
         c <- buf_get (coeff p) i ;;
         let a := Fr.sub q c in
         coefs <- buf_set coefs a i ;;
         (if n * 3 - 4 <? i
          then if negb (Fr.isZero a) then Ok coefs else Ok coefs
          else Ok coefs))
      n (n * 4) c1) as (c2 & E2 & L2 & N2 & R2).
    + lia.
    + refine (conj L1 (conj N1 _)). intros; lia.
    + intros i s Hi (Ls & Ns & Rs).
      rewrite (buf_get_ok s (i - n)) by lia. cbn [bind].
      rewrite (buf_get_ok (coeff p) i) by lia. cbn [bind].
      destruct (buf_set_ok s (Fr.sub (coef s (i - n)) (coef (coeff p) i)) i)
        as (s' & Es & Ls' & Cs); [lia |].
      exists s'. cbn zeta. rewrite Es. cbn [bind]. split.
      { destruct (n * 3 - 4 <? i); [destruct (negb _) |]; reflexivity. }
      refine (conj _ (conj _ _)).
      * lia.
      * intros j Hj. rewrite Cs.
        destruct (Z.eqb_spec j i); [lia |]. apply Ns. lia.
      * intros j Hj. rewrite !Cs.
        destruct (Z.eqb_spec (j - n) i); [lia |].
        destruct (Z.eqb_spec j i) as [->|Hne]; [reflexivity |].
        apply Rs. lia.
    + rewrite (bind_Ok _ _ _ E2). exists c2. auto.
Qed.

(** C7.  For every [h] and domain size [n] such that
    [p = (X^n - 1) * h] has length [4n], [divZh] returns a polynomial of
    length [4n] whose coefficients are [q[i] = -c[i]] below [n] and
    [q[i] = q[i-n] - c[i]] from [n] on, and that quotient is [h]. *)
Theorem divZh_exact (h : list F) (n : Z) :
  0 <= n ->
  byteLength h = 3 * n ->
  let p := mk (mul_zh (Z.to_nat n) h) (Some n) in
  length p = 4 * n
  /\ exists q,
       divZh p = Ok q
       /\ length q = 4 * n
       /\ (forall i, 0 <= i < n ->
             coef (coeff q) i = Fr.neg (coef (coeff p) i))
       /\ (forall i, n <= i < 4 * n ->
             coef (coeff q) i
             = Fr.sub (coef (coeff q) (i - n)) (coef (coeff p) i))
       /\ coeff q = h ++ repeat Fr.zero (Z.to_nat n)
       /\ forall i, coef (coeff q) i = coef h i.
Proof.
  intros Hn Hh p.
  assert (HL : length p = 4 * n).
  { unfold length, p. cbn [coeff]. rewrite byteLength_mul_zh. lia. }
  split; [exact HL |].
  destruct (divZh_recurrence p n eq_refl Hn) as (c & E & Lc & Nc & Rc);
    [lia |].
  assert (Hp : forall i, coef (coeff p) i
                         = Fr.sub (coef h (i - n)) (coef h i)).
  { intros i. unfold p. cbn [coeff]. rewrite coef_mul_zh.
    now replace (Z.of_nat (Z.to_nat n)) with n by lia. }
  assert (Hq : forall k : nat, forall i, 0 <= i < Z.of_nat k -> i < n * 4 ->
                 coef c i = coef h i).
  { induction k as [|k IH]; intros i Hi Hi'; [lia |].
    destruct (Z.ltb_spec i n) as [Hlt|Hge].
    - rewrite Nc by lia. rewrite Hp.
      rewrite (coef_outside h (i - n)) by lia. ring.
    - rewrite Rc by lia. rewrite Hp. rewrite (IH (i - n)) by lia. ring. }
  assert (Hc : forall i, coef c i = coef h i).
  { intros i. destruct (Z.ltb_spec i 0).
    - now rewrite !coef_outside by lia.
    - destruct (Z.ltb_spec i (n * 4)).
      + apply (Hq (Z.to_nat (i + 1))); lia.
      + now rewrite !coef_outside by lia. }
  exists (mk c None). cbn [coeff]. unfold length. cbn [coeff].
  refine (conj E (conj _ (conj Nc (conj _ (conj _ Hc))))).
  - lia.
  - intros i Hi. apply Rc. lia.
  - apply coef_ext.
    + rewrite byteLength_app, byteLength_repeat. lia.
    + intros i Hi. rewrite Hc.
      destruct (Z.ltb_spec i (byteLength h)).
      * now rewrite coef_app_l by lia.
      * rewrite coef_app_r by lia. rewrite coef_repeat_zero.
        apply coef_outside. lia.
Qed.

End DivZh.

(** ** Sums and values of polynomials *)

Section Values.
Context {F : Type} `{Fr.Laws F}.
Add Ring Fr_ring_values : Fr.ring.
Import Polynomial.
Implicit Types (p q c : list F) (x : F).

(** What a write of a buffer into a buffer does. *)
Lemma buf_copy_ok (b src : list F) (off : Z) :
  0 <= off -> off + byteLength src <= byteLength b ->
  exists b', buf_copy b src off = Ok b'
    /\ byteLength b' = byteLength b
    /\ forall j, coef b' j
                 = if (off <=? j) && (j <? off + byteLength src)
                   then coef src (j - off) else coef b j.
Proof.
  intros Hoff Hfit. unfold buf_copy.
  destruct (Z.leb_spec 0 off); [| lia].
  destruct (Z.leb_spec (off + byteLength src) (byteLength b)); [| lia].
  cbn [andb]. eexists. split; [reflexivity |].
  assert (Hf : byteLength (firstn (Z.to_nat off) b) = off).
  { unfold byteLength in *. rewrite firstn_length_le; lia. }
  split.
  - rewrite !byteLength_app, Hf. unfold byteLength in *.
    rewrite length_skipn. lia.
  - intros j.
    destruct (Z.leb_spec off j) as [Hge|Hlt]; cbn [andb].
    + rewrite coef_app_r by lia. rewrite Hf.
      destruct (Z.ltb_spec j (off + byteLength src)) as [Hin|Hout].
      * now rewrite coef_app_l by lia.
      * rewrite coef_app_r by lia. unfold coef, byteLength in *.
        destruct (Z.ltb_spec (j - off - Z.of_nat (List.length src)) 0);
          [lia |].
        destruct (Z.ltb_spec j 0); [lia |].
        rewrite nth_skipn. f_equal. lia.
    + destruct (Z.ltb_spec j 0) as [Hneg|Hpos].
      * now rewrite !coef_outside by lia.
      * rewrite coef_app_l by lia. unfold coef.
        destruct (Z.ltb_spec j 0); [lia |]. rewrite nth_firstn.
        destruct (Nat.ltb_spec (Z.to_nat j) (Z.to_nat off));
          [reflexivity | lia].
Qed.

Lemma length_padd p q :
  List.length (padd p q) = Nat.max (List.length p) (List.length q).
Proof.
  revert q. induction p as [|a p IH]; intros [|b q]; cbn; auto.
Qed.

Lemma coef_padd p q i : coef (padd p q) i = Fr.add (coef p i) (coef q i).
Proof.
  destruct (Z.ltb_spec i 0) as [Hneg|Hpos].
  { rewrite !coef_outside by lia. ring. }
  rewrite <- (Z2Nat.id i) by lia. rewrite !coef_nat.
  generalize (Z.to_nat i). clear i Hpos.
  revert q. induction p as [|a p IH]; intros q k.
  - cbn [padd]. destruct k; cbn [nth]; ring.
  - destruct q as [|b q]; cbn [padd].
    + destruct k; cbn [nth]; ring.
    + destruct k as [|k]; cbn [nth]; [reflexivity | apply IH].
Qed.

Lemma evaluate_value (p : Polynomial F) x : evaluate p x = value (coeff p) x.
Proof. reflexivity. Qed.

Lemma value_cons (a : F) c x :
  value (a :: c) x = Fr.add a (Fr.mul (value c x) x).
Proof. reflexivity. Qed.

Lemma value_repeat_zero (n : nat) x : value (repeat Fr.zero n) x = Fr.zero.
Proof.
  induction n as [|n IH]; [reflexivity |].
  cbn [repeat]. rewrite value_cons, IH. ring.
Qed.

Lemma value_app_zeros c (n : nat) x :
  value (c ++ repeat Fr.zero n) x = value c x.
Proof.
  induction c as [|a c IH]; cbn [app].
  - apply value_repeat_zero.
  - now rewrite !value_cons, IH.
Qed.

Lemma value_shift (n : nat) c x :
  value (shift n c) x = Fr.mul (pow x n) (value c x).
Proof.
  unfold shift. induction n as [|n IH]; cbn [repeat app pow].
  - ring.
  - rewrite value_cons, IH. ring.
Qed.

Lemma value_padd p q x :
  value (padd p q) x = Fr.add (value p x) (value q x).
Proof.
  revert q. induction p as [|a p IH]; intros q.
  - cbn [padd]. change (value [] x) with (@Fr.zero F _). ring.
  - destruct q as [|b q]; cbn [padd].
    + change (value [] x) with (@Fr.zero F _). ring.
    + rewrite !value_cons, IH. ring.
Qed.

Lemma value_zip_sub p q x :
  List.length p = List.length q ->
  value (zip_with Fr.sub p q) x = Fr.sub (value p x) (value q x).
Proof.
  revert q. induction p as [|a p IH]; intros [|b q] Hlen;
    cbn [List.length] in Hlen; try lia; cbn [zip_with].
  - change (value [] x) with (@Fr.zero F _). ring.
  - rewrite !value_cons, IH by lia. ring.
Qed.

(** The value of [(X^n - 1) * h] is [(x^n - 1) * h(x)]. *)
Lemma value_mul_zh (n : nat) (h : list F) x :
  value (mul_zh n h) x
  = Fr.mul (Fr.sub (pow x n) Fr.one) (value h x).
Proof.
  unfold mul_zh. rewrite value_zip_sub.
  - rewrite value_shift, value_app_zeros. ring.
  - unfold shift. rewrite !length_app, repeat_length. lia.
Qed.

(** The value of [(X - zeta) * g] is [(x - zeta) * g(x)]. *)
Lemma value_mul_x_minus (zeta : F) (g : list F) x :
  value (mul_x_minus zeta g) x
  = Fr.mul (Fr.sub x zeta) (value g x).
Proof.
  unfold mul_x_minus. rewrite value_zip_sub.
  - rewrite value_cons.
    replace (map (Fr.mul zeta) g ++ [Fr.zero])
      with (map (Fr.mul zeta) g ++ repeat Fr.zero 1) by reflexivity.
    rewrite value_app_zeros.
    assert (Hm : value (map (Fr.mul zeta) g) x = Fr.mul zeta (value g x)).
    { induction g as [|a g IH]; cbn [map].
      - change (value [] x) with (@Fr.zero F _). ring.
      - rewrite !value_cons, IH. ring. }
    rewrite Hm. ring.
  - cbn [List.length]. rewrite length_app, length_map. cbn [List.length]. lia.
Qed.

End Values.

(** ** Blinding *)

Section Blinding.
Context {F : Type} `{Fr.Laws F}.
Add Ring Fr_ring_blinding : Fr.ring.
Import Polynomial.

(** The coefficients that [blindCoefficients] leaves. *)
Lemma blindCoefficients_coef (p : Polynomial F) (factors : list F) :
  exists c,
    blindCoefficients p factors = Ok (mk c (domainSize p))
    /\ byteLength c = length p + byteLength factors
    /\ forall j, coef c j
                 = Fr.sub (Fr.add (coef (coeff p) j)
                                  (coef factors (j - length p)))
                          (coef factors j).
Proof.
  unfold blindCoefficients, length.
  set (L := byteLength (coeff p)). set (k := byteLength factors).
  pose proof (byteLength_nonneg (coeff p)) as HL. fold L in HL.
  pose proof (byteLength_nonneg factors) as Hk. fold k in Hk.
  destruct (buf_copy_ok (BigBuffer (L + k)) (coeff p) 0) as (c0 & E0 & L0 & C0).
  { lia. }
  { rewrite byteLength_BigBuffer; fold L; lia. }
  rewrite byteLength_BigBuffer in L0 by lia.
  rewrite (bind_Ok _ _ _ E0).
  pose (I := fun (i : Z) (s : list F) =>
    byteLength s = L + k
    /\ forall j, coef s j
         = Fr.sub (Fr.add (coef (coeff p) j)
                          (if (L <=? j) && (j <? L + i)
                           then coef factors (j - L) else Fr.zero))
                  (if (0 <=? j) && (j <? i)
                   then coef factors j else Fr.zero)).
  destruct (for_range_invariant I
    (fun i blinded =>
       bi <- arr_get factors i ;;
       hi <- buf_get blinded (L + i) ;;
       blinded <- buf_set blinded (Fr.add hi bi) (L + i) ;;
       lo <- buf_get blinded i ;;
       buf_set blinded (Fr.sub lo bi) i)
    0 k c0) as (c1 & E1 & L1 & C1).
  - lia.
  - split; [exact L0 |]. intros j. rewrite C0.
    fold L. rewrite Z.sub_0_r, Z.add_0_l, Z.add_0_r.
    destruct (Z.leb_spec 0 j); destruct (Z.ltb_spec j L);
      destruct (Z.leb_spec L j); destruct (Z.ltb_spec j 0);
      cbn [andb]; try lia;
      rewrite ?coef_BigBuffer, ?(coef_outside (coeff p) j) by (fold L; lia);
      ring.
  - intros i s Hi (Ls & Cs).
    rewrite (arr_get_ok factors i) by (fold k; lia). cbn [bind].
    rewrite (buf_get_ok s (L + i)) by lia. cbn [bind].
    destruct (buf_set_ok s (Fr.add (coef s (L + i)) (coef factors i)) (L + i))
      as (s1 & Es1 & Ls1 & Cs1); [lia |].
    rewrite Es1. cbn [bind].
    rewrite (buf_get_ok s1 i) by lia. cbn [bind].
    destruct (buf_set_ok s1 (Fr.sub (coef s1 i) (coef factors i)) i)
      as (s2 & Es2 & Ls2 & Cs2); [lia |].
    exists s2. split; [exact Es2 |]. split; [lia |].
    intros j. rewrite Cs2, !Cs1, !Cs.
    split_comparisons; same_index; ring.
  - rewrite (bind_Ok _ _ _ E1). exists c1.
    split; [reflexivity |]. split; [exact L1 |].
    intros j. rewrite C1.
    destruct (Z.leb_spec L j); destruct (Z.ltb_spec j (L + k));
      destruct (Z.leb_spec 0 j); destruct (Z.ltb_spec j k);
      cbn [andb]; try lia;
      rewrite ?(coef_outside factors j), ?(coef_outside factors (j - L))
        by (fold k; lia);
      ring.
Qed.

(** C8.  [blindCoefficients] extends the buffer by the number of factors,
    adds [factors[i]] at the position [L + i] and subtracts it at the
    position [i]; the blinded polynomial is
    [p(X) + (sum b_i X^i) * (X^L - 1)], and it has the value of [p] at
    every point [x] with [x^L = 1], as the points of the subgroup are. *)
Theorem blindCoefficients_blinds (p : Polynomial F) (factors : list F) :
  exists q,
    blindCoefficients p factors = Ok q
    /\ length q = length p + byteLength factors
    /\ (forall j, coef (coeff q) j
                  = Fr.sub (Fr.add (coef (coeff p) j)
                                   (coef factors (j - length p)))
                           (coef factors j))
    /\ coeff q = padd (coeff p) (mul_zh (Z.to_nat (length p)) factors)
    /\ forall x, pow x (Z.to_nat (length p)) = Fr.one ->
                 evaluate q x = evaluate p x.
Proof.
  destruct (blindCoefficients_coef p factors) as (c & E & Lc & Cc).
  assert (Hc : c = padd (coeff p) (mul_zh (Z.to_nat (length p)) factors)).
  { apply coef_ext.
    - rewrite Lc.
      pose proof (byteLength_mul_zh (Z.to_nat (length p)) factors) as Hm.
      pose proof (length_padd (coeff p)
                    (mul_zh (Z.to_nat (length p)) factors)) as Hp.
      unfold length, byteLength in *. lia.
    - intros j Hj. rewrite Cc, coef_padd, coef_mul_zh.
      replace (Z.of_nat (Z.to_nat (length p))) with (length p)
        by (unfold length, byteLength; lia).
      ring. }
  exists (mk c (domainSize p)). cbn [coeff].
  refine (conj E (conj Lc (conj Cc (conj Hc _)))).
  intros x Hx. rewrite !evaluate_value. cbn [coeff].
  rewrite Hc, value_padd, value_mul_zh, Hx. ring.
Qed.

End Blinding.

(** ** The degree *)

Section Degree.
Context {F : Type} `{Fr.Laws F}.
Import Polynomial.
Implicit Types (c : list F).

Lemma degree_scan_bounds (k : nat) c : 0 <= degree_scan k c <= Z.of_nat k.
Proof.
  induction k as [|k IH]; cbn [degree_scan]; [lia |].
  destruct (negb _); lia.
Qed.

Lemma degree_scan_above (k : nat) c (j : nat) :
  degree_scan k c < Z.of_nat j -> (j <= k)%nat -> nth j c Fr.zero = Fr.zero.
Proof.
  induction k as [|k IH]; cbn [degree_scan]; intros Hj Hk; [lia |].
  destruct (Fr.eq Fr.zero (nth (S k) c Fr.zero)) eqn:E; cbn [negb] in Hj.
  - destruct (Nat.eq_dec j (S k)) as [->|Hne].
    + symmetry. now apply Fr.eq_true.
    + apply IH; [assumption | lia].
  - lia.
Qed.

Lemma degree_scan_nonzero (k : nat) c :
  0 < degree_scan k c -> coef c (degree_scan k c) <> Fr.zero.
Proof.
  induction k as [|k IH]; cbn [degree_scan]; intros Hpos; [lia |].
  destruct (Fr.eq Fr.zero (nth (S k) c Fr.zero)) eqn:E; cbn [negb] in *.
  - now apply IH.
  - rewrite coef_nat. intros Hz.
    assert (Fr.eq Fr.zero (nth (S k) c Fr.zero) = true)
      by (apply Fr.eq_true; now rewrite Hz).
    congruence.
Qed.

Lemma degree_of_bounds c :
  0 <= degree_of c /\ (1 <= byteLength c -> degree_of c < byteLength c)
  /\ (byteLength c = 0 -> degree_of c = 0).
Proof.
  unfold degree_of.
  pose proof (degree_scan_bounds (Z.to_nat (byteLength c - 1)) c).
  pose proof (byteLength_nonneg c). repeat split; lia.
Qed.

(** The coefficients above the degree are zero. *)
Lemma coef_above_degree c (i : Z) : degree_of c < i -> coef c i = Fr.zero.
Proof.
  intros Hi. pose proof (degree_of_bounds c) as (Hd0 & _ & _).
  destruct (Z.ltb_spec i (byteLength c)) as [Hin|Hout].
  - rewrite <- (Z2Nat.id i) by lia. rewrite coef_nat.
    apply degree_scan_above with (k := Z.to_nat (byteLength c - 1)).
    + unfold degree_of in Hi. lia.
    + lia.
  - apply coef_outside. lia.
Qed.

(** When the degree is not 0, its coefficient is not zero. *)
Lemma coef_at_degree c : 0 < degree_of c -> coef c (degree_of c) <> Fr.zero.
Proof. apply degree_scan_nonzero. Qed.

Lemma coef_buf_slice c (fr to : Z) (j : Z) :
  0 <= fr ->
  coef (buf_slice c fr to) j
  = if (0 <=? j) && (j <? to - fr) then coef c (fr + j) else Fr.zero.
Proof.
  intros Hfr. unfold buf_slice, coef.
  destruct (Z.ltb_spec j 0) as [Hneg|Hpos].
  - destruct (Z.leb_spec 0 j); [lia | reflexivity].
  - destruct (Z.leb_spec 0 j); [| lia]. cbn [andb].
    destruct (Z.ltb_spec (fr + j) 0); [lia |].
    rewrite nth_firstn.
    destruct (Nat.ltb_spec (Z.to_nat j) (Z.to_nat (to - fr)));
      destruct (Z.ltb_spec j (to - fr)); try lia; [| reflexivity].
    rewrite nth_skipn. f_equal. lia.
Qed.

Lemma byteLength_buf_slice c (fr to : Z) :
  0 <= fr -> byteLength (buf_slice c fr to) <= Z.max 0 (to - fr).
Proof.
  intros Hfr. unfold buf_slice, byteLength.
  pose proof (firstn_le_length (Z.to_nat (to - fr))
                (skipn (Z.to_nat fr) c)). lia.
Qed.

Lemma byteLength_buf_slice_inside c (fr to : Z) :
  0 <= fr <= to -> to <= byteLength c ->
  byteLength (buf_slice c fr to) = to - fr.
Proof.
  intros Hfr Hto. unfold buf_slice, byteLength in *.
  rewrite firstn_length_le; [lia |]. rewrite length_skipn. lia.
Qed.

(** [truncate] keeps every coefficient. *)
Lemma coef_truncate (p : Polynomial F) (i : Z) :
  coef (coeff (truncate p)) i = coef (coeff p) i.
Proof.
  unfold truncate, degree.
  pose proof (degree_of_bounds (coeff p)) as (Hd0 & _ & _).
  destruct (Z.ltb_spec (degree_of (coeff p) + 1) (byteLength (coeff p)));
    [| reflexivity].
  cbn [coeff]. rewrite coef_buf_slice by lia.
  rewrite Z.sub_0_r, Z.add_0_l.
  destruct (Z.leb_spec 0 i); destruct (Z.ltb_spec i (degree_of (coeff p) + 1));
    cbn [andb]; try reflexivity; symmetry;
    first [apply coef_above_degree; lia | apply coef_outside; lia].
Qed.

End Degree.

(** ** Splitting *)

Section Split.
Context {F : Type} `{Fr.Laws F}.
Add Ring Fr_ring_split : Fr.ring.
Import Polynomial.

Lemma ceil_div_bounds (a b : Z) :
  0 < b -> (ceil_div a b - 1) * b < a <= ceil_div a b * b.
Proof.
  intros Hb. unfold ceil_div.
  pose proof (Z.div_mod (- a) b ltac:(lia)).
  pose proof (Z.mod_pos_bound (- a) b Hb). nia.
Qed.

(** A write of a buffer at the start of a fresh buffer. *)
Lemma buf_copy_fresh (n : Z) (src : list F) :
  byteLength src <= n ->
  exists b, buf_copy (BigBuffer n) src 0 = Ok b
            /\ byteLength b = n /\ forall j, coef b j = coef src j.
Proof.
  intros Hn. pose proof (byteLength_nonneg src).
  destruct (buf_copy_ok (BigBuffer n) src 0) as (b & E & L & C).
  - lia.
  - rewrite byteLength_BigBuffer; lia.
  - exists b. rewrite byteLength_BigBuffer in L by lia.
    refine (conj E (conj L _)). intros j. rewrite C, coef_BigBuffer.
    rewrite Z.sub_0_r, Z.add_0_l.
    destruct (Z.leb_spec 0 j); destruct (Z.ltb_spec j (byteLength src));
      cbn [andb]; try reflexivity; symmetry; apply coef_outside; lia.
Qed.

(** A counting loop is its turns but the last, and then the last. *)
Lemma for_up_last {St : Type} (body : Z -> St -> result St) (k : nat)
    (i : Z) (s : St) :
  for_up (S k) i body s
  = (s' <- for_up k i body s ;; body (i + Z.of_nat k) s').
Proof.
  revert i s. induction k as [|k IH]; intros i s.
  - cbn [for_up bind]. rewrite Z.add_0_r.
    destruct (body i s); reflexivity.
  - change (for_up (S (S k)) i body s)
      with (s1 <- body i s ;; for_up (S k) (i + 1) body s1).
    change (for_up (S k) i body s)
      with (s1 <- body i s ;; for_up k (i + 1) body s1).
    destruct (body i s) as [s1|e]; cbn [bind]; [| reflexivity].
    rewrite IH. now replace (i + 1 + Z.of_nat k) with (i + Z.of_nat (S k))
      by lia.
Qed.

Lemma for_range_last {St : Type} (body : Z -> St -> result St)
    (lo hi : Z) (s : St) :
  lo < hi ->
  for_range lo hi body s
  = (s' <- for_range lo (hi - 1) body s ;; body (hi - 1) s').
Proof.
  intros Hlt. unfold for_range.
  replace (Z.to_nat (hi - lo)) with (S (Z.to_nat (hi - 1 - lo))) by lia.
  rewrite for_up_last. now replace (lo + Z.of_nat (Z.to_nat (hi - 1 - lo)))
    with (hi - 1) by lia.
Qed.

(** A method called on an object built without its field object throws. *)
Lemma update_without_Fr (c : list F)
    (method : Polynomial F -> result (Polynomial F)) :
  update (new_Fr_logger c) method = Err NoFieldObject.
Proof. reflexivity. Qed.

(** The last turn of the loop of [split] never returns a chunk. *)
Lemma split_chunk_last_throws (p : Polynomial F) (numPols c : Z)
    (bs : list F) (q : object F) :
  split_chunk p numPols c bs (numPols - 1) <> Ok q.
Proof.
  unfold split_chunk. rewrite Z.eqb_refl. cbn [negb].
  destruct (buf_copy _ _ _) as [c1|e]; cbn [bind]; [| discriminate].
  destruct (negb (0 =? numPols - 1)).
  - destruct (buf_get c1 0) as [c0|e]; cbn [bind]; [| discriminate].
    destruct (arr_get bs (numPols - 1 - 1)) as [b|e]; cbn [bind];
      [| discriminate].
    destruct (buf_set c1 _ 0) as [c2|e]; cbn [bind]; discriminate.
  - cbn [bind]. discriminate.
Qed.

(** With the blinding factors there, a turn before the last one returns
    its chunk. *)
Lemma split_chunk_before_last (p : Polynomial F) (numPols c : Z)
    (bs : list F) (i : Z) :
  1 <= c ->
  0 <= i < numPols - 1 ->
  numPols - 1 <= byteLength bs ->
  exists q, split_chunk p numPols c bs i = Ok q.
Proof.
  intros Hc Hi Hbs. unfold split_chunk.
  assert (Hic : 0 <= i * c) by nia.
  destruct (Z.eqb_spec (numPols - 1) i) as [Hlast|Hnot]; [lia |].
  cbn [negb].
  destruct (buf_copy_fresh (c + 1)
              (buf_slice (coeff p) (i * c) ((i + 1) * c)))
    as (c1 & E1 & L1 & C1).
  { pose proof (byteLength_buf_slice (coeff p) (i * c) ((i + 1) * c) Hic).
    lia. }
  rewrite (bind_Ok _ _ _ E1).
  rewrite (arr_get_ok bs i) by lia. cbn [bind].
  destruct (buf_set_ok c1 (coef bs i) c) as (c2 & E2 & L2 & C2); [lia |].
  rewrite E2. cbn [bind].
  destruct (Z.eqb_spec 0 i) as [Hi0|Hi0]; cbn [negb bind].
  - eexists. reflexivity.
  - rewrite (buf_get_ok c2 0) by lia. cbn [bind].
    rewrite (arr_get_ok bs (i - 1)) by lia. cbn [bind].
    destruct (buf_set_ok c2 (Fr.sub (coef c2 0) (coef bs (i - 1))) 0)
      as (c3 & E3 & L3 & C3); [lia |].
    rewrite E3. cbn [bind]. eexists. reflexivity.
Qed.

(** With the blinding factors there, the last turn cuts and blinds its
    chunk, and throws when it truncates it. *)
Lemma split_chunk_last (p : Polynomial F) (numPols c : Z) (bs : list F) :
  1 <= c ->
  1 <= numPols ->
  (numPols - 1) * c <= length p ->
  (2 <= numPols -> (numPols - 1) * c < length p) ->
  numPols - 1 <= byteLength bs ->
  split_chunk p numPols c bs (numPols - 1) = Err NoFieldObject.
Proof.
  intros Hc Hn HL HL2 Hbs. unfold split_chunk, length in *.
  set (L := byteLength (coeff p)) in *.
  set (i := numPols - 1) in *.
  assert (Hic : 0 <= i * c) by nia.
  rewrite Z.eqb_refl. cbn [negb].
  destruct (buf_copy_fresh (L - i * c)
              (buf_slice (coeff p) (i * c) L)) as (c1 & E1 & L1 & C1).
  { rewrite byteLength_buf_slice_inside by (fold L; lia). lia. }
  rewrite (bind_Ok _ _ _ E1). cbn [bind].
  destruct (Z.eqb_spec 0 i) as [Hi0|Hi0]; cbn [negb bind].
  - apply update_without_Fr.
  - rewrite (buf_get_ok c1 0) by lia. cbn [bind].
    rewrite (arr_get_ok bs (i - 1)) by lia. cbn [bind].
    destruct (buf_set_ok c1 (Fr.sub (coef c1 0) (coef bs (i - 1))) 0)
      as (c2 & E2 & L2 & C2); [lia |].
    rewrite E2. cbn [bind]. apply update_without_Fr.
Qed.

(** C9.  [split] returns no chunks to put together: asked for two parts
    or more, it throws on every polynomial and on every list of blinding
    factors.  With [numPols - 1] blinding factors every turn of the loop
    but the last returns its chunk, and the throw is that of [truncate()]
    on the last chunk, which the constructor call has left without its
    field object.  Only [split(1, ...)] returns: the polynomial itself. *)
Theorem split_throws (p : Polynomial F) (numPols degPols : Z)
    (bs : list F) :
  2 <= numPols ->
  0 <= degPols ->
  (forall chunks, split p numPols degPols bs <> Ok chunks)
  /\ (byteLength bs = numPols - 1 ->
      split p numPols degPols bs = Err NoFieldObject)
  /\ split p 1 degPols bs = Ok [with_Fr p].
Proof.
  intros Hn Hd.
  assert (Hsplit :
    split p numPols degPols bs
    = if negb (0 =? byteLength bs) && (byteLength bs <? numPols - 1)
      then Err BlindingLength
      else
        let c := degPols + 1 in
        let R := ceil_div (degree p + 1) c in
        let N := Z.min numPols R in
        res <- (res <- for_range 0 (N - 1)
                         (fun i res =>
                            q <- split_chunk p N c bs i ;; Ok (res ++ [q]))
                         [] ;;
                q <- split_chunk p N c bs (N - 1) ;; Ok (res ++ [q])) ;;
        Ok (res ++ (if R <? numPols
                    then repeat (new_Fr_logger (BigBuffer 1))
                                (Z.to_nat (numPols - R))
                    else []))).
  { unfold split.
    destruct (Z.ltb_spec numPols 1); [lia |].
    destruct (Z.eqb_spec 1 numPols); [lia |].
    destruct (negb (0 =? byteLength bs) && (byteLength bs <? numPols - 1));
      [reflexivity |].
    cbv zeta.
    pose proof (ceil_div_bounds (degree p + 1) (degPols + 1) ltac:(lia)) as HR.
    pose proof (degree_of_bounds (coeff p)) as (Hd0 & _).
    fold (degree p) in Hd0.
    rewrite (for_range_last _ 0 (Z.min numPols
                                   (ceil_div (degree p + 1) (degPols + 1))))
      by nia.
    reflexivity. }
  rewrite Hsplit. clear Hsplit. cbv zeta.
  set (c := degPols + 1).
  set (R := ceil_div (degree p + 1) c).
  set (N := Z.min numPols R).
  pose proof (ceil_div_bounds (degree p + 1) c ltac:(lia)) as HR. fold R in HR.
  pose proof (degree_of_bounds (coeff p)) as (Hd0 & Hd1 & Hd2).
  fold (degree p) in Hd0, Hd1, Hd2.
  pose proof (byteLength_nonneg (coeff p)) as HL0.
  assert (HR1 : 1 <= R) by nia.
  assert (HN1 : 1 <= N) by lia.
  refine (conj _ (conj _ eq_refl)).
  - intros chunks.
    destruct (negb (0 =? byteLength bs) && (byteLength bs <? numPols - 1));
      [discriminate |].
    destruct (for_range 0 (N - 1) _ []) as [res|e]; cbn [bind];
      [| discriminate].
    destruct (split_chunk p N c bs (N - 1)) as [q|e] eqn:Eq; cbn [bind];
      [| discriminate].
    exfalso. exact (split_chunk_last_throws p N c bs q Eq).
  - intros Hbs.
    destruct (Z.ltb_spec (byteLength bs) (numPols - 1)); [lia |].
    rewrite andb_false_r.
    assert (HL : (N - 1) * c <= length p).
    { unfold length. destruct (Z.eq_dec (byteLength (coeff p)) 0) as [Hz|Hz].
      - rewrite Hd2 in HR by assumption. nia.
      - specialize (Hd1 ltac:(lia)). nia. }
    assert (HL2 : 2 <= N -> (N - 1) * c < length p).
    { intros HN2. unfold length.
      destruct (Z.eq_dec (byteLength (coeff p)) 0) as [Hz|Hz].
      - rewrite Hd2 in HR by assumption. nia.
      - specialize (Hd1 ltac:(lia)). nia. }
    destruct (for_range_invariant (fun _ _ => True)
                (fun i res => q <- split_chunk p N c bs i ;; Ok (res ++ [q]))
                0 (N - 1) []) as (res & E & _).
    + lia.
    + exact I.
    + intros i res Hi _.
      destruct (split_chunk_before_last p N c bs i) as (q & Eq);
        [lia | lia | lia |].
      rewrite Eq. cbn [bind]. eexists. split; [reflexivity | exact I].
    + rewrite E. cbn [bind].
      rewrite (split_chunk_last p N c bs) by (try assumption; lia).
      reflexivity.
Qed.

End Split.

(** ** Subtraction *)

Section Sub.
Context {F : Type} `{Fr.Laws F}.
Import Polynomial.

(** While [sub] has written the coefficients below [i] only, the test
    [i < this.degree()] is the test on the degree [this] had at first. *)
Lemma sub_degree_test (c0 s : list F) (i : Z) :
  0 <= i ->
  (forall j, i <= j -> coef s j = coef c0 j) ->
  (if i <? degree_of s then coef s i else Fr.zero)
  = (if i <? degree_of c0 then coef c0 i else Fr.zero).
Proof.
  intros Hi Hagree.
  destruct (Z.ltb_spec i (degree_of c0)) as [Hlt|Hge].
  - assert (Hnz : coef s (degree_of c0) <> Fr.zero).
    { rewrite Hagree by lia. apply coef_at_degree. lia. }
    destruct (Z.ltb_spec i (degree_of s)) as [Hs|Hs].
    + apply Hagree. lia.
    + exfalso. apply Hnz. apply coef_above_degree. lia.
  - destruct (Z.ltb_spec i (degree_of s)) as [Hs|Hs]; [| reflexivity].
    exfalso. apply (coef_at_degree s); [lia |].
    rewrite Hagree by lia. apply coef_above_degree. lia.
Qed.

(** What [sub] computes: at every index, the coefficient of [this] if the
    index is below the degree of [this], and zero otherwise, less the
    same of [polynomial], scaled.  The coefficients at the degree, the
    leading ones, are not read. *)
Lemma sub_coefficients (p q : Polynomial F) (blindingValue : option F) :
  length q <= length p ->
  exists c,
    sub p q blindingValue = Ok (mk c (domainSize p))
    /\ byteLength c = length p
    /\ forall i, 0 <= i < length p ->
         coef c i
         = Fr.sub (if i <? degree p then coef (coeff p) i else Fr.zero)
                  (scaled blindingValue
                     (if i <? degree q then coef (coeff q) i else Fr.zero)).
Proof.
  intros Hlen. unfold sub, length, degree in *.
  destruct (Z.ltb_spec (byteLength (coeff p)) (byteLength (coeff q)));
    [lia |].
  set (L := byteLength (coeff p)) in *.
  pose proof (degree_of_bounds (coeff q)) as (Hq0 & Hq1 & Hq2).
  pose (I := fun (i : Z) (s : list F) =>
    byteLength s = L
    /\ (forall j, i <= j -> coef s j = coef (coeff p) j)
    /\ forall j, 0 <= j < i ->
         coef s j
         = Fr.sub (if j <? degree_of (coeff p) then coef (coeff p) j
                   else Fr.zero)
                  (scaled blindingValue
                     (if j <? degree_of (coeff q) then coef (coeff q) j
                      else Fr.zero))).
  destruct (for_range_invariant I
    (fun i c =>
       a <- (if i <? degree_of c then buf_get c i else Ok Fr.zero) ;;
       b <- (if i <? degree_of (coeff q)
             then buf_get (coeff q) i else Ok Fr.zero) ;;
       let b := match blindingValue with
                | Some v => Fr.mul b v
                | None => b
                end in
       buf_set c (Fr.sub a b) i)
    0 L (coeff p)) as (c & E & Lc & _ & Cc).
  - unfold L. apply byteLength_nonneg.
  - refine (conj eq_refl (conj (fun j _ => eq_refl) _)). intros; lia.
  - intros i s Hi (Ls & As & Cs).
    assert (Ha : (if i <? degree_of s then buf_get s i else Ok Fr.zero)
                 = Ok (if i <? degree_of (coeff p) then coef (coeff p) i
                       else Fr.zero)).
    { rewrite <- (sub_degree_test (coeff p) s i) by (try apply As; lia).
      destruct (i <? degree_of s); [apply buf_get_ok; lia | reflexivity]. }
    assert (Hb : (if i <? degree_of (coeff q)
                  then buf_get (coeff q) i else Ok Fr.zero)
                 = Ok (if i <? degree_of (coeff q) then coef (coeff q) i
                       else Fr.zero)).
    { destruct (Z.ltb_spec i (degree_of (coeff q))); [| reflexivity].
      apply buf_get_ok. pose proof (byteLength_nonneg (coeff q)). lia. }
    rewrite Ha, Hb. cbn [bind].
    match goal with
    | |- context [buf_set s ?v i] =>
        destruct (buf_set_ok s v i) as (s' & Es & Ls' & Cs'); [lia |]
    end.
    exists s'. split; [exact Es |]. refine (conj _ (conj _ _)).
    + lia.
    + intros j Hj. rewrite Cs'.
      destruct (Z.eqb_spec j i); [lia |]. apply As. lia.
    + intros j Hj. rewrite Cs'.
      destruct (Z.eqb_spec j i) as [->|Hne].
      * unfold scaled. reflexivity.
      * apply Cs. lia.
  - rewrite (bind_Ok _ _ _ E). exists c. auto.
Qed.

End Sub.

(** ** The scalar field of BN254 is a field object as assumed *)

Lemma Zmod_unit_coprime (m : Z) (x y : Zmod m) :
  2 <= m -> Zmod.mul x y = Zmod.one -> Z.gcd (Zmod.to_Z x) m = 1.
Proof.
  intros Hm Hxy.
  apply (f_equal Zmod.to_Z) in Hxy.
  rewrite Zmod.unsigned_mul, Zmod.unsigned_1_pos in Hxy by assumption.
  pose proof (Z.gcd_nonneg (Zmod.to_Z x) m) as Hnn.
  assert (Hdiv : (Z.gcd (Zmod.to_Z x) m | 1)).
  { rewrite <- Hxy. rewrite Z.mod_eq by lia.
    apply Z.divide_sub_r.
    - apply Z.divide_mul_l. apply Z.gcd_divide_l.
    - apply Z.divide_mul_l. apply Z.gcd_divide_r. }
  apply Z.divide_1_r_nonneg in Hdiv; assumption.
Qed.

#[export] Instance Fr_bn128_laws : Fr.Laws (Zmod bn128_r).
Proof.
  split.
  - apply Zmod.ring_theory.
  - apply Zmod.eqb_eq.
  - apply Zmod.one_neq_zero. vm_compute. discriminate.
  - intros x y Hxy. apply Zmod.mul_inv_same_r_coprime.
    apply (Zmod_unit_coprime bn128_r x y); [| exact Hxy].
    vm_compute. discriminate.
Qed.

(** ** Round 2: the permutation accumulator *)

Section Units.
Context {F : Type} `{Fr.Laws F}.
Add Ring Fr_ring_units : Fr.ring.

(** The inverse of a product of invertible elements. *)
Lemma inv_mul (x y : F) :
  Fr.mul x (Fr.inv x) = Fr.one -> Fr.mul y (Fr.inv y) = Fr.one ->
  Fr.mul (Fr.mul x y) (Fr.inv (Fr.mul x y)) = Fr.one
  /\ Fr.inv (Fr.mul x y) = Fr.mul (Fr.inv x) (Fr.inv y).
Proof.
  intros Hx Hy.
  assert (Hxy : Fr.mul (Fr.mul x y) (Fr.mul (Fr.inv x) (Fr.inv y)) = Fr.one).
  { transitivity (Fr.mul (Fr.mul x (Fr.inv x)) (Fr.mul y (Fr.inv y)));
      [ring |]. rewrite Hx, Hy. ring. }
  pose proof (Fr.inv_unit _ _ Hxy) as Hi. split; [exact Hi |].
  transitivity (Fr.mul (Fr.inv (Fr.mul x y))
                  (Fr.mul (Fr.mul x y) (Fr.mul (Fr.inv x) (Fr.inv y)))).
  - rewrite Hxy. ring.
  - transitivity (Fr.mul (Fr.mul (Fr.mul x y) (Fr.inv (Fr.mul x y)))
                    (Fr.mul (Fr.inv x) (Fr.inv y))); [ring |].
    rewrite Hi. ring.
Qed.

Lemma prod_upto_unit (f : nat -> F) (k : nat) :
  (forall j, (j < k)%nat -> Fr.mul (f j) (Fr.inv (f j)) = Fr.one) ->
  Fr.mul (prod_upto f k) (Fr.inv (prod_upto f k)) = Fr.one.
Proof.
  induction k as [|k IH]; intros Hf; cbn [prod_upto].
  - apply (Fr.inv_unit Fr.one Fr.one). ring.
  - apply inv_mul; [apply IH; intros; apply Hf; lia | apply Hf; lia].
Qed.

(** The accumulator is the product of the numerators by the inverse of
    the product of the denominators. *)
Lemma Z_acc_prod (num den : nat -> F) (k : nat) :
  (forall j, (j < k)%nat -> Fr.mul (den j) (Fr.inv (den j)) = Fr.one) ->
  Z_acc num den k
  = Fr.mul (prod_upto num k) (Fr.inv (prod_upto den k)).
Proof.
  induction k as [|k IH]; intros Hd; cbn [Z_acc prod_upto].
  - assert (H1 : Fr.mul Fr.one (Fr.inv Fr.one) = Fr.one :> F)
      by (apply (Fr.inv_unit Fr.one Fr.one); ring).
    rewrite H1. reflexivity.
  - rewrite IH by (intros; apply Hd; lia).
    assert (Hu : Fr.mul (prod_upto den k) (Fr.inv (prod_upto den k))
                 = Fr.one)
      by (apply prod_upto_unit; intros; apply Hd; lia).
    destruct (inv_mul (prod_upto den k) (den k) Hu (Hd k ltac:(lia)))
      as [_ ->].
    ring.
Qed.

End Units.

Section Round2.
Context {F : Type} `{Fr.Laws F} {G1 : Type}.
Add Ring Fr_ring_round2 : Fr.ring.

Variable batchInverse : list F -> list F.
Variable w : Z -> F.
Variable zkey : ZKey F.
Variables evalA evalB sigma : list F.
Variables beta gamma : F.

Local Abbreviation n := (domainSize zkey).
Local Abbreviation num :=
  (num_at (k1 zkey) (w (power zkey)) evalA evalB beta gamma).
Local Abbreviation den := (den_at n evalA evalB sigma beta gamma).

Hypothesis domain : 1 <= n.
Hypothesis evalA_size : n <= byteLength evalA.
Hypothesis evalB_size : n <= byteLength evalB.
Hypothesis sigma_size : 8 * n <= byteLength sigma.
(** [Fr.batchInverse] returns a buffer of the size of the one it is
    given. *)
Hypothesis batchInverse_size :
  forall b, byteLength (batchInverse b) = byteLength b.

Local Abbreviation den_units := (units_below (Z.to_nat n) den).
Local Abbreviation batchInverse_units := (inverts_units batchInverse).

(** The value of the slot [j] of an accumulator of [f] when the turns
    below [i] of the first loop of round 2 are done. *)
Local Abbreviation acc f i j :=
  (if j =? 0 then (if i =? n then prod_upto f (Z.to_nat n) else Fr.one)
   else if j <=? i then prod_upto f (Z.to_nat j) else Fr.zero).

(** The buffer of round 2, slot by slot, and the outcome of the check:
    the products of the numerators by what [Fr.batchInverse] makes of the
    products of the denominators. *)
Lemma round2_Z_products :
  exists da Zbuf,
    byteLength da = n
    /\ (forall j, 0 <= j < n ->
          coef da j = prod_upto den (Z.to_nat (if j =? 0 then n else j)))
    /\ byteLength Zbuf = n
    /\ (forall j, 0 <= j < n ->
          coef Zbuf j
          = Fr.mul (prod_upto num (Z.to_nat (if j =? 0 then n else j)))
                   (coef (batchInverse da) j))
    /\ round2_Z batchInverse w zkey evalA evalB sigma beta gamma
       = if negb (Fr.eq (coef Zbuf 0) Fr.one)
         then Err CopyConstraints else Ok Zbuf.
Proof.
  unfold round2_Z.
  destruct (buf_set_ok (BigBuffer n) Fr.one 0) as (b0 & E0 & L0 & C0).
  { rewrite byteLength_BigBuffer; lia. }
  rewrite byteLength_BigBuffer in L0 by lia.
  rewrite E0. cbn [bind].
  pose (I := fun (i : Z) (st : list F * list F * F) =>
    byteLength (fst (fst st)) = n
    /\ byteLength (snd (fst st)) = n
    /\ snd st = pow (w (power zkey)) (Z.to_nat i)
    /\ forall j, 0 <= j < n ->
         coef (fst (fst st)) j = acc num i j
         /\ coef (snd (fst st)) j = acc den i j).
  match goal with
  | |- context [for_range 0 n ?body ?init] =>
      destruct (for_range_invariant I body 0 n init)
        as ([[na da] wn] & E1 & Lna & Lda & _ & C1)
  end.
  - lia.
  - unfold I. cbn [fst snd]. refine (conj L0 (conj L0 (conj eq_refl _))).
    intros j Hj. rewrite C0, coef_BigBuffer.
    split; split_comparisons; reflexivity.
  - intros i [[na da] wi] Hi (Lna & Lda & Hw & C). cbn [fst snd] in *.
    rewrite (buf_get_ok evalA i) by lia. cbn [bind].
    rewrite (buf_get_ok evalB i) by lia. cbn [bind].
    rewrite (buf_get_ok sigma (i * 4)) by lia. cbn [bind].
    rewrite (buf_get_ok sigma ((n + i) * 4)) by lia. cbn [bind].
    rewrite (buf_get_ok na i) by lia. cbn [bind].
    assert (Hmod : 0 <= (i + 1) mod n < n) by (apply Z.mod_pos_bound; lia).
    match goal with
    | |- context [buf_set na ?v ((i + 1) mod n)] =>
        destruct (buf_set_ok na v ((i + 1) mod n))
          as (na' & Ena & Lna' & Cna); [lia |]
    end.
    rewrite Ena. cbn [bind].
    rewrite (buf_get_ok da i) by lia. cbn [bind].
    match goal with
    | |- context [buf_set da ?v ((i + 1) mod n)] =>
        destruct (buf_set_ok da v ((i + 1) mod n))
          as (da' & Eda & Lda' & Cda); [lia |]
    end.
    rewrite Eda. cbn [bind].
    eexists. split; [reflexivity |]. unfold I. cbn [fst snd].
    refine (conj _ (conj _ (conj _ _))); try lia.
    { rewrite Hw. replace (Z.to_nat (i + 1)) with (S (Z.to_nat i)) by lia.
      cbn [pow]. ring. }
    intros j Hj. rewrite Cna, Cda.
    destruct (C i ltac:(lia)) as [Cni Cdi]. rewrite Cni, Cdi.
    destruct (C j Hj) as [Cnj Cdj]. rewrite Cnj, Cdj.
    assert (Hi_prod : forall f : nat -> F,
              (acc f i i) = prod_upto f (Z.to_nat i)).
    { intros f. split_comparisons; try reflexivity.
      replace i with 0 by lia. reflexivity. }
    rewrite !Hi_prod.
    assert (Hsucc : forall (f : nat -> F) x,
              x = f (Z.to_nat i) ->
              Fr.mul (prod_upto f (Z.to_nat i)) x
              = prod_upto f (Z.to_nat (i + 1))).
    { intros f x ->.
      now replace (Z.to_nat (i + 1)) with (S (Z.to_nat i)) by lia. }
    rewrite (Hsucc num);
      [| unfold num_at; rewrite Hw, Z2Nat.id by lia; ring].
    rewrite (Hsucc den);
      [| unfold den_at; rewrite Z2Nat.id by lia; ring].
    destruct (Z.eq_dec (i + 1) n) as [Hlast|Hmore].
    + rewrite Hlast, Z.mod_same by lia.
      split; split_comparisons; reflexivity.
    + rewrite Z.mod_small by lia.
      split; split_comparisons; subst; reflexivity.
  - rewrite (bind_Ok _ _ _ E1). cbn [fst snd] in *.
    assert (Hna : forall j, 0 <= j < n ->
              coef na j
              = prod_upto num (Z.to_nat (if j =? 0 then n else j))).
    { intros j Hj. destruct (C1 j Hj) as [-> _].
      split_comparisons; reflexivity. }
    assert (Hda : forall j, 0 <= j < n ->
              coef da j
              = prod_upto den (Z.to_nat (if j =? 0 then n else j))).
    { intros j Hj. destruct (C1 j Hj) as [_ ->].
      split_comparisons; reflexivity. }
    pose proof (batchInverse_size da) as Linv.
    pose (J := fun (i : Z) (s : list F) =>
      byteLength s = n
      /\ forall j, 0 <= j < n ->
           coef s j = if j <? i
                      then Fr.mul (coef na j) (coef (batchInverse da) j)
                      else coef na j).
    match goal with
    | |- context [for_range 0 n ?body na] =>
        destruct (for_range_invariant J body 0 n na) as (zb & E2 & Lz & Cz)
    end.
    + lia.
    + split; [exact Lna |]. intros j Hj. split_comparisons. reflexivity.
    + intros i s Hi (Ls & Cs).
      rewrite (buf_get_ok s i) by lia. cbn [bind].
      rewrite (buf_get_ok (batchInverse da) i) by lia.
      cbn [bind].
      match goal with
      | |- context [buf_set s ?v i] =>
          destruct (buf_set_ok s v i) as (s' & Es & Ls' & Cs'); [lia |]
      end.
      exists s'. split; [exact Es |]. split; [lia |].
      intros j Hj. rewrite Cs'.
      destruct (Z.eqb_spec j i) as [->|Hne].
      * rewrite Cs by lia. split_comparisons. reflexivity.
      * rewrite Cs by lia. split_comparisons; reflexivity.
    + rewrite (bind_Ok _ _ _ E2).
      rewrite (buf_get_ok zb 0) by lia. cbn [bind].
      exists da, zb. refine (conj Lda (conj Hda (conj Lz (conj _ eq_refl)))).
      intros j Hj. rewrite Cz by lia.
      destruct (Z.ltb_spec j n); [| lia].
      now rewrite Hna by lia.
Qed.

(** With denominators that have inverses the buffer is the accumulator of
    the permutation argument. *)
Lemma round2_Z_slots :
  den_units -> batchInverse_units ->
  exists Zbuf,
    byteLength Zbuf = n
    /\ (forall j, 0 <= j < n ->
          coef Zbuf j = Z_acc num den (Z.to_nat (if j =? 0 then n else j)))
    /\ round2_Z batchInverse w zkey evalA evalB sigma beta gamma
       = if negb (Fr.eq (Z_acc num den (Z.to_nat n)) Fr.one)
         then Err CopyConstraints else Ok Zbuf.
Proof.
  intros den_unit inverts.
  destruct round2_Z_products as (da & Zbuf & Lda & Hda & Lz & Cz & Ez).
  assert (Hunits : forall x, In x da -> Fr.mul x (Fr.inv x) = Fr.one).
  { intros x Hx. destruct (In_nth da x Fr.zero Hx) as (k & Hk & <-).
    rewrite <- coef_nat. unfold byteLength in Lda.
    rewrite Hda by lia. apply prod_upto_unit.
    intros j Hj. apply den_unit. destruct (Z.of_nat k =? 0); lia. }
  rewrite (inverts da Hunits) in Cz.
  assert (Hz : forall j, 0 <= j < n ->
            coef Zbuf j
            = Z_acc num den (Z.to_nat (if j =? 0 then n else j))).
  { intros j Hj. rewrite Cz by lia. rewrite coef_map by lia.
    rewrite Hda by lia. symmetry. apply Z_acc_prod.
    intros k Hk. apply den_unit. destruct (j =? 0); lia. }
  exists Zbuf. refine (conj Lz (conj Hz _)).
  rewrite Ez, (Hz 0) by lia. reflexivity.
Qed.

Variable ifft : list F -> list F.
Variable Evaluations_fromPolynomial : Polynomial.object F -> result (list F).
Variable multiExpAffine : list F -> G1.

(** C2.  Round 2 starts from [Z[0] = 1] and fills the buffer of Z with
    one batch inverse; the only error of that step is the copy-constraint
    error, raised if and only if the value that comes round to [Z[0]] is
    not 1, and with denominators that have inverses the buffer follows
    [Z[(i+1) mod n] = Z[i] * num_i * den_i^(-1)].  But the round never
    completes and never commits to Z: when the check passes, the
    polynomial Z is built by [Polynomial.fromBuffer] without its field
    object, and [blindCoefficients] throws on it (unless
    [Evaluations.fromPolynomial] has thrown before). *)
Theorem round2_never_commits (b5 b6 b7 : F) (proof : Proof.Proof F G1) :
  let Z_end := Z_acc num den (Z.to_nat n) in
  let step2 := round2_Z batchInverse w zkey evalA evalB sigma beta gamma in
  let round :=
    round2 ifft batchInverse Evaluations_fromPolynomial multiExpAffine w
           zkey evalA evalB sigma beta gamma b5 b6 b7 proof in
  (forall out, round <> Ok out)
  /\ (step2 = Err CopyConstraints
      \/ exists Zbuf,
           step2 = Ok Zbuf /\ byteLength Zbuf = n /\ coef Zbuf 0 = Fr.one)
  /\ (forall e, step2 = Err e -> round = Err e)
  /\ (forall Zbuf,
        step2 = Ok Zbuf ->
        round = (evaluations_Z <-
                   Evaluations_fromPolynomial (fromBuffer ifft Zbuf) ;;
                 Err NoFieldObject))
  /\ (den_units -> batchInverse_units ->
      (step2 = Err CopyConstraints <-> Z_end <> Fr.one)
      /\ (Z_end = Fr.one ->
          exists Zbuf,
            step2 = Ok Zbuf
            /\ byteLength Zbuf = n
            /\ coef Zbuf 0 = Fr.one
            /\ (forall i, 0 <= i < n ->
                  coef Zbuf ((i + 1) mod n)
                  = Fr.mul (Fr.mul (coef Zbuf i) (num (Z.to_nat i)))
                           (Fr.inv (den (Z.to_nat i)))))).
Proof.
  intros Z_end step2 round.
  assert (Hround : forall Zbuf,
            step2 = Ok Zbuf ->
            round = (evaluations_Z <-
                       Evaluations_fromPolynomial (fromBuffer ifft Zbuf) ;;
                     Err NoFieldObject)).
  { intros Zbuf E. unfold round, round2. fold step2. rewrite E. cbn [bind].
    destruct (Evaluations_fromPolynomial _); reflexivity. }
  assert (Hfail : forall e, step2 = Err e -> round = Err e).
  { intros e E. unfold round, round2. fold step2. now rewrite E. }
  refine (conj _ (conj _ (conj Hfail (conj Hround _)))).
  - intros out. destruct step2 as [Zbuf|e] eqn:E.
    + rewrite (Hround Zbuf eq_refl).
      destruct (Evaluations_fromPolynomial _); discriminate.
    + rewrite (Hfail e eq_refl). discriminate.
  - destruct round2_Z_products as (da & Zbuf & _ & _ & Lz & _ & Ez).
    fold step2 in Ez. rewrite Ez.
    destruct (Fr.eq (coef Zbuf 0) Fr.one) eqn:Eq; cbn [negb].
    + right. exists Zbuf. apply Fr.eq_true in Eq. auto.
    + now left.
  - intros den_unit inverts.
    destruct (round2_Z_slots den_unit inverts) as (Zbuf & Lz & Cz & Ez).
    fold step2 Z_end in Ez.
    destruct (Fr.eq Z_end Fr.one) eqn:Eq; cbn [negb] in Ez.
    + apply Fr.eq_true in Eq. split.
      * rewrite Ez. split; [discriminate | intros Hne; contradiction].
      * intros _. exists Zbuf.
        assert (Hz0 : coef Zbuf 0 = Fr.one).
        { rewrite Cz by lia. cbn [Z.eqb]. exact Eq. }
        refine (conj Ez (conj Lz (conj Hz0 _))).
        intros i Hi.
        assert (Hi' : coef Zbuf i = Z_acc num den (Z.to_nat i)).
        { rewrite Cz by lia.
          destruct (Z.eqb_spec i 0) as [->|]; [| reflexivity].
          fold Z_end. rewrite Eq. reflexivity. }
        rewrite Hi'.
        destruct (Z.eq_dec (i + 1) n) as [Hlast|Hmore].
        -- rewrite Hlast, Z.mod_same by lia. rewrite Cz by lia. cbn [Z.eqb].
           replace (Z.to_nat n) with (S (Z.to_nat i)) by lia. reflexivity.
        -- rewrite Z.mod_small by lia. rewrite Cz by lia.
           destruct (Z.eqb_spec (i + 1) 0); [lia |].
           replace (Z.to_nat (i + 1)) with (S (Z.to_nat i)) by lia.
           reflexivity.
    + assert (Hne : Z_end <> Fr.one).
      { intros Heq. apply Fr.eq_true in Heq. congruence. }
      split.
      * rewrite Ez. split; auto.
      * intros Heq. contradiction.
Qed.

End Round2.

(** ** The steps of the prover *)

Section ProverSteps.
Context {F : Type} `{Fr.Ops F} {G1 : Type}.

Variable multiExpAffine : list F -> G1.
Variable w : Z -> F.
Variable Fr_e : Z -> F.
Variable mul_undefined : F -> result F.
Variable readSection_ids : zkey_section -> result (list Z).
Variable readSection_Fr : zkey_section -> result (list F).
Variable readToBuffer : option (list F) -> zkey_section -> Z -> result unit.
Variable sFr : Z.
Variable zkey : ZKey F.
Variable buffWitness : list F.
Variable buffInternalWitness : list F.

(** [mulScalar] throws on no polynomial. *)
Lemma mulScalar_runs (p : Polynomial.Polynomial F) (v : F) :
  exists r, Polynomial.mulScalar p v = Ok r.
Proof.
  unfold Polynomial.mulScalar, Polynomial.length.
  match goal with
  | |- context [for_range 0 ?L ?body ?init] =>
      destruct (for_range_invariant
                  (fun (_ : Z) (s : list F) => byteLength s = L)
                  body 0 L init) as (c & E & _)
  end.
  - apply byteLength_nonneg.
  - reflexivity.
  - intros i c Hi Lc. rewrite buf_get_ok by lia. cbn [bind].
    match goal with
    | |- context [buf_set c ?w i] =>
        destruct (buf_set_ok c w i) as (c' & -> & Lc' & _); [lia |]
    end.
    exists c'. split; [reflexivity | lia].
  - rewrite E. cbn [bind]. eauto.
Qed.

(** C1.  The prover builds no buffer B: [buildABEvaluationsBuffer]
    throws on every key and every witness, before the first row.  Once
    the section of the map of A is read, the throw is the ReferenceError
    of the name [BP_B_MAP_ZKEY_SECTION], which the module does not
    import; no value is stored in B, neither [b + k] nor another. *)
Theorem buildABEvaluationsBuffer_throws :
  let build :=
    buildABEvaluationsBuffer readSection_ids readSection_Fr zkey
      buffWitness buffInternalWitness in
  (forall AB, build <> Ok AB)
  /\ (forall aMapBuff,
        readSection_ids BP_A_MAP_ZKEY_SECTION = Ok aMapBuff ->
        build = Err NotDefined)
  /\ (forall e,
        readSection_ids BP_A_MAP_ZKEY_SECTION = Err e -> build = Err e).
Proof.
  cbv zeta. unfold buildABEvaluationsBuffer.
  destruct (readSection_ids BP_A_MAP_ZKEY_SECTION) as [aMapBuff|e];
    cbn [bind BP_B_MAP_ZKEY_SECTION].
  - refine (conj _ (conj _ _)).
    + discriminate.
    + reflexivity.
    + discriminate.
  - refine (conj _ (conj _ _)).
    + discriminate.
    + discriminate.
    + intros e' [= ->]. reflexivity.
Qed.

(** The first call of [add] on the object [Wxi], whatever it is given to
    add. *)
Lemma Wxi_add_throws (n : Z) (polynomial : Polynomial.object F)
    (blindingValue : option F) :
  Polynomial.object_add (Polynomial.new_Fr_logger (BigBuffer n)) polynomial
    blindingValue
  = Err NoFieldObject.
Proof. destruct polynomial; reflexivity. Qed.

(** C3.  Round 5 builds no sum for [Wxi]: the object is made by [new
    Polynomial(new BigBuffer(sDomain), Fr, logger)], without its field
    object, and the first [add] on it throws, whatever the polynomials
    and the challenges are (when R or the high part of T has no field
    object either, [evaluate] or [mulScalar] has thrown before).  So
    neither [T_L + xi^(n+2) T_H + ...] nor another polynomial is divided
    by [X - xi]. *)
Theorem round5_Wxi_sum_throws (xi v0 : F) (R : Polynomial.object F)
    (polynomials : Polynomials) (proof : Proof.Proof F G1) :
  round5_Wxi_sum mul_undefined zkey xi v0 R polynomials proof
  = Err NoFieldObject
  /\ round5_Wxi mul_undefined zkey xi v0 R polynomials proof
     = Err NoFieldObject
  /\ (forall r t1,
        R = Polynomial.with_Fr r ->
        pol_splitT1 polynomials = Polynomial.with_Fr t1 ->
        Polynomial.object_evaluate R xi = Ok (Polynomial.evaluate r xi)
        /\ (exists t1',
              Polynomial.object_mulScalar (pol_splitT1 polynomials)
                (Fr.mul (Fr.mul (Fr.mul (round5_xiN zkey xi) xi) xi) xi)
              = Ok t1')
        /\ Polynomial.object_add
             (Polynomial.new_Fr_logger (BigBuffer (domainSize zkey)))
             (pol_splitT0 polynomials) None
           = Err NoFieldObject).
Proof.
  assert (Hsum : round5_Wxi_sum mul_undefined zkey xi v0 R polynomials proof
                 = Err NoFieldObject).
  { unfold round5_Wxi_sum. cbv zeta.
    destruct R as [r|c]; [| reflexivity].
    cbn [Polynomial.object_evaluate Polynomial.call bind].
    destruct (pol_splitT1 polynomials) as [t1|c]; [| reflexivity].
    unfold Polynomial.object_mulScalar, Polynomial.update.
    cbn [Polynomial.call].
    destruct (mulScalar_runs t1
                (Fr.mul (Fr.mul (Fr.mul (round5_xiN zkey xi) xi) xi) xi))
      as (t1' & ->).
    cbn [bind]. rewrite Wxi_add_throws. reflexivity. }
  refine (conj Hsum (conj _ _)).
  - unfold round5_Wxi. rewrite Hsum. reflexivity.
  - intros r t1 -> Et1. refine (conj eq_refl (conj _ _)).
    + rewrite Et1. unfold Polynomial.object_mulScalar, Polynomial.update.
      cbn [Polynomial.call].
      destruct (mulScalar_runs t1
                  (Fr.mul (Fr.mul (Fr.mul (round5_xiN zkey xi) xi) xi) xi))
        as (t1' & ->).
      cbn [bind]. eauto.
    + apply Wxi_add_throws.
Qed.


End ProverSteps.

(** ** What a step of the prover has computed when it returns *)

(** An invariant carried up a counting loop that returned. *)
Lemma for_up_returned {St : Type} (I : Z -> St -> Prop)
    (body : Z -> St -> result St) (k : nat) (i0 : Z) (s0 s' : St) :
  I i0 s0 ->
  (forall i s s1, i0 <= i < i0 + Z.of_nat k -> I i s -> body i s = Ok s1 ->
                  I (i + 1) s1) ->
  for_up k i0 body s0 = Ok s' ->
  I (i0 + Z.of_nat k) s'.
Proof.
  revert i0 s0. induction k as [|k IH]; intros i0 s0 H0 Hstep Hrun.
  - cbn [for_up] in Hrun. injection Hrun as <-. now rewrite Z.add_0_r.
  - cbn [for_up] in Hrun.
    destruct (body i0 s0) as [s1|e] eqn:E1; cbn [bind] in Hrun;
      [| discriminate].
    replace (i0 + Z.of_nat (S k)) with (i0 + 1 + Z.of_nat k) by lia.
    apply (IH (i0 + 1) s1).
    + apply (Hstep i0 s0 s1); [lia | assumption | assumption].
    + intros i s s2 Hi. apply Hstep. lia.
    + exact Hrun.
Qed.

Lemma for_range_returned {St : Type} (I : Z -> St -> Prop)
    (body : Z -> St -> result St) (lo hi : Z) (s0 s' : St) :
  lo <= hi ->
  I lo s0 ->
  (forall i s s1, lo <= i < hi -> I i s -> body i s = Ok s1 -> I (i + 1) s1) ->
  for_range lo hi body s0 = Ok s' ->
  I hi s'.
Proof.
  intros Hle H0 Hstep Hrun. unfold for_range in Hrun.
  replace hi with (lo + Z.of_nat (Z.to_nat (hi - lo))) at 1 by lia.
  apply (for_up_returned I body _ lo s0 s' H0); [| exact Hrun].
  intros i s s1 Hi. apply Hstep. lia.
Qed.

(** Read a step [x <- c ;; k] that returned: [c] returned too. *)
Tactic Notation "returned" hyp(H) :=
  match type of H with
  | bind ?c _ = Ok _ =>
      let E := fresh "E" in
      destruct c eqn:E; cbn [bind] in H; [| discriminate H]
  end.

Tactic Notation "returned" hyp(H) "as" ident(x) ident(E) :=
  match type of H with
  | bind ?c _ = Ok _ =>
      destruct c as [x|] eqn:E; cbn [bind] in H; [| discriminate H]
  end.

Section Returned.
Context {F : Type} `{Fr.Laws F}.
Add Ring Fr_ring_returned : Fr.ring.
Implicit Types (b : list F) (v : F) (i : Z).

Lemma buf_get_returned b i v :
  buf_get b i = Ok v -> 0 <= i < byteLength b /\ v = coef b i.
Proof.
  intros E.
  destruct (Z.ltb_spec i 0) as [Hneg|Hpos];
    [unfold buf_get in E; destruct (Z.ltb_spec i 0); [discriminate | lia] |].
  destruct (Z.ltb_spec i (byteLength b)) as [Hin|Hout].
  - rewrite buf_get_ok in E by lia. injection E as <-. split; [lia | reflexivity].
  - unfold buf_get in E. destruct (Z.ltb_spec i 0); [lia |].
    destruct (nth_error b (Z.to_nat i)) eqn:En; [| discriminate].
    assert (Z.to_nat i < List.length b)%nat
      by (apply nth_error_Some; congruence).
    unfold byteLength in Hout. lia.
Qed.

Lemma buf_set_returned b v i b' :
  buf_set b v i = Ok b' ->
  0 <= i < byteLength b /\ byteLength b' = byteLength b
  /\ forall j, coef b' j = if j =? i then v else coef b j.
Proof.
  intros E.
  destruct (Z.ltb_spec i 0) as [Hneg|Hpos];
    [rewrite buf_set_err in E by lia; discriminate |].
  destruct (Z.ltb_spec i (byteLength b)) as [Hin|Hout];
    [| rewrite buf_set_err in E by lia; discriminate].
  destruct (buf_set_ok b v i ltac:(lia)) as (b2 & E2 & L2 & C2).
  rewrite E2 in E. injection E as <-. split; [lia | split; assumption].
Qed.

Lemma mulScalar_returned (p r : Polynomial.Polynomial F) (v : F) :
  Polynomial.mulScalar p v = Ok r ->
  Polynomial.length r = Polynomial.length p
  /\ forall i, coef (Polynomial.coeff r) i
               = Fr.mul (coef (Polynomial.coeff p) i) v.
Proof.
  unfold Polynomial.mulScalar, Polynomial.length. intros Hrun.
  returned Hrun as c E. injection Hrun as <-. cbn [Polynomial.coeff].
  set (L := byteLength (Polynomial.coeff p)) in *.
  assert (Hinv : byteLength c = L
            /\ forall j, coef c j
                 = if (0 <=? j) && (j <? L)
                   then Fr.mul (coef (Polynomial.coeff p) j) v
                   else coef (Polynomial.coeff p) j).
  { match type of E with
    | for_range _ _ ?body ?init = Ok _ =>
        apply (for_range_returned
          (fun (i : Z) (s : list F) =>
             byteLength s = L
             /\ forall j, coef s j
                  = if (0 <=? j) && (j <? i)
                    then Fr.mul (coef (Polynomial.coeff p) j) v
                    else coef (Polynomial.coeff p) j)
          body 0 L init c)
    end.
    - unfold L. apply byteLength_nonneg.
    - split; [reflexivity |]. intros j. split_comparisons; reflexivity.
    - intros i s s1 Hi (Ls & Cs) Hbody.
      returned Hbody as x Ex.
      destruct (buf_get_returned _ _ _ Ex) as (_ & ->).
      destruct (buf_set_returned _ _ _ _ Hbody) as (_ & Ls1 & Cs1).
      split; [lia |]. intros j. rewrite Cs1, !Cs.
      split_comparisons; same_index; reflexivity.
    - exact E. }
  destruct Hinv as (Lc & Cc). split; [exact Lc |].
  intros i. rewrite Cc. split_comparisons; try reflexivity;
    rewrite (coef_outside (Polynomial.coeff p)) by (fold L; lia); ring.
Qed.

Lemma add_returned (p q r : Polynomial.Polynomial F)
    (blindingValue : option F) :
  Polynomial.add p q blindingValue = Ok r ->
  Polynomial.length r = Polynomial.length p
  /\ forall i, coef (Polynomial.coeff r) i
               = Fr.add (coef (Polynomial.coeff p) i)
                        (scaled blindingValue (coef (Polynomial.coeff q) i)).
Proof.
  unfold Polynomial.add, Polynomial.length, Polynomial.degree. intros Hrun.
  destruct (Z.ltb_spec (byteLength (Polynomial.coeff p))
              (Polynomial.degree_of (Polynomial.coeff q) + 1))
    as [Hbig|Hfit]; [discriminate |].
  returned Hrun as c E. injection Hrun as <-. cbn [Polynomial.coeff].
  set (L := byteLength (Polynomial.coeff p)) in *.
  set (cp := Polynomial.coeff p) in *. set (cq := Polynomial.coeff q) in *.
  assert (Hzero : scaled blindingValue Fr.zero = Fr.zero).
  { destruct blindingValue; cbn [scaled]; [ring | reflexivity]. }
  assert (Hinv : byteLength c = L
            /\ forall j, coef c j
                 = if (0 <=? j) && (j <? L)
                   then Fr.add (coef cp j) (scaled blindingValue (coef cq j))
                   else coef cp j).
  { match type of E with
    | for_range _ _ ?body ?init = Ok _ =>
        apply (for_range_returned
          (fun (i : Z) (s : list F) =>
             byteLength s = L
             /\ forall j, coef s j
                  = if (0 <=? j) && (j <? i)
                    then Fr.add (coef cp j)
                                (scaled blindingValue (coef cq j))
                    else coef cp j)
          body 0 L init c)
    end.
    - unfold L. apply byteLength_nonneg.
    - split; [reflexivity |]. intros j. split_comparisons; reflexivity.
    - intros i s s1 Hi (Ls & Cs) Hbody.
      returned Hbody as a Ea. returned Hbody as b Eb.
      assert (Ha : a = coef cp i).
      { destruct (Z.leb_spec i (Polynomial.degree_of cp)).
        - destruct (buf_get_returned _ _ _ Ea) as (_ & ->).
          rewrite Cs. split_comparisons. reflexivity.
        - injection Ea as <-. symmetry. apply coef_above_degree. lia. }
      assert (Hb : b = coef cq i).
      { destruct (Z.leb_spec i (Polynomial.degree_of cq)).
        - now destruct (buf_get_returned _ _ _ Eb) as (_ & ->).
        - injection Eb as <-. symmetry. apply coef_above_degree. lia. }
      subst a b.
      destruct (buf_set_returned _ _ _ _ Hbody) as (_ & Ls1 & Cs1).
      split; [lia |]. intros j. rewrite Cs1, !Cs.
      split_comparisons; same_index; reflexivity.
    - exact E. }
  destruct Hinv as (Lc & Cc). split; [exact Lc |].
  assert (HL : byteLength cp = L) by reflexivity.
  pose proof (degree_of_bounds cq) as (Hq0 & _ & _).
  intros i. rewrite Cc.
  destruct (Z.ltb_spec i 0) as [Hneg|Hpos].
  - destruct (Z.leb_spec 0 i); [lia |]. cbn [andb].
    rewrite (coef_outside cq) by lia. rewrite Hzero. ring.
  - destruct (Z.leb_spec 0 i); [| lia].
    destruct (Z.ltb_spec i L); cbn [andb]; [reflexivity |].
    rewrite (coef_above_degree cq) by lia. rewrite Hzero. ring.
Qed.

End Returned.

(** ** The statements on inputs over BN254 *)

(** C6 at [g = 1 + 2X + 3X^2] and [zeta = 3]. *)
Lemma divByXValue_exact_witness :
  1 <= byteLength (map fr [1; 2; 3])
  /\ exists q,
       Polynomial.divByXValue
         (Polynomial.mk (mul_x_minus (fr 3) (map fr [1; 2; 3])) None) (fr 3)
       = Ok q
       /\ Polynomial.coeff q = map fr [1; 2; 3] ++ [Fr.zero].
Proof.
  assert (Hg : 1 <= byteLength (map fr [1; 2; 3]))
    by (vm_compute; discriminate).
  split; [exact Hg |].
  destruct (divByXValue_exact (map fr [1; 2; 3]) (fr 3) None Hg)
    as (q & E & Hc & _).
  exists q. split; assumption.
Defined.

(** C10 at [p = 1 + 2X + 3X^2] and [zeta = 3]: [p(3) = 34] is not zero,
    and nothing is raised. *)
Lemma divByXValue_total_witness :
  2 <= Polynomial.length (poly [1; 2; 3])
  /\ Polynomial.evaluate (poly [1; 2; 3]) (fr 3) = fr 34
  /\ exists q,
       Polynomial.divByXValue (poly [1; 2; 3]) (fr 3) = Ok q
       /\ Polynomial.length q = Polynomial.length (poly [1; 2; 3]).
Proof.
  assert (HL : 2 <= Polynomial.length (poly [1; 2; 3]))
    by (vm_compute; discriminate).
  split; [exact HL |]. split; [vm_compute; reflexivity |].
  destruct (divByXValue_total (poly [1; 2; 3]) (fr 3) HL)
    as (q & E & Lq & _).
  exists q. split; assumption.
Defined.

(** C7 at [n = 2] and [h = 1 + 2X + ... + 6X^5]. *)
Lemma divZh_exact_witness :
  0 <= 2
  /\ byteLength (map fr [1; 2; 3; 4; 5; 6]) = 3 * 2
  /\ exists q,
       Polynomial.divZh
         (Polynomial.mk (mul_zh 2 (map fr [1; 2; 3; 4; 5; 6])) (Some 2))
       = Ok q
       /\ Polynomial.coeff q
          = map fr [1; 2; 3; 4; 5; 6] ++ repeat Fr.zero 2.
Proof.
  assert (Hn : 0 <= 2) by lia.
  assert (Hh : byteLength (map fr [1; 2; 3; 4; 5; 6]) = 3 * 2)
    by reflexivity.
  refine (conj Hn (conj Hh _)).
  destruct (divZh_exact (map fr [1; 2; 3; 4; 5; 6]) 2 Hn Hh)
    as (_ & q & E & _ & _ & _ & Hc & _).
  exists q. split; assumption.
Defined.

(** C8 at [p = 10 + 20X] with the factors 1, 2, 3, and the point [-1]
    of the subgroup of order 2. *)
Lemma blindCoefficients_blinds_witness :
  pow (fr (-1)) (Z.to_nat (Polynomial.length (poly [10; 20]))) = Fr.one
  /\ exists q,
       Polynomial.blindCoefficients (poly [10; 20]) (map fr [1; 2; 3]) = Ok q
       /\ Polynomial.evaluate q (fr (-1))
          = Polynomial.evaluate (poly [10; 20]) (fr (-1)).
Proof.
  assert (Hx : pow (fr (-1)) (Z.to_nat (Polynomial.length (poly [10; 20])))
               = Fr.one) by (vm_compute; reflexivity).
  split; [exact Hx |].
  destruct (blindCoefficients_blinds (poly [10; 20]) (map fr [1; 2; 3]))
    as (q & E & _ & _ & _ & Hv).
  exists q. split; [exact E | exact (Hv (fr (-1)) Hx)].
Defined.

(** C9 at a polynomial of 7 coefficients, asked for in 3 chunks of 2 with
    two blinding factors: [split] throws when it truncates the last
    chunk. *)
Lemma split_throws_witness :
  2 <= 3 /\ 0 <= 1 /\ byteLength (map fr [100; 200]) = 3 - 1
  /\ Polynomial.split (poly [1; 2; 3; 4; 5; 6; 7]) 3 1 (map fr [100; 200])
     = Err NoFieldObject.
Proof.
  assert (H1 : 2 <= 3) by lia.
  assert (H2 : 0 <= 1) by lia.
  assert (H3 : byteLength (map fr [100; 200]) = 3 - 1) by reflexivity.
  refine (conj H1 (conj H2 (conj H3 _))).
  destruct (split_throws (poly [1; 2; 3; 4; 5; 6; 7]) 3 1
              (map fr [100; 200]) H1 H2) as (_ & Hthrow & _).
  exact (Hthrow H3).
Defined.

(** C2 on the domain of size 2, with the wire values 5 and 7 in both
    columns: under the identity permutation the accumulator comes round
    to 1, the check passes, and the round throws when it blinds Z. *)
Lemma round2_never_commits_witness :
  1 <= domainSize example_zkey
  /\ Z_acc (num_at (fr 2) (bn128_w 1) (map fr [5; 7]) (map fr [5; 7])
              (fr 11) (fr 13))
           (den_at 2 (map fr [5; 7]) (map fr [5; 7]) example_sigma
              (fr 11) (fr 13)) 2 = Fr.one
  /\ (exists Zbuf,
        round2_Z (map Fr.inv) bn128_w example_zkey (map fr [5; 7])
          (map fr [5; 7]) example_sigma (fr 11) (fr 13) = Ok Zbuf
        /\ coef Zbuf 0 = Fr.one)
  /\ round2 (fun l => l) (map Fr.inv) (fun _ => Ok []) formal_commitment
       bn128_w example_zkey (map fr [5; 7]) (map fr [5; 7]) example_sigma
       (fr 11) (fr 13) (fr 0) (fr 0) (fr 0) Proof.new
     = Err NoFieldObject.
Proof.
  assert (Hn : 1 <= domainSize example_zkey) by (vm_compute; discriminate).
  assert (HA : domainSize example_zkey <= byteLength (map fr [5; 7]))
    by (vm_compute; discriminate).
  assert (Hs : 8 * domainSize example_zkey <= byteLength example_sigma)
    by (vm_compute; discriminate).
  assert (Hsize : forall b : list (Zmod bn128_r),
             byteLength (map Fr.inv b) = byteLength b)
    by (intros b; unfold byteLength; now rewrite length_map).
  assert (Hd : units_below (Z.to_nat (domainSize example_zkey))
                 (den_at (domainSize example_zkey) (map fr [5; 7])
                    (map fr [5; 7]) example_sigma (fr 11) (fr 13))).
  { intros i Hi. destruct i as [|[|i]].
    - vm_compute. reflexivity.
    - vm_compute. reflexivity.
    - exfalso. change (Z.to_nat (domainSize example_zkey)) with 2%nat in Hi.
      lia. }
  assert (Hinv : inverts_units (map (@Fr.inv (Zmod bn128_r) _)))
    by (intros b _; reflexivity).
  assert (Hend : Z_acc (num_at (fr 2) (bn128_w 1) (map fr [5; 7])
                          (map fr [5; 7]) (fr 11) (fr 13))
                       (den_at 2 (map fr [5; 7]) (map fr [5; 7]) example_sigma
                          (fr 11) (fr 13)) 2 = Fr.one)
    by (vm_compute; reflexivity).
  refine (conj Hn (conj Hend _)).
  destruct (round2_never_commits (map Fr.inv) bn128_w example_zkey
              (map fr [5; 7]) (map fr [5; 7]) example_sigma (fr 11) (fr 13)
              Hn HA HA Hs Hsize (fun l => l) (fun _ => Ok [])
              formal_commitment (fr 0) (fr 0) (fr 0) Proof.new)
    as (_ & _ & _ & Hround & Hunits).
  destruct (Hunits Hd Hinv) as (_ & Hok).
  destruct (Hok Hend) as (Zbuf & E & _ & H0 & _).
  split.
  - exists Zbuf. split; assumption.
  - rewrite (Hround Zbuf E). reflexivity.
Defined.

(** The other side of C2: when the values of sigma1 are exchanged, the
    wire values 5 and 7 do not satisfy the permutation, and round 2
    raises the copy-constraint error. *)
Example round2_copy_constraints_violated :
  round2_Z (map Fr.inv) bn128_w example_zkey (map fr [5; 7]) (map fr [5; 7])
    example_sigma_swapped (fr 11) (fr 13) = Err CopyConstraints.
Proof. vm_compute. reflexivity. Qed.

(** And at [gamma = 6] the first denominator, [5 + 11 * (-1) + 6], is
    zero: with a batch inverse that leaves zero where it finds zero the
    accumulator is zero, and round 2 raises the copy-constraint error. *)
Example round2_zero_denominator :
  den_at 2 (map fr [5; 7]) (map fr [5; 7]) example_sigma_swapped
    (fr 11) (fr 6) 0 = Fr.zero
  /\ round2_Z (map Fr.inv) bn128_w example_zkey (map fr [5; 7])
       (map fr [5; 7]) example_sigma_swapped (fr 11) (fr 6)
     = Err CopyConstraints.
Proof. split; vm_compute; reflexivity. Qed.

(** C1 on the key [example_zkey], whose sections are all there. *)
Example buildABEvaluationsBuffer_on_example :
  buildABEvaluationsBuffer example_section_ids example_section_Fr
    example_zkey example_witness []
  = Err NotDefined.
Proof. reflexivity. Qed.

(** C3 on the run [example_polynomials], at [xi = 2] and [v0 = 3], with a
    polynomial R that has its field object. *)
Example round5_Wxi_sum_on_example :
  round5_Wxi_sum mul_keeps_operand example_zkey (fr 2) (fr 3)
    (object_poly [4; 5; 0; 0; 0]) example_polynomials
    (proof_after_round3 [] [] [] [] [] : Proof.Proof _ (list Z))
  = Err NoFieldObject.
Proof. vm_compute. reflexivity. Qed.

(** C5 on the same run, in which round 4 returns, and on the run whose
    polynomials are built as the prover builds them. *)
Example babyPlonkProve_on_example :
  babyPlonkProve_from_round4 formal_commitment bn128_w fr mul_keeps_operand
    example_readToBuffer 32 example_zkey example_witness
    (fr 7) (fr 11) (fr 13) (fr 2) (fr 3) (fr 5) example_polynomials
    (proof_after_round3 [] [] [] [] [])
  = Err NotDefined
  /\ babyPlonkProve_from_round4 formal_commitment bn128_w fr
       mul_keeps_operand example_readToBuffer 32 example_zkey
       example_witness (fr 7) (fr 11) (fr 13) (fr 2) (fr 3) (fr 5)
       example_polynomials_built (proof_after_round3 [] [] [] [] [])
     = Err NoFieldObject.
Proof. split; vm_compute; reflexivity. Qed.

(** C4 fails on [p = 5 + 7X] and [q = 1 + 2X]: [sub] leaves [4 + 0X], and
    the coefficient 1 is not [7 - 2]: the leading coefficients of [p] and
    of [q] take no part in the subtraction. *)
Theorem sub_drops_leading_coefficients :
  Polynomial.sub (poly [5; 7]) (poly [1; 2]) None = Ok (poly [4; 0])
  /\ coef (Polynomial.coeff (poly [4; 0])) 1
     <> Fr.sub (coef (Polynomial.coeff (poly [5; 7])) 1)
               (coef (Polynomial.coeff (poly [1; 2])) 1).
Proof.
  split.
  - vm_compute. reflexivity.
  - vm_compute. intros E. discriminate E.
Qed.

(** * Further properties of the code *)

(** ** The class [Polynomial]: degree, value, coefficients *)

Section PolynomialReads.
Context {F : Type} `{Fr.Laws F}.
Add Ring Fr_ring_reads : Fr.ring.
Import Polynomial.
Implicit Types (p q : Polynomial F) (c : list F) (x v : F).

(** The degree is the only index with the two properties of the scan. *)
Lemma degree_of_unique c (d : Z) :
  0 <= d ->
  (forall i, d < i -> coef c i = Fr.zero) ->
  (0 < d -> coef c d <> Fr.zero) ->
  degree_of c = d.
Proof.
  intros Hd Habove Hat.
  pose proof (degree_of_bounds c) as (Hge & _ & _).
  destruct (Z.lt_trichotomy (degree_of c) d) as [Hlt|[Heq|Hgt]].
  - exfalso. apply Hat; [lia |]. apply coef_above_degree. exact Hlt.
  - exact Heq.
  - exfalso. apply (coef_at_degree c); [lia |]. apply Habove. exact Hgt.
Qed.

(** Coefficient lists with the same coefficients have the same value. *)
Lemma value_all_zero c x :
  (forall i, coef c i = Fr.zero) -> value c x = Fr.zero.
Proof.
  induction c as [|a c IH]; intros Hz; [reflexivity |].
  rewrite value_cons. rewrite IH.
  - specialize (Hz 0). cbn in Hz. rewrite Hz. ring.
  - intros i. destruct (Z.ltb_spec i 0) as [Hn|Hp].
    + apply coef_outside. lia.
    + specialize (Hz (i + 1)). rewrite coef_cons_pos in Hz by lia.
      replace (i + 1 - 1) with i in Hz by lia. exact Hz.
Qed.

Lemma value_ext c c' x :
  (forall i, coef c i = coef c' i) -> value c x = value c' x.
Proof.
  revert c'. induction c as [|a c IH]; intros c' Heq.
  - symmetry. apply value_all_zero. intros i. rewrite <- Heq.
    apply coef_outside. unfold byteLength. cbn. lia.
  - destruct c' as [|a' c'].
    + apply value_all_zero. intros i. rewrite Heq.
      apply coef_outside. unfold byteLength. cbn. lia.
    + rewrite !value_cons. rewrite (IH c').
      * specialize (Heq 0). cbn in Heq. rewrite Heq. reflexivity.
      * intros i. destruct (Z.ltb_spec i 0) as [Hn|Hp].
        -- rewrite !coef_outside by lia. reflexivity.
        -- specialize (Heq (i + 1)). rewrite !coef_cons_pos in Heq by lia.
           replace (i + 1 - 1) with i in Heq by lia. exact Heq.
Qed.

Lemma psum_from_value c x (k : nat) :
  psum_from c x k = Fr.mul (pow x k) (value c x).
Proof.
  revert k. induction c as [|a c IH]; intros k.
  - cbn. ring.
  - cbn [psum_from]. rewrite IH, value_cons. cbn [pow]. ring.
Qed.

(** [getCoef] returns on a polynomial that is not empty. *)
Lemma getCoef_runs p (index : Z) :
  1 <= length p ->
  0 <= index ->
  getCoef p index = Ok (coef (coeff p) index).
Proof.
  unfold getCoef, degree, length.
  intros Hl Hi.
  pose proof (degree_of_bounds (coeff p)) as (Hge & Hlt & _).
  specialize (Hlt Hl).
  destruct (Z.ltb_spec (degree_of (coeff p)) index)
    as [Habove|Hin].
  - rewrite coef_above_degree by exact Habove. reflexivity.
  - apply buf_get_ok. lia.
Qed.

(** X1.  [degree()] returns the index of the highest coefficient
    that is not zero, and 0 when there is none (the empty polynomial, a
    constant, the zero polynomial): it is never negative, it is an index of
    the buffer, every coefficient above it is zero, the coefficient at it
    is not zero unless it is 0, and no coefficient of a positive index that
    is not zero lies above it. *)
Theorem degree_highest_nonzero p :
  0 <= degree p
  /\ (1 <= length p -> degree p < length p)
  /\ (length p = 0 -> degree p = 0)
  /\ (forall i, degree p < i -> coef (coeff p) i = Fr.zero)
  /\ (0 < degree p -> coef (coeff p) (degree p) <> Fr.zero)
  /\ (forall i, 0 < i -> coef (coeff p) i <> Fr.zero -> i <= degree p)
  /\ ((forall i, 0 < i -> coef (coeff p) i = Fr.zero) -> degree p = 0).
Proof.
  unfold degree, length.
  pose proof (degree_of_bounds (coeff p)) as (Hge & Hlt & Hempty).
  refine (conj Hge (conj Hlt (conj Hempty (conj _ (conj _ (conj _ _)))))).
  - intros i. apply coef_above_degree.
  - apply coef_at_degree.
  - intros i Hi Hnz.
    destruct (Z.le_gt_cases i (degree_of (coeff p))) as [Hle|Hgt];
      [exact Hle |].
    exfalso. apply Hnz. apply coef_above_degree. lia.
  - intros Hz. apply degree_of_unique; [lia | |lia].
    intros i Hi. apply Hz. exact Hi.
Qed.

(** X2.  [evaluate(point)] is the sum of the terms
    [c_i * point^i] over the coefficients of the buffer; on the empty
    polynomial it is zero. *)
Theorem evaluate_is_sum p x :
  evaluate p x = psum (coeff p) x
  /\ (length p = 0 -> evaluate p x = Fr.zero).
Proof.
  split.
  - unfold psum. rewrite psum_from_value, evaluate_value. cbn [pow]. ring.
  - unfold length, byteLength. intros Hl.
    rewrite evaluate_value. destruct (coeff p); [reflexivity |].
    cbn in Hl. lia.
Qed.

(** X3.  on a polynomial that is not empty, [getCoef(index)] returns
    for every index from 0 on the coefficient of that index: the stored one
    up to the degree, and zero above it, also past the end of the buffer. *)
Theorem getCoef_coefficient p (index : Z) :
  1 <= length p ->
  0 <= index ->
  getCoef p index = Ok (coef (coeff p) index)
  /\ (length p <= index -> getCoef p index = Ok Fr.zero).
Proof.
  intros Hl Hi. rewrite (getCoef_runs p index Hl Hi).
  split; [reflexivity |]. intros Hout.
  rewrite coef_outside; [reflexivity |]. right. exact Hout.
Qed.

End PolynomialReads.

(** ** The class [Polynomial]: the methods that change the coefficients *)

Section PolynomialWrites.
Context {F : Type} `{Fr.Laws F}.
Add Ring Fr_ring_writes : Fr.ring.
Import Polynomial.
Implicit Types (p q r : Polynomial F) (c : list F) (x v : F).

Lemma scaled_zero (s : option F) : scaled s Fr.zero = Fr.zero.
Proof. destruct s; cbn [scaled]; [ring | reflexivity]. Qed.

Lemma coef_map_scaled (s : option F) c i :
  coef (map (scaled s) c) i = scaled s (coef c i).
Proof.
  destruct (Z.ltb_spec i 0) as [Hn|Hp].
  - rewrite !coef_outside by lia. now rewrite scaled_zero.
  - destruct (Z.ltb_spec i (byteLength c)) as [Hin|Hout].
    + apply coef_map. lia.
    + rewrite !coef_outside, scaled_zero; [reflexivity | lia |].
      unfold byteLength in *. rewrite length_map. lia.
Qed.

Lemma value_map_scaled (s : option F) c x :
  value (map (scaled s) c) x = scaled s (value c x).
Proof.
  induction c as [|a c IH]; [cbn; now rewrite scaled_zero |].
  cbn [map]. rewrite !value_cons, IH.
  destruct s; cbn [scaled]; [ring | reflexivity].
Qed.


(** [add] returns whenever the polynomial added fits and is not empty. *)
Lemma add_runs p q (s : option F) :
  degree q + 1 <= length p -> 1 <= length q ->
  exists r, add p q s = Ok r.
Proof.
  unfold add, length, degree. intros Hfit Hq.
  destruct (Z.ltb_spec (byteLength (coeff p)) (degree_of (coeff q) + 1));
    [lia |].
  pose proof (degree_of_bounds (coeff q)) as (_ & Hdq & _).
  specialize (Hdq Hq).
  match goal with
  | |- context [for_range 0 ?L ?body ?init] =>
      destruct (for_range_invariant
                  (fun (_ : Z) (s : list F) => byteLength s = L)
                  body 0 L init) as (c & E & _)
  end.
  - apply byteLength_nonneg.
  - reflexivity.
  - intros i c Hi Lc.
    assert (Ea : exists a, (if i <=? degree_of (coeff p)
                            then buf_get c i else Ok Fr.zero) = Ok a).
    { destruct (i <=? degree_of (coeff p)); [| eauto].
      rewrite buf_get_ok by lia. eauto. }
    destruct Ea as (a & ->).
    assert (Eb : exists b, (if i <=? degree_of (coeff q)
                            then buf_get (coeff q) i else Ok Fr.zero) = Ok b).
    { destruct (Z.leb_spec i (degree_of (coeff q))); [| eauto].
      rewrite buf_get_ok by lia. eauto. }
    destruct Eb as (b & ->). cbn [bind].
    match goal with
    | |- context [buf_set c ?v i] =>
        destruct (buf_set_ok c v i) as (c' & -> & Lc' & _); [lia |]
    end.
    exists c'. split; [reflexivity | lia].
  - rewrite E. cbn [bind]. eauto.
Qed.


(** The domain size that [add] leaves. *)
Lemma add_domainSize p q r (s : option F) :
  add p q s = Ok r -> domainSize r = domainSize p.
Proof.
  unfold add. destruct (length p <? degree q + 1); [discriminate |].
  intros E. returned E. injection E as <-. reflexivity.
Qed.

(** X5.  [mulScalar(value)] never throws; it multiplies every
    coefficient, and so the value at every point, by the scalar. *)
Theorem mulScalar_scales p v :
  exists r,
    mulScalar p v = Ok r
    /\ length r = length p
    /\ domainSize r = domainSize p
    /\ (forall i, coef (coeff r) i = Fr.mul (coef (coeff p) i) v)
    /\ forall x, evaluate r x = Fr.mul (evaluate p x) v.
Proof.
  destruct (mulScalar_runs p v) as (r & E). exists r.
  destruct (mulScalar_returned p r v E) as (Lr & Cr).
  refine (conj E (conj Lr (conj _ (conj Cr _)))).
  - unfold mulScalar in E. returned E. injection E as <-. reflexivity.
  - intros x. rewrite !evaluate_value.
    change (Fr.mul (value (coeff p) x) v)
      with (scaled (Some v) (value (coeff p) x)).
    rewrite <- value_map_scaled. apply value_ext.
    intros i. rewrite Cr, coef_map_scaled. reflexivity.
Qed.

(** X23.  The two ways in which round 5 adds a scaled polynomial agree:
    whenever [add] takes a polynomial with a scalar, it also takes the
    polynomial that [mulScalar] has scaled, and [this] is left the same. *)
Theorem add_scaled_two_ways p q v :
  degree q + 1 <= length p ->
  1 <= length q ->
  exists q' r,
    mulScalar q v = Ok q'
    /\ add p q (Some v) = Ok r
    /\ add p q' None = Ok r.
Proof.
  intros Hfit Hq.
  destruct (mulScalar_runs q v) as (q' & Eq). exists q'.
  destruct (mulScalar_returned q q' v Eq) as (Lq' & Cq').
  assert (Hdeg : degree q' <= degree q).
  { destruct (Z.le_gt_cases (degree q') (degree q)) as [Hle|Hgt];
      [exact Hle | exfalso].
    pose proof (degree_of_bounds (coeff q)) as (Hge & _).
    apply (coef_at_degree (coeff q')); [unfold degree in *; lia |].
    fold (degree q'). rewrite Cq'.
    rewrite (coef_above_degree (coeff q)) by exact Hgt. ring. }
  destruct (add_runs p q (Some v) Hfit Hq) as (r & Er).
  destruct (add_runs p q' None) as (r' & Er'); [lia | lia |].
  exists r. refine (conj Eq (conj Er _)). rewrite Er'. f_equal.
  destruct (add_returned p q r (Some v) Er) as (Lr & Cr).
  destruct (add_returned p q' r' None Er') as (Lr' & Cr').
  pose proof (add_domainSize p q r (Some v) Er) as Dr.
  pose proof (add_domainSize p q' r' None Er') as Dr'.
  destruct r as [c d], r' as [c' d']. cbn [coeff domainSize] in *.
  unfold length in Lr, Lr'. cbn [coeff] in Lr, Lr'.
  f_equal; [| congruence].
  apply coef_ext; [congruence |].
  intros i _. rewrite Cr, Cr', Cq'. reflexivity.
Qed.

(** X6.  [addScalar(value)] and [subScalar(value)] throw on the
    empty polynomial; on any other they change the constant coefficient
    only, move the value at every point by the scalar, and undo each
    other. *)
Theorem addScalar_subScalar p v :
  (length p = 0 ->
   addScalar p v = Err OutOfBounds /\ subScalar p v = Err OutOfBounds)
  /\ (1 <= length p ->
      exists r s,
        addScalar p v = Ok r /\ subScalar p v = Ok s
        /\ length r = length p /\ length s = length p
        /\ (forall i, coef (coeff r) i
                      = if i =? 0 then Fr.add (coef (coeff p) 0) v
                        else coef (coeff p) i)
        /\ (forall i, coef (coeff s) i
                      = if i =? 0 then Fr.sub (coef (coeff p) 0) v
                        else coef (coeff p) i)
        /\ (forall x, evaluate r x = Fr.add (evaluate p x) v)
        /\ (forall x, evaluate s x = Fr.sub (evaluate p x) v)
        /\ subScalar r v = Ok p /\ addScalar s v = Ok p).
Proof.
  destruct p as [[|a c] d].
  - split; [intros _; split; reflexivity | cbn; lia].
  - split; [unfold length, byteLength; cbn; lia | intros _].
    exists (mk (Fr.add a v :: c) d), (mk (Fr.sub a v :: c) d).
    assert (Hset : forall (b : F) (l : list F) (w : F),
               buf_set (b :: l) w 0 = Ok (w :: l)).
    { intros b l w. unfold buf_set, byteLength. cbn [List.length].
      destruct (Z.ltb_spec 0 (Z.of_nat (S (List.length l)))); [| lia].
      reflexivity. }
    assert (Hadd : forall (b : F) (l : list F) (w : F) (e : option Z),
               addScalar (mk (b :: l) e) w = Ok (mk (Fr.add b w :: l) e)).
    { intros b l w e. unfold addScalar, length, byteLength.
      cbn [coeff domainSize List.length].
      destruct (Z.eqb_spec 0 (Z.of_nat (S (List.length l)))); [lia |].
      cbn [buf_get Z.ltb Z.compare Z.to_nat nth_error bind].
      rewrite Hset. reflexivity. }
    assert (Hsub : forall (b : F) (l : list F) (w : F) (e : option Z),
               subScalar (mk (b :: l) e) w = Ok (mk (Fr.sub b w :: l) e)).
    { intros b l w e. unfold subScalar, length, byteLength.
      cbn [coeff domainSize List.length].
      destruct (Z.eqb_spec 0 (Z.of_nat (S (List.length l)))); [lia |].
      cbn [buf_get Z.ltb Z.compare Z.to_nat nth_error bind].
      rewrite Hset. reflexivity. }
    refine (conj (Hadd _ _ _ _) (conj (Hsub _ _ _ _)
              (conj eq_refl (conj eq_refl _)))).
    cbn [coeff].
    refine (conj _ (conj _ (conj _ (conj _ (conj _ _))))).
    + intros i. destruct (Z.eqb_spec i 0) as [->|Hi]; [reflexivity |].
      destruct (Z.ltb_spec i 0);
        [rewrite !coef_outside by lia; reflexivity |].
      rewrite !coef_cons_pos by lia. reflexivity.
    + intros i. destruct (Z.eqb_spec i 0) as [->|Hi]; [reflexivity |].
      destruct (Z.ltb_spec i 0);
        [rewrite !coef_outside by lia; reflexivity |].
      rewrite !coef_cons_pos by lia. reflexivity.
    + intros x. rewrite !evaluate_value. cbn [coeff].
      rewrite !value_cons. ring.
    + intros x. rewrite !evaluate_value. cbn [coeff].
      rewrite !value_cons. ring.
    + rewrite Hsub. do 2 f_equal. f_equal. ring.
    + rewrite Hadd. do 2 f_equal. f_equal. ring.
Qed.

End PolynomialWrites.

Section SubSizes.
Context {F : Type} `{Fr.Laws F}.
Import Polynomial.
Implicit Types (p q r : Polynomial F).

(** X7.  [sub(polynomial, blindingValue)] checks the lengths, where
    [add] checks the degree: it throws exactly when the polynomial
    subtracted is longer than [this], also when [add] takes the same
    polynomial because its degree fits.  Otherwise [this] keeps its length,
    and its coefficient [i] becomes the difference of the coefficients [i]
    of the two polynomials, each counted as zero from its degree on. *)
Theorem sub_checks_lengths p q (s : option F) :
  (length p < length q -> sub p q s = Err AddGreaterSize)
  /\ (degree q + 1 <= length p -> length p < length q ->
      (exists r, add p q s = Ok r) /\ sub p q s = Err AddGreaterSize)
  /\ (length q <= length p ->
      exists r,
        sub p q s = Ok r
        /\ length r = length p
        /\ domainSize r = domainSize p
        /\ forall i, 0 <= i < length p ->
             coef (coeff r) i
             = Fr.sub (if i <? degree p then coef (coeff p) i else Fr.zero)
                      (scaled s
                         (if i <? degree q then coef (coeff q) i
                          else Fr.zero))).
Proof.
  assert (Herr : length p < length q -> sub p q s = Err AddGreaterSize).
  { intros Hlong. unfold sub.
    destruct (Z.ltb_spec (length p) (length q)); [reflexivity | lia]. }
  refine (conj Herr (conj _ _)).
  - intros Hfit Hlong. split; [| exact (Herr Hlong)].
    apply add_runs; [exact Hfit |].
    pose proof (degree_of_bounds (coeff q)) as (Hge & _).
    unfold degree in Hfit. lia.
  - intros Hshort.
    destruct (sub_coefficients p q s Hshort) as (c & E & Lc & Cc).
    exists (mk c (domainSize p)).
    exact (conj E (conj Lc (conj eq_refl Cc))).
Qed.

End SubSizes.

(** ** The class [Polynomial]: truncation, splitting and division at the
    edges *)

Section PolynomialEdges.
Context {F : Type} `{Fr.Laws F}.
Add Ring Fr_ring_edges : Fr.ring.
Import Polynomial.
Implicit Types (p q r : Polynomial F) (c : list F) (x v : F).

(** X8.  [truncate()] leaves [degree() + 1] coefficients of a
    polynomial that is not empty, and changes neither a coefficient, nor
    the degree, nor the value at any point; truncating twice is truncating
    once. *)
Theorem truncate_keeps_polynomial p :
  (1 <= length p -> length (truncate p) = degree p + 1)
  /\ (length p = 0 -> truncate p = p)
  /\ (forall i, coef (coeff (truncate p)) i = coef (coeff p) i)
  /\ degree (truncate p) = degree p
  /\ (forall x, evaluate (truncate p) x = evaluate p x)
  /\ domainSize (truncate p) = domainSize p
  /\ truncate (truncate p) = truncate p.
Proof.
  pose proof (degree_of_bounds (coeff p)) as (Hge & Hlt & Hempty).
  fold (degree p) in Hge, Hlt, Hempty. fold (length p) in Hlt, Hempty.
  assert (Hlen : 1 <= length p -> length (truncate p) = degree p + 1).
  { intros Hl. specialize (Hlt Hl). unfold truncate.
    fold (length p).
    destruct (Z.ltb_spec (degree p + 1) (length p)) as [Hcut|Hall].
    - unfold length at 1. cbn [coeff].
      rewrite byteLength_buf_slice_inside; [lia | lia |].
      fold (length p). lia.
    - lia. }
  assert (Hdeg : degree (truncate p) = degree p).
  { apply degree_of_unique; [exact Hge | |].
    - intros i Hi. rewrite coef_truncate. apply coef_above_degree.
      exact Hi.
    - intros Hpos. rewrite coef_truncate. apply coef_at_degree.
      exact Hpos. }
  assert (Hnone : length p = 0 -> truncate p = p).
  { intros Hl. unfold truncate. fold (length p).
    destruct (Z.ltb_spec (degree p + 1) (length p)); [lia | reflexivity]. }
  refine (conj Hlen (conj Hnone (conj (coef_truncate p)
            (conj Hdeg (conj _ (conj _ _)))))).
  - intros x. rewrite !evaluate_value. apply value_ext.
    apply coef_truncate.
  - unfold truncate.
    destruct (degree p + 1 <? byteLength (coeff p)); reflexivity.
  - destruct (Z.eq_dec (length p) 0) as [Hz|Hnz].
    + rewrite (Hnone Hz). exact (Hnone Hz).
    + pose proof (byteLength_nonneg (coeff p)) as Hnn.
      fold (length p) in Hnn. specialize (Hlen ltac:(lia)).
      unfold truncate at 1. fold (length (truncate p)).
      rewrite Hdeg, Hlen.
      destruct (Z.ltb_spec (degree p + 1) (degree p + 1));
        [lia | reflexivity].
Qed.



(** X10.  the check of [split] lets an empty list of blinding
    factors through, and the first part then reads [blindingFactors[0]]: a
    polynomial of degree above [degPols] is not split without blinding
    factors. *)
Theorem split_without_factors p (numPols degPols : Z) :
  2 <= numPols ->
  0 <= degPols ->
  degPols < degree p ->
  split p numPols degPols [] = Err OutOfBounds.
Proof.
  intros Hn Hd Hlong. unfold split.
  destruct (Z.ltb_spec numPols 1); [lia |].
  destruct (Z.eqb_spec 1 numPols); [lia |].
  cbn [byteLength List.length Z.of_nat Z.eqb negb andb].
  pose proof (ceil_div_bounds (degree p + 1) (degPols + 1) ltac:(lia)) as HR.
  set (R := ceil_div (degree p + 1) (degPols + 1)) in *.
  assert (HR2 : 2 <= R) by nia.
  set (N := Z.min numPols R).
  assert (HN : 2 <= N) by lia.
  unfold for_range.
  destruct (Z.to_nat (N - 0)) as [|k] eqn:Ek; [lia |].
  cbn [for_up]. unfold split_chunk.
  destruct (Z.eqb_spec (N - 1) 0); [lia |]. cbn [negb].
  match goal with
  | |- context [buf_copy ?b ?s ?o] =>
      assert (Hcopy : (exists b', buf_copy b s o = Ok b')
                      \/ buf_copy b s o = Err OutOfBounds)
        by (unfold buf_copy;
            match goal with
            | |- context [if ?t then _ else _] => destruct t
            end; eauto);
      destruct Hcopy as [(b' & ->)| ->]
  end; reflexivity.
Qed.

(** X11.  [divByXValue] throws on a polynomial of fewer than
    two coefficients: it writes the top coefficient at the index
    [length - 2]. *)
Theorem divByXValue_short p (zeta : F) :
  length p < 2 -> divByXValue p zeta = Err OutOfBounds.
Proof.
  destruct p as [[|a [|b c]] d]; unfold length, byteLength;
    cbn [coeff List.length]; intros Hl.
  - reflexivity.
  - reflexivity.
  - lia.
Qed.

(** X12.  on the first [4n] coefficients of any polynomial,
    [divZh] returns [4n] coefficients [q] whose product with [X^n - 1] has
    those coefficients below [X^(4n)], and above it the top [n] coefficients
    of [q]: nothing is checked, and the division is exact exactly when
    those are zero. *)
Theorem divZh_remainder p (n : Z) :
  domainSize p = Some n ->
  0 <= n ->
  n * 4 <= length p ->
  exists q,
    divZh p = Ok q
    /\ length q = n * 4
    /\ (forall i,
          coef (mul_zh (Z.to_nat n) (coeff q)) i
          = if i <? n * 4 then coef (coeff p) i else coef (coeff q) (i - n))
    /\ ((forall i, n * 3 <= i < n * 4 -> coef (coeff q) i = Fr.zero)
        <-> (forall i, coef (mul_zh (Z.to_nat n) (coeff q)) i
                       = if i <? n * 4 then coef (coeff p) i else Fr.zero)).
Proof.
  intros Hd Hn Hl.
  destruct (divZh_recurrence p n Hd Hn Hl) as (c & E & Lc & Clow & Chigh).
  exists (mk c None). cbn [coeff]. unfold length at 1. cbn [coeff].
  assert (Hprod : forall i,
             coef (mul_zh (Z.to_nat n) c) i
             = if i <? n * 4 then coef (coeff p) i else coef c (i - n)).
  { intros i. rewrite coef_mul_zh, Z2Nat.id by lia.
    destruct (Z.ltb_spec i (n * 4)) as [Hin|Hout].
    - destruct (Z.ltb_spec i 0) as [Hneg|Hpos].
      + rewrite !coef_outside by lia. ring.
      + destruct (Z.ltb_spec i n) as [Hlow|Hhigh].
        * rewrite (coef_outside c (i - n)) by lia.
          rewrite Clow by lia. ring.
        * rewrite (Chigh i) by lia. ring.
    - rewrite (coef_outside c i) by lia. ring. }
  refine (conj E (conj Lc (conj Hprod _))).
  split.
  - intros Htop i. rewrite Hprod.
    destruct (Z.ltb_spec i (n * 4)) as [Hin|Hout]; [reflexivity |].
    destruct (Z.ltb_spec (i - n) (n * 4)) as [Hin'|Hout'].
    + apply Htop. lia.
    + apply coef_outside. lia.
  - intros Hexact i Hi. specialize (Hexact (i + n)).
    rewrite Hprod in Hexact.
    destruct (Z.ltb_spec (i + n) (n * 4)) as [Hin|Hout]; [lia |].
    replace (i + n - n) with i in Hexact by lia. exact Hexact.
Qed.

End PolynomialEdges.

(** ** The static [to4T] *)

Section To4T.
Context {F : Type} `{Fr.Laws F}.
Add Ring Fr_ring_to4T : Fr.ring.

Variables ifft fft : list F -> list F.

Lemma coef_app_zeros (a : list F) (k : nat) (j : Z) :
  coef (a ++ repeat Fr.zero k) j = coef a j.
Proof.
  destruct (Z.ltb_spec j (byteLength a)) as [Hin|Hout].
  - apply coef_app_l. exact Hin.
  - rewrite coef_app_r, coef_repeat_zero by lia.
    symmetry. apply coef_outside. lia.
Qed.

Lemma byteLength_app_zeros (a : list F) (n : Z) :
  byteLength a <= n ->
  byteLength (a ++ repeat Fr.zero (Z.to_nat (n - byteLength a))) = n.
Proof. intros Hn. rewrite byteLength_app, byteLength_repeat. lia. Qed.

(** A fresh buffer filled from its start with a shorter one is that one
    followed by zeros. *)
Lemma buf_copy_padded (n : Z) (a : list F) :
  byteLength a <= n ->
  buf_copy (BigBuffer n) a 0
  = Ok (a ++ repeat Fr.zero (Z.to_nat (n - byteLength a))).
Proof.
  intros Hn. destruct (buf_copy_fresh n a Hn) as (b & -> & Lb & Cb).
  f_equal. apply coef_ext.
  - rewrite byteLength_app_zeros by exact Hn. exact Lb.
  - intros i _. now rewrite Cb, coef_app_zeros.
Qed.

(** X13.  for at most [domainSize] coefficients [a = ifft(buffer)],
    [to4T] returns the coefficients that [blindCoefficients] leaves of the
    polynomial with the coefficients [a] filled with zeros up to
    [domainSize] (with the coefficients [a] themselves, when there are
    [domainSize] of them): coefficient [j] is
    [a[j] + b[j - domainSize] - b[j]]; and with them the transform of [a]
    filled with zeros up to four times [domainSize], which the blinding
    factors do not reach. *)
Theorem to4T_blinds (buffer : list F) (n : Z) (blindingFactors : list F) :
  byteLength (ifft buffer) <= n ->
  let a := ifft buffer in
  exists q,
    Polynomial.blindCoefficients
      (Polynomial.mk (a ++ repeat Fr.zero (Z.to_nat (n - byteLength a))) None)
      blindingFactors = Ok q
    /\ to4T ifft fft buffer n blindingFactors
       = Ok (Polynomial.coeff q,
             fft (a ++ repeat Fr.zero (Z.to_nat (n * 4 - byteLength a))))
    /\ byteLength (Polynomial.coeff q) = n + byteLength blindingFactors
    /\ (forall j, coef (Polynomial.coeff q) j
                  = Fr.sub (Fr.add (coef a j) (coef blindingFactors (j - n)))
                           (coef blindingFactors j))
    /\ (byteLength a = n ->
        Polynomial.blindCoefficients (Polynomial.mk a None) blindingFactors
        = Ok q).
Proof.
  intros Hn a. fold a in Hn.
  pose proof (byteLength_nonneg a) as Ha.
  pose proof (byteLength_nonneg blindingFactors) as Hk.
  set (padded := a ++ repeat Fr.zero (Z.to_nat (n - byteLength a))).
  assert (Lp : byteLength padded = n) by (apply byteLength_app_zeros; lia).
  destruct (blindCoefficients_coef (Polynomial.mk padded None)
              blindingFactors) as (c & E & Lc & Cc).
  unfold Polynomial.length in Lc, Cc. cbn [Polynomial.coeff] in Lc, Cc.
  rewrite Lp in Lc, Cc.
  exists (Polynomial.mk c None). cbn [Polynomial.coeff Polynomial.domainSize] in *.
  refine (conj E (conj _ (conj Lc (conj _ _)))).
  - unfold Polynomial.blindCoefficients, Polynomial.length in E.
    cbn [Polynomial.coeff Polynomial.domainSize] in E.
    rewrite Lp in E.
    rewrite (buf_copy_padded (n + byteLength blindingFactors) padded) in E
      by lia.
    cbn [bind] in E. returned E as c' Ec. injection E as ->.
    unfold to4T. fold a.
    rewrite (buf_copy_padded (n * 4) a) by lia.
    rewrite (buf_copy_padded (n + byteLength blindingFactors) a) by lia.
    cbn [bind].
    assert (Hsame : a ++ repeat Fr.zero
                           (Z.to_nat (n + byteLength blindingFactors
                                      - byteLength a))
                    = padded ++ repeat Fr.zero
                                  (Z.to_nat (n + byteLength blindingFactors
                                             - byteLength padded))).
    { apply coef_ext.
      - rewrite !byteLength_app_zeros by lia. reflexivity.
      - intros i _. unfold padded. now rewrite !coef_app_zeros. }
    rewrite Hsame, Ec. reflexivity.
  - intros j. rewrite Cc. unfold padded. now rewrite coef_app_zeros.
  - intros Hall.
    assert (Hp : padded = a).
    { unfold padded. rewrite Hall, Z.sub_diag. apply app_nil_r. }
    rewrite <- Hp. exact E.
Qed.

End To4T.

(** ** The sections of 32-bit integers *)

Lemma byte_value_range (x : Byte.byte) : 0 <= byte_value x < 256.
Proof.
  unfold byte_value. pose proof (Byte.to_N_bounded x). lia.
Qed.

Lemma byte_value_of (z : Z) : byte_value (byte_of z) = z mod 256.
Proof.
  unfold byte_value, byte_of.
  pose proof (Z.mod_pos_bound z 256 ltac:(lia)) as Hm.
  destruct (Byte.of_N (Z.to_N (z mod 256))) as [b|] eqn:E.
  - rewrite (Byte.to_of_N _ E). lia.
  - apply Byte.of_N_None_iff in E. lia.
Qed.

(** A slice of four bytes from a non-negative offset: the bytes that are
    there. *)
Lemma Uint8Array_slice_four (b : list Byte.byte) (o : Z) :
  0 <= o ->
  Uint8Array_slice b o (o + 4) = firstn 4 (skipn (Z.to_nat o) b).
Proof.
  intros Ho. unfold Uint8Array_slice, slice_index.
  set (len := Z.of_nat (List.length b)).
  destruct (Z.ltb_spec o 0); [lia |].
  destruct (Z.ltb_spec (o + 4) 0); [lia |].
  destruct (Z.le_gt_cases (o + 4) len) as [Hin|Hout].
  - replace (Z.min (o + 4) len - Z.min o len) with 4 by lia.
    replace (Z.min o len) with o by lia. reflexivity.
  - destruct (Z.le_gt_cases o len) as [Ho'|Ho'].
    + replace (Z.min o len) with o by lia.
      replace (Z.min (o + 4) len) with len by lia.
      rewrite !firstn_all2; [reflexivity | |];
        rewrite length_skipn; lia.
    + replace (Z.min o len) with len by lia.
      replace (Z.min (o + 4) len) with len by lia.
      rewrite !skipn_all2 by lia. now destruct (Z.to_nat (len - len)).
Qed.

Lemma Ok_inj {A : Type} (a b : A) : Ok a = Ok b -> a = b.
Proof. now intros [= ->]. Qed.

Lemma getUint32_range (l : list Byte.byte) (v : Z) :
  getUint32 l = Ok v -> 0 <= v < 2 ^ 32.
Proof.
  destruct l as [|b0 [|b1 [|b2 [|b3 l]]]]; cbn [getUint32];
    try discriminate.
  intros E. apply Ok_inj in E. subst v.
  pose proof (byte_value_range b0). pose proof (byte_value_range b1).
  pose proof (byte_value_range b2). pose proof (byte_value_range b3).
  change (2 ^ 8) with 256. change (2 ^ 16) with 65536.
  change (2 ^ 24) with 16777216. change (2 ^ 32) with 4294967296. lia.
Qed.

Lemma getUint32_firstn (l : list Byte.byte) :
  getUint32 (firstn 4 l) = getUint32 l.
Proof. destruct l as [|b0 [|b1 [|b2 [|b3 l]]]]; reflexivity. Qed.

Lemma getUint32_u32_le (v : Z) (rest : list Byte.byte) :
  0 <= v < 2 ^ 32 -> getUint32 (u32_le v ++ rest) = Ok v.
Proof.
  intros Hv. cbn [u32_le app getUint32]. rewrite !byte_value_of. f_equal.
  change (2 ^ 8) with 256. change (2 ^ 16) with 65536.
  change (2 ^ 24) with 16777216. change (2 ^ 32) with 4294967296 in Hv.
  Z.div_mod_to_equations. lia.
Qed.

Lemma skipn_u32_section (ids : list Z) (k : nat) :
  skipn (4 * k) (u32_section ids) = u32_section (skipn k ids).
Proof.
  revert ids. induction k as [|k IH]; intros ids; [reflexivity |].
  destruct ids as [|v ids]; [reflexivity |].
  replace (4 * S k)%nat with (4 + 4 * k)%nat by lia.
  cbn [u32_section flat_map u32_le app skipn Nat.add]. apply IH.
Qed.

(** X14.  [readUInt32(b, o)] is a 32-bit unsigned integer, the four
    bytes from the offset read lowest first; on a section that holds a list
    of such integers it returns at the offset [4 i] the integer of index
    [i], and past the end of the section it throws. *)
Theorem readUInt32_little_endian (b : list Byte.byte) (o : Z) (ids : list Z)
    (i : Z) :
  (forall v, readUInt32 b o = Ok v -> 0 <= v < 2 ^ 32)
  /\ ((forall v, In v ids -> 0 <= v < 2 ^ 32) ->
      0 <= i ->
      readUInt32 (u32_section ids) (i * 4) = arr_get ids i).
Proof.
  split.
  - unfold readUInt32. intros v. apply getUint32_range.
  - intros Hids Hi. unfold readUInt32.
    rewrite Uint8Array_slice_four, getUint32_firstn by lia.
    replace (Z.to_nat (i * 4)) with (4 * Z.to_nat i)%nat by lia.
    rewrite skipn_u32_section. unfold arr_get.
    destruct (Z.ltb_spec i 0); [lia |].
    destruct (nth_error ids (Z.to_nat i)) as [v|] eqn:E.
    + destruct (nth_error_split _ _ E) as (l1 & l2 & -> & Hl).
      rewrite skipn_app, skipn_all2, Hl, Nat.sub_diag by lia.
      cbn [skipn app u32_section flat_map].
      apply getUint32_u32_le. apply Hids. apply in_or_app. right. now left.
    + apply nth_error_None in E. rewrite skipn_all2 by lia. reflexivity.
Qed.

(** ** The prover: witness values, additions and the sections of the key *)

Lemma arr_get_nth {A : Type} (l : list A) (i : Z) (d : A) :
  0 <= i < Z.of_nat (List.length l) ->
  arr_get l i = Ok (nth (Z.to_nat i) l d).
Proof.
  intros Hi. unfold arr_get. destruct (Z.ltb_spec i 0); [lia |].
  destruct (nth_error l (Z.to_nat i)) as [x|] eqn:E.
  - now rewrite (nth_error_nth _ _ d E).
  - apply nth_error_None in E. lia.
Qed.

Lemma arr_get_returned {A : Type} (l : list A) (i : Z) (x : A) :
  arr_get l i = Ok x -> 0 <= i < Z.of_nat (List.length l) /\ In x l.
Proof.
  unfold arr_get. destruct (Z.ltb_spec i 0); [discriminate |].
  destruct (nth_error l (Z.to_nat i)) as [y|] eqn:E; [| discriminate].
  intros [= <-]. split.
  - assert (Z.to_nat i < List.length l)%nat
      by (apply nth_error_Some; congruence). lia.
  - eapply nth_error_In. exact E.
Qed.

Section WitnessValues.
Context {F : Type} `{Fr.Laws F}.
Add Ring Fr_ring_witness : Fr.ring.

Variable zkey : ZKey F.
Variable buffWitness : list F.

Hypothesis witness_size :
  byteLength buffWitness = nVars zkey - nAdditions zkey.

(** On buffers of the sizes of the header, [getWitness] reads inside
    them. *)
Lemma getWitness_inside (buffInternalWitness : list F) (idx : Z) :
  byteLength buffInternalWitness = nAdditions zkey ->
  0 <= idx ->
  getWitness zkey buffWitness buffInternalWitness idx
  = Ok (coef (buffWitness ++ buffInternalWitness) idx).
Proof.
  intros Hint Hidx. unfold getWitness.
  destruct (Z.ltb_spec idx (nVars zkey - nAdditions zkey)) as [Hw|Hnw].
  - rewrite coef_app_l by lia. apply buf_get_ok. lia.
  - destruct (Z.ltb_spec idx (nVars zkey)) as [Hi|Hz].
    + rewrite coef_app_r by lia.
      rewrite witness_size. apply buf_get_ok. lia.
    + rewrite coef_outside; [reflexivity |].
      right. rewrite byteLength_app. lia.
Qed.

(** X15.  On buffers of the sizes of the header, [getWitness(idx)]
    never reads outside a buffer: for every signal id from 0 on it returns
    the entry [idx] of the witness followed by the internal witness, and
    zero from [nVars] on. *)
Theorem getWitness_lookup (buffInternalWitness : list F) (idx : Z) :
  byteLength buffInternalWitness = nAdditions zkey ->
  0 <= idx ->
  getWitness zkey buffWitness buffInternalWitness idx
  = Ok (coef (buffWitness ++ buffInternalWitness) idx)
  /\ (nVars zkey <= idx ->
      getWitness zkey buffWitness buffInternalWitness idx = Ok Fr.zero).
Proof.
  intros Hint Hidx.
  rewrite (getWitness_inside buffInternalWitness idx Hint Hidx).
  split; [reflexivity |]. intros Hout.
  rewrite coef_outside; [reflexivity |].
  right. rewrite byteLength_app. lia.
Qed.

(** What [getWitness] returns at the turn [i] of the loop of
    [calculateAdditions], the additions from [i] on being zero yet. *)
Lemma getWitness_seen (internal : list F) (i idx : Z) :
  byteLength internal = nAdditions zkey ->
  (forall j, i <= j -> coef internal j = Fr.zero) ->
  0 <= idx ->
  getWitness zkey buffWitness internal idx
  = Ok (witness_seen zkey buffWitness internal i idx).
Proof.
  intros Hint Hzero Hidx. unfold getWitness, witness_seen.
  destruct (Z.ltb_spec idx (nVars zkey - nAdditions zkey)) as [Hw|Hnw].
  - apply buf_get_ok. lia.
  - destruct (Z.ltb_spec idx (nVars zkey)) as [Hi|Hz].
    + rewrite buf_get_ok by lia.
      destruct (Z.ltb_spec (idx - (nVars zkey - nAdditions zkey)) i);
        [reflexivity |].
      now rewrite Hzero by lia.
    + destruct (Z.ltb_spec (idx - (nVars zkey - nAdditions zkey)) i)
        as [Hearly|]; [| reflexivity].
      rewrite coef_outside; [reflexivity | lia].
Qed.

Lemma witness_seen_ext (s s' : list F) (i idx : Z) :
  (forall k, k < i -> coef s' k = coef s k) ->
  witness_seen zkey buffWitness s' i idx
  = witness_seen zkey buffWitness s i idx.
Proof.
  intros Hs. unfold witness_seen.
  destruct (idx <? nVars zkey - nAdditions zkey); [reflexivity |].
  destruct (Z.ltb_spec (idx - (nVars zkey - nAdditions zkey)) i);
    [| reflexivity].
  apply Hs. assumption.
Qed.

(** X16.  for a section of at least [nAdditions] records,
    [calculateAdditions] fills the internal witness with
    [factor1 * w1 + factor2 * w2] for every addition, where a signal of the
    witness file has its value, a signal that is an earlier addition has
    the result of that addition, and any other signal (the addition
    itself, a later one, an id from [nVars] on) counts as zero. *)
Theorem calculateAdditions_sums (additionsBuff : list (Addition F)) :
  0 <= nAdditions zkey ->
  nAdditions zkey <= Z.of_nat (List.length additionsBuff) ->
  (forall ad, In ad additionsBuff -> 0 <= signalId1 ad /\ 0 <= signalId2 ad) ->
  exists internal,
    calculateAdditions zkey buffWitness additionsBuff = Ok internal
    /\ byteLength internal = nAdditions zkey
    /\ forall i, 0 <= i < nAdditions zkey ->
         exists ad,
           arr_get additionsBuff i = Ok ad
           /\ coef internal i
              = Fr.add
                  (Fr.mul (factor1 ad)
                     (witness_seen zkey buffWitness internal i (signalId1 ad)))
                  (Fr.mul (factor2 ad)
                     (witness_seen zkey buffWitness internal i (signalId2 ad))).
Proof.
  intros HnA Hsec Hids. unfold calculateAdditions.
  set (nA := nAdditions zkey) in *.
  match goal with
  | |- context [for_range 0 nA ?body ?init] =>
      destruct (for_range_invariant
        (fun (i : Z) (s : list F) =>
           byteLength s = nA
           /\ (forall j, i <= j -> coef s j = Fr.zero)
           /\ forall j, 0 <= j < i ->
                exists ad,
                  arr_get additionsBuff j = Ok ad
                  /\ coef s j
                     = Fr.add
                         (Fr.mul (factor1 ad)
                            (witness_seen zkey buffWitness s j (signalId1 ad)))
                         (Fr.mul (factor2 ad)
                            (witness_seen zkey buffWitness s j (signalId2 ad))))
        body 0 nA init) as (internal & E & Lint & _ & Cint)
  end.
  - lia.
  - refine (conj _ (conj _ _)).
    + apply byteLength_BigBuffer. lia.
    + intros j _. apply coef_BigBuffer.
    + intros j Hj. lia.
  - intros i s Hi (Ls & Zs & Cs).
    destruct (arr_get additionsBuff i) as [ad|] eqn:Ead.
    2: { rewrite (arr_get_nth additionsBuff i
                    {| signalId1 := 0; signalId2 := 0;
                       factor1 := Fr.zero; factor2 := Fr.zero |}) in Ead
           by lia. discriminate. }
    destruct (arr_get_returned _ _ _ Ead) as (_ & Hin).
    destruct (Hids ad Hin) as (Hid1 & Hid2).
    cbn [bind].
    rewrite (getWitness_seen s i (signalId1 ad) Ls Zs Hid1).
    rewrite (getWitness_seen s i (signalId2 ad) Ls Zs Hid2).
    cbn [bind].
    match goal with
    | |- context [buf_set s ?v i] =>
        destruct (buf_set_ok s v i) as (s' & -> & Ls' & Cs'); [lia |]
    end.
    exists s'. split; [reflexivity |].
    refine (conj _ (conj _ _)).
    + lia.
    + intros j Hj. rewrite Cs'. destruct (Z.eqb_spec j i); [lia |].
      apply Zs. lia.
    + intros j Hj. destruct (Z.eq_dec j i) as [->|Hne].
      * exists ad. split; [exact Ead |].
        rewrite Cs', Z.eqb_refl.
        rewrite !(witness_seen_ext s s' i); [reflexivity | |];
          intros k Hk; rewrite Cs';
          destruct (Z.eqb_spec k i); (lia || reflexivity).
      * destruct (Cs j ltac:(lia)) as (ad' & Ead' & Cj).
        exists ad'. split; [exact Ead' |].
        rewrite Cs'. destruct (Z.eqb_spec j i); [lia |].
        rewrite Cj.
        rewrite !(witness_seen_ext s s' j); [reflexivity | |];
          intros k Hk; rewrite Cs';
          destruct (Z.eqb_spec k i); (lia || reflexivity).
  - exists internal. refine (conj E (conj Lint _)).
    intros i Hi. apply Cint. exact Hi.
Qed.

End WitnessValues.

(** ** [wtns_utils.js]: the header that [writeBin] writes *)

Section WriteBinHeader.

Variable bitLength : Z -> Z.

(** [Scalar.bitLength] of a positive integer is the number of its binary
    digits. *)
Hypothesis bitLength_digits :
  forall p, 0 < p -> 2 ^ (bitLength p - 1) <= p < 2 ^ bitLength p.

Lemma bitLength_positive (p : Z) : 0 < p -> 1 <= bitLength p.
Proof.
  intros Hp. destruct (bitLength_digits p Hp) as (_ & Hlt).
  destruct (Z.le_gt_cases 1 (bitLength p)) as [Hle|Hgt]; [exact Hle |].
  exfalso. destruct (Z.eq_dec (bitLength p) 0) as [E|E].
  - rewrite E in Hlt. cbn in Hlt. lia.
  - rewrite Z.pow_neg_r in Hlt by lia. lia.
Qed.

(** X22.  for a positive prime, the size [n8] that [writeBin] writes
    is the number of bytes of the prime rounded up to whole 64-bit words:
    a positive multiple of 8 in which the prime fits, and it would not fit
    in 8 bytes less.  A witness whose length is not a multiple of [n8]
    makes [writeBin] throw after it has written [n8] and the prime, the
    first section still open; otherwise it writes the number of elements
    [length / n8] and closes the section, then writes the witness as the
    second section. *)
Theorem writeBin_header (witnessBin : list Byte.byte) (prime : Z) :
  0 < prime ->
  let n8 := writeBin_n8 bitLength prime in
  let len := Z.of_nat (List.length witnessBin) in
  8 <= n8
  /\ n8 mod 8 = 0
  /\ 2 ^ (8 * (n8 - 8)) <= prime < 2 ^ (8 * n8)
  /\ (len mod n8 <> 0 ->
      writeBin bitLength witnessBin prime
      = ([startWriteSection 1; writeULE32 n8; writeBigInt prime n8],
         InvalidWitnessLength))
  /\ (len mod n8 = 0 ->
      exists nWitness,
        nWitness * n8 = len
        /\ writeBin bitLength witnessBin prime
           = ([startWriteSection 1; writeULE32 n8; writeBigInt prime n8;
               writeULE32 nWitness; endWriteSection;
               startWriteSection 2; write witnessBin; endWriteSection],
              Written)).
Proof.
  intros Hp n8 len.
  pose proof (bitLength_positive prime Hp) as Hbl.
  destruct (bitLength_digits prime Hp) as (Hlow & Hhigh).
  set (k := (bitLength prime - 1) / 64).
  assert (Hk : 64 * k <= bitLength prime - 1 < 64 * k + 64).
  { unfold k. pose proof (Z.div_mod (bitLength prime - 1) 64 ltac:(lia)).
    pose proof (Z.mod_pos_bound (bitLength prime - 1) 64 ltac:(lia)). lia. }
  assert (Hn8 : n8 = (k + 1) * 8) by reflexivity.
  assert (H8 : 8 <= n8) by lia.
  assert (Hrem : rem_not_zero len n8 = negb (len mod n8 =? 0)).
  { unfold rem_not_zero. destruct (Z.eqb_spec n8 0); [lia |].
    rewrite Z.rem_mod_nonneg by lia. reflexivity. }
  refine (conj H8 (conj _ (conj _ (conj _ _)))).
  - rewrite Hn8. apply Z.mod_mul. lia.
  - split.
    + apply Z.le_trans with (2 ^ (bitLength prime - 1)); [| exact Hlow].
      apply Z.pow_le_mono_r; lia.
    + apply Z.lt_le_trans with (2 ^ bitLength prime); [exact Hhigh |].
      apply Z.pow_le_mono_r; lia.
  - intros Hbad. unfold writeBin. fold n8 len. rewrite Hrem.
    destruct (Z.eqb_spec (len mod n8) 0); [contradiction | reflexivity].
  - intros Hgood. exists (len / n8). split.
    + pose proof (Z.div_mod len n8 ltac:(lia)). lia.
    + unfold writeBin. fold n8 len. rewrite Hrem, Hgood. reflexivity.
Qed.

End WriteBinHeader.

(** The number of binary digits, for [Scalar.bitLength]. *)
Lemma log2_digits (p : Z) :
  0 < p -> 2 ^ (Z.log2 p + 1 - 1) <= p < 2 ^ (Z.log2 p + 1).
Proof.
  intros Hp. replace (Z.log2 p + 1 - 1) with (Z.log2 p) by lia.
  replace (Z.log2 p + 1) with (Z.succ (Z.log2 p)) by lia.
  apply Z.log2_spec. exact Hp.
Qed.


(** ** The further statements on inputs over BN254 *)

(** X1 at: the degree of [1 + 2X + 0X^2] is 1. *)
Lemma degree_highest_nonzero_witness :
  Polynomial.degree (poly [1; 2; 0]) = 1
  /\ coef (Polynomial.coeff (poly [1; 2; 0])) 2 = Fr.zero
  /\ coef (Polynomial.coeff (poly [1; 2; 0])) 1 <> Fr.zero.
Proof.
  assert (Hd : Polynomial.degree (poly [1; 2; 0]) = 1)
    by (vm_compute; reflexivity).
  destruct (degree_highest_nonzero (poly [1; 2; 0]))
    as (_ & _ & _ & Habove & Hat & _).
  refine (conj Hd (conj (Habove 2 _) _)).
  - rewrite Hd. lia.
  - rewrite <- Hd at 2. apply Hat. rewrite Hd. lia.
Defined.

(** X2 at: the value of [1 + 2X + 3X^2] at 2. *)
Lemma evaluate_is_sum_witness :
  Polynomial.evaluate (poly [1; 2; 3]) (fr 2)
  = psum (Polynomial.coeff (poly [1; 2; 3])) (fr 2).
Proof. exact (proj1 (evaluate_is_sum (poly [1; 2; 3]) (fr 2))). Defined.

(** X3 at: [getCoef(5)] of [1 + 2X + 0X^2]. *)
Lemma getCoef_coefficient_witness :
  1 <= Polynomial.length (poly [1; 2; 0]) /\ 0 <= 5
  /\ Polynomial.getCoef (poly [1; 2; 0]) 5
     = Ok (coef (Polynomial.coeff (poly [1; 2; 0])) 5).
Proof.
  assert (H1 : 1 <= Polynomial.length (poly [1; 2; 0]))
    by (vm_compute; discriminate).
  assert (H2 : 0 <= 5) by lia.
  refine (conj H1 (conj H2 _)).
  exact (proj1 (getCoef_coefficient (poly [1; 2; 0]) 5 H1 H2)).
Defined.


(** X5 at: three times [1 + 2X]. *)
Lemma mulScalar_scales_witness :
  exists r,
    Polynomial.mulScalar (poly [1; 2]) (fr 3) = Ok r
    /\ forall x, Polynomial.evaluate r x
                 = Fr.mul (Polynomial.evaluate (poly [1; 2]) x) (fr 3).
Proof.
  destruct (mulScalar_scales (poly [1; 2]) (fr 3)) as (r & E & _ & _ & _ & V).
  exists r. split; [exact E | exact V].
Defined.

(** X6 at: [1 + 2X] plus 5, and 5 taken off again. *)
Lemma addScalar_subScalar_witness :
  1 <= Polynomial.length (poly [1; 2])
  /\ exists r,
       Polynomial.addScalar (poly [1; 2]) (fr 5) = Ok r
       /\ Polynomial.subScalar r (fr 5) = Ok (poly [1; 2]).
Proof.
  assert (H1 : 1 <= Polynomial.length (poly [1; 2]))
    by (vm_compute; discriminate).
  split; [exact H1 |].
  destruct (addScalar_subScalar (poly [1; 2]) (fr 5)) as (_ & Hok).
  destruct (Hok H1) as (r & s & Er & _ & _ & _ & _ & _ & _ & _ & Eback & _).
  exists r. split; [exact Er | exact Eback].
Defined.

(** X8 at: [1 + 2X + 0X^2 + 0X^3] truncated. *)
Lemma truncate_keeps_polynomial_witness :
  1 <= Polynomial.length (poly [1; 2; 0; 0])
  /\ Polynomial.length (Polynomial.truncate (poly [1; 2; 0; 0]))
     = Polynomial.degree (poly [1; 2; 0; 0]) + 1
  /\ forall x, Polynomial.evaluate (Polynomial.truncate (poly [1; 2; 0; 0])) x
               = Polynomial.evaluate (poly [1; 2; 0; 0]) x.
Proof.
  assert (H1 : 1 <= Polynomial.length (poly [1; 2; 0; 0]))
    by (vm_compute; discriminate).
  destruct (truncate_keeps_polynomial (poly [1; 2; 0; 0]))
    as (Hl & _ & _ & _ & Hv & _).
  exact (conj H1 (conj (Hl H1) Hv)).
Defined.


(** X10 at: [1 + 2X + 3X^2 + 4X^3] asked for in two parts of two coefficients,
    with no blinding factor. *)
Lemma split_without_factors_witness :
  2 <= 2 /\ 0 <= 1 /\ 1 < Polynomial.degree (poly [1; 2; 3; 4])
  /\ Polynomial.split (poly [1; 2; 3; 4]) 2 1 [] = Err OutOfBounds.
Proof.
  assert (H1 : 2 <= 2) by lia.
  assert (H2 : 0 <= 1) by lia.
  assert (H3 : 1 < Polynomial.degree (poly [1; 2; 3; 4]))
    by (vm_compute; reflexivity).
  refine (conj H1 (conj H2 (conj H3 _))).
  exact (split_without_factors (poly [1; 2; 3; 4]) 2 1 H1 H2 H3).
Defined.

(** X11 at: the constant 7 divided by [X - 3]. *)
Lemma divByXValue_short_witness :
  Polynomial.length (poly [7]) < 2
  /\ Polynomial.divByXValue (poly [7]) (fr 3) = Err OutOfBounds.
Proof.
  assert (H1 : Polynomial.length (poly [7]) < 2)
    by (vm_compute; reflexivity).
  split; [exact H1 |].
  exact (divByXValue_short (poly [7]) (fr 3) H1).
Defined.

(** X12 at: [1 + X + ... + X^7] on the domain of size 2: not a multiple of
    [X^2 - 1]. *)
Lemma divZh_remainder_witness :
  0 <= 2
  /\ 2 * 4 <= Polynomial.length
                (Polynomial.mk (map fr [1; 1; 1; 1; 1; 1; 1; 1]) (Some 2))
  /\ exists q,
       Polynomial.divZh
         (Polynomial.mk (map fr [1; 1; 1; 1; 1; 1; 1; 1]) (Some 2)) = Ok q
       /\ forall i,
            coef (mul_zh (Z.to_nat 2) (Polynomial.coeff q)) i
            = if i <? 2 * 4
              then coef (map fr [1; 1; 1; 1; 1; 1; 1; 1]) i
              else coef (Polynomial.coeff q) (i - 2).
Proof.
  assert (H1 : 0 <= 2) by lia.
  assert (H2 : 2 * 4 <= Polynomial.length
                          (Polynomial.mk (map fr [1; 1; 1; 1; 1; 1; 1; 1])
                             (Some 2)))
    by (vm_compute; discriminate).
  refine (conj H1 (conj H2 _)).
  destruct (divZh_remainder
              (Polynomial.mk (map fr [1; 1; 1; 1; 1; 1; 1; 1]) (Some 2)) 2
              eq_refl H1 H2) as (q & E & _ & C & _).
  exists q. split; [exact E | exact C].
Defined.

(** X15 at: the signal 4 of a circuit of three witness values and two
    additions. *)
Lemma getWitness_lookup_witness :
  byteLength example_witness
  = nVars example_zkey_additions - nAdditions example_zkey_additions
  /\ byteLength (map fr [31; 31]) = nAdditions example_zkey_additions
  /\ 0 <= 4
  /\ getWitness example_zkey_additions example_witness (map fr [31; 31]) 4
     = Ok (coef (example_witness ++ map fr [31; 31]) 4).
Proof.
  assert (H2 : byteLength example_witness
               = nVars example_zkey_additions
                 - nAdditions example_zkey_additions) by reflexivity.
  assert (H3 : byteLength (map fr [31; 31])
               = nAdditions example_zkey_additions) by reflexivity.
  assert (H4 : 0 <= 4) by lia.
  refine (conj H2 (conj H3 (conj H4 _))).
  exact (proj1 (getWitness_lookup example_zkey_additions example_witness
                  H2 (map fr [31; 31]) 4 H3 H4)).
Defined.

(** X16 at: the two additions [2 w1 + 3 w2] and [w3 + w4] over the witness
    [0, 5, 7]: the signal 3 is the first addition, and the signal 4, the
    second addition itself, counts as zero. *)
Lemma calculateAdditions_sums_witness :
  byteLength example_witness
  = nVars example_zkey_additions - nAdditions example_zkey_additions
  /\ 0 <= nAdditions example_zkey_additions
  /\ nAdditions example_zkey_additions
     <= Z.of_nat (List.length example_additions)
  /\ exists internal,
       calculateAdditions example_zkey_additions example_witness
         example_additions = Ok internal
       /\ internal = map fr [31; 31].
Proof.
  assert (H1 : 0 <= nAdditions example_zkey_additions) by (cbn; lia).
  assert (H2 : byteLength example_witness
               = nVars example_zkey_additions
                 - nAdditions example_zkey_additions) by reflexivity.
  assert (H3 : nAdditions example_zkey_additions
               <= Z.of_nat (List.length example_additions))
    by (cbn; lia).
  assert (H4 : forall ad, In ad example_additions ->
                 0 <= signalId1 ad /\ 0 <= signalId2 ad).
  { intros ad [<-|[<-|[]]]; cbn; lia. }
  refine (conj H2 (conj H1 (conj H3 _))).
  destruct (calculateAdditions_sums example_zkey_additions example_witness
              H2 example_additions H1 H3 H4) as (internal & E & _ & _).
  exists internal. split; [exact E |].
  assert (E' : calculateAdditions example_zkey_additions example_witness
                 example_additions = Ok (map fr [31; 31]))
    by (vm_compute; reflexivity).
  rewrite E' in E. injection E as <-. reflexivity.
Defined.

(** X14 at: the section of the integers 1 and 258, read at the offset 4. *)
Lemma readUInt32_little_endian_witness :
  (forall v, In v [1; 258] -> 0 <= v < 2 ^ 32)
  /\ 0 <= 1
  /\ readUInt32 (u32_section [1; 258]) (1 * 4) = Ok 258.
Proof.
  assert (H1 : forall v, In v [1; 258] -> 0 <= v < 2 ^ 32).
  { intros v [<-|[<-|[]]]; cbn; lia. }
  assert (H2 : 0 <= 1) by lia.
  refine (conj H1 (conj H2 _)).
  exact (proj2 (readUInt32_little_endian [] 0 [1; 258] 1) H1 H2).
Defined.

(** X13 at: [to4T] on two coefficients and two blinding factors, the transforms
    standing for themselves. *)
Lemma to4T_blinds_witness :
  byteLength (map fr [1; 2]) <= 2
  /\ exists q,
       Polynomial.blindCoefficients (poly [1; 2]) (map fr [3; 4]) = Ok q
       /\ to4T (fun l => l) (fun l => l) (map fr [1; 2]) 2 (map fr [3; 4])
          = Ok (Polynomial.coeff q, map fr [1; 2; 0; 0; 0; 0; 0; 0]).
Proof.
  assert (H1 : byteLength (map fr [1; 2]) <= 2) by (vm_compute; discriminate).
  split; [exact H1 |].
  destruct (to4T_blinds (fun l => l) (fun l => l) (map fr [1; 2]) 2
              (map fr [3; 4]) H1) as (q & _ & E & _ & _ & Eq).
  exists q. split; [exact (Eq eq_refl) |].
  rewrite E. do 2 f_equal.
Defined.

(** X7 at: [1 + 2X + 0X^2] and the longer [4 + 5X + 0X^2 + 0X^3]. *)
Lemma sub_checks_lengths_witness :
  Polynomial.degree (poly [4; 5; 0; 0]) + 1
  <= Polynomial.length (poly [1; 2; 0])
  /\ Polynomial.length (poly [1; 2; 0]) < Polynomial.length (poly [4; 5; 0; 0])
  /\ (exists r, Polynomial.add (poly [1; 2; 0]) (poly [4; 5; 0; 0]) None = Ok r)
  /\ Polynomial.sub (poly [1; 2; 0]) (poly [4; 5; 0; 0]) None
     = Err AddGreaterSize.
Proof.
  assert (H1 : Polynomial.degree (poly [4; 5; 0; 0]) + 1
               <= Polynomial.length (poly [1; 2; 0]))
    by (vm_compute; discriminate).
  assert (H2 : Polynomial.length (poly [1; 2; 0])
               < Polynomial.length (poly [4; 5; 0; 0]))
    by (vm_compute; reflexivity).
  refine (conj H1 (conj H2 _)).
  destruct (sub_checks_lengths (poly [1; 2; 0]) (poly [4; 5; 0; 0]) None)
    as (_ & Hboth & _).
  exact (Hboth H1 H2).
Defined.

(** X22 at: the header of a witness of two elements over the scalar field of
    BN254: [n8 = 32]. *)
Lemma writeBin_header_witness :
  0 < bn128_r
  /\ writeBin_n8 digits bn128_r = 32
  /\ writeBin digits (repeat Byte.x00 64) bn128_r
     = ([startWriteSection 1; writeULE32 32; writeBigInt bn128_r 32;
         writeULE32 2; endWriteSection;
         startWriteSection 2; write (repeat Byte.x00 64); endWriteSection],
        Written).
Proof.
  assert (H1 : 0 < bn128_r) by reflexivity.
  assert (Hn8 : writeBin_n8 digits bn128_r = 32) by reflexivity.
  refine (conj H1 (conj Hn8 _)).
  destruct (writeBin_header digits log2_digits (repeat Byte.x00 64) bn128_r H1)
    as (_ & _ & _ & _ & Hok).
  rewrite Hn8 in Hok.
  destruct (Hok eq_refl) as (nWitness & Hn & E).
  assert (nWitness = 2) by (cbn in Hn; lia). subst nWitness. exact E.
Defined.

(** X23 at: [1 + 2X + 3X^2] plus three times [4 + 5X], in both ways. *)
Lemma add_scaled_two_ways_witness :
  Polynomial.degree (poly [4; 5]) + 1 <= Polynomial.length (poly [1; 2; 3])
  /\ 1 <= Polynomial.length (poly [4; 5])
  /\ exists r,
       Polynomial.add (poly [1; 2; 3]) (poly [4; 5]) (Some (fr 3)) = Ok r
       /\ Polynomial.add (poly [1; 2; 3]) (poly [12; 15]) None = Ok r.
Proof.
  assert (H1 : Polynomial.degree (poly [4; 5]) + 1
               <= Polynomial.length (poly [1; 2; 3]))
    by (vm_compute; discriminate).
  assert (H2 : 1 <= Polynomial.length (poly [4; 5]))
    by (vm_compute; discriminate).
  refine (conj H1 (conj H2 _)).
  destruct (add_scaled_two_ways (poly [1; 2; 3]) (poly [4; 5]) (fr 3) H1 H2)
    as (q' & r & Eq & E1 & E2).
  exists r. split; [exact E1 |].
  assert (Eq' : Polynomial.mulScalar (poly [4; 5]) (fr 3)
                = Ok (poly [12; 15])) by (vm_compute; reflexivity).
  rewrite Eq' in Eq. injection Eq as <-. exact E2.
Defined.
